(** * Robust motion in-betweening: the training and inference loops

    A shallow embedding of [train.py] and [test.py].  Tensors are a shape
    together with row-major data; the networks, the skeleton and the data
    loader are collaborators outside the two scripts and enter as
    parameters.  Python exceptions are values of [exn]; effects on the
    outside world (calls into the optimizers, the skeleton, the recurrent
    core, files and plots) are recorded in an event log. *)

From Stdlib Require Import String Ascii.
From Stdlib Require Import QArith_base.
From Stdlib Require Import List Arith Lia Bool ZArith.
From Stdlib Require SpecFloat.
Import ListNotations.
Close Scope Q_scope.
Open Scope nat_scope.

Set Implicit Arguments.

(* ===================================================================== *)
(** ** Python exceptions and the result of a fallible expression *)

Inductive exn : Type :=
| IndexError
| RuntimeError
| TypeError
| NameError
| AssertionError (line : nat).

Inductive res (X : Type) : Type :=
| Ok (x : X)
| Raise (e : exn).

Arguments Ok {X} x.
Arguments Raise {X} e.

Definition rbind {X Y} (r : res X) (k : X -> res Y) : res Y :=
  match r with
  | Ok x => k x
  | Raise e => Raise e
  end.

(* ===================================================================== *)
(** ** Scalars

    The element type of a tensor with the arithmetic the scripts use. *)

Class Scalar (A : Type) : Type := {
  szero : A;
  sone : A;
  sadd : A -> A -> A;
  ssub : A -> A -> A;
  smul : A -> A -> A;
  sdiv : A -> A -> A;
  ssqrt : A -> A
}.

(** Integer-valued samples, on which the arithmetic below is exact. *)
#[global] Instance Z_Scalar : Scalar Z := {
  szero := 0%Z;
  sone := 1%Z;
  sadd := Z.add;
  ssub := Z.sub;
  smul := Z.mul;
  sdiv := Z.div;
  ssqrt := Z.sqrt
}.

(** The arithmetic of the scripts: [torch.float32], that is IEEE 754
    binary32 (24 bits of precision, exponents below 128) rounded to
    nearest even, with its infinities, its signed zeros and its nan. *)
Definition float32 : Type := SpecFloat.spec_float.

#[global] Instance F32_Scalar : Scalar float32 := {
  szero := SpecFloat.S754_zero false;
  sone := SpecFloat.SFone 24 128;
  sadd := SpecFloat.SFadd 24 128;
  ssub := SpecFloat.SFsub 24 128;
  smul := SpecFloat.SFmul 24 128;
  sdiv := SpecFloat.SFdiv 24 128;
  ssqrt := SpecFloat.SFsqrt 24 128
}.


(* ===================================================================== *)
(** ** Tensors *)

Record tensor (A : Type) : Type := mkT {
  shape : list nat;
  data : list A
}.

Arguments mkT {A} shape data.

Definition numel (s : list nat) : nat := fold_right Nat.mul 1 s.

Definition wf {A} (x : tensor A) : Prop :=
  length (data x) = numel (shape x).

Fixpoint shape_eqb (s1 s2 : list nat) : bool :=
  match s1, s2 with
  | [], [] => true
  | a :: s1', b :: s2' => (a =? b) && shape_eqb s1' s2'
  | _, _ => false
  end.

(** The [i]-th run of [p] consecutive elements. *)
Definition block {A} (p i : nat) (l : list A) : list A :=
  firstn p (skipn (i * p) l).

Fixpoint map2 {A B C} (f : A -> B -> C) (l1 : list A) (l2 : list B) : list C :=
  match l1, l2 with
  | a :: l1', b :: l2' => f a b :: map2 f l1' l2'
  | _, _ => []
  end.

Definition sum_list (l : list nat) : nat := fold_right Nat.add 0 l.

Section TensorOps.
Context {A : Type} `{Scalar A}.

Definition guarded {X} (g : bool) (e : exn) (v : X) : res X :=
  if g then Ok v else Raise e.

(** [x.size(d)] *)
Definition tsize (d : nat) (x : tensor A) : res nat :=
  match nth_error (shape x) d with
  | Some n => Ok n
  | None => Raise IndexError
  end.

(** [x[i]] *)
Definition index0_val (i : nat) (x : tensor A) : tensor A :=
  mkT (tl (shape x)) (block (numel (tl (shape x))) i (data x)).

Definition index0 (i : nat) (x : tensor A) : res (tensor A) :=
  guarded (i <? hd 0 (shape x)) IndexError (index0_val i x).

(** [x[-1]] *)
Definition index_last (x : tensor A) : res (tensor A) :=
  guarded (0 <? hd 0 (shape x)) IndexError
          (index0_val (hd 0 (shape x) - 1) x).

(** [x[:, k]] *)
Definition select1_guard (k : nat) (x : tensor A) : bool :=
  match shape x with
  | _ :: t :: _ => k <? t
  | _ => false
  end.

Definition select1_val (k : nat) (x : tensor A) : tensor A :=
  let n := hd 0 (shape x) in
  let t := hd 0 (tl (shape x)) in
  let rest := tl (tl (shape x)) in
  mkT (n :: rest)
      (flat_map (fun i => block (numel rest) (i * t + k) (data x)) (seq 0 n)).

Definition select1 (k : nat) (x : tensor A) : res (tensor A) :=
  guarded (select1_guard k x) IndexError (select1_val k x).

(** [x.view(n, -1)] *)
Definition view2_guard (n : nat) (x : tensor A) : bool :=
  negb (n =? 0) && negb (numel (shape x) =? 0)
  && (numel (shape x) mod n =? 0).

Definition view2_val (n : nat) (x : tensor A) : tensor A :=
  mkT [n; numel (shape x) / n] (data x).

Definition view2 (n : nat) (x : tensor A) : res (tensor A) :=
  guarded (view2_guard n x) RuntimeError (view2_val n x).

(** [x.view(x.size(0), x.size(1), -1, 4)] *)
Definition view_quat_val (x : tensor A) : tensor A :=
  let a := nth 0 (shape x) 0 in
  let b := nth 1 (shape x) 0 in
  mkT [a; b; numel (shape x) / (a * b * 4); 4] (data x).

Definition view_quat (x : tensor A) : res (tensor A) :=
  if length (shape x) <? 2 then Raise IndexError
  else
    let a := nth 0 (shape x) 0 in
    let b := nth 1 (shape x) 0 in
    guarded (negb (numel (shape x) =? 0)
             && (numel (shape x) mod (a * b * 4) =? 0))
            RuntimeError (view_quat_val x).

(** [torch.cat(xs, d)]: every shape agrees with the first outside axis [d]. *)
Definition agree_off (d : nat) (s0 s : list nat) : bool :=
  shape_eqb (firstn d s) (firstn d s0)
  && shape_eqb (skipn (S d) s) (skipn (S d) s0)
  && (d <? length s).

Definition cat_guard (d : nat) (xs : list (tensor A)) : bool :=
  match xs with
  | [] => false
  | x0 :: _ => forallb (fun x => agree_off d (shape x0) (shape x)) xs
  end.

Definition cat_val (d : nat) (xs : list (tensor A)) : tensor A :=
  let s0 := match xs with [] => [] | x0 :: _ => shape x0 end in
  let inner := numel (skipn (S d) s0) in
  mkT (firstn d s0 ++ sum_list (map (fun x => nth d (shape x) 0) xs)
                   :: skipn (S d) s0)
      (flat_map
         (fun r => flat_map
                     (fun x => block (nth d (shape x) 0 * inner) r (data x))
                     xs)
         (seq 0 (numel (firstn d s0)))).

Definition cat (d : nat) (xs : list (tensor A)) : res (tensor A) :=
  guarded (cat_guard d xs) RuntimeError (cat_val d xs).

(** [torch.cat(xs, -1)] *)
Definition cat_last (xs : list (tensor A)) : res (tensor A) :=
  match xs with
  | [] => Raise RuntimeError
  | x0 :: _ => cat (length (shape x0) - 1) xs
  end.

(** Elementwise binary operation.  Of torch's broadcasting only the
    pattern the loops rely on is covered: equal shapes, or one operand
    with one more, leading, axis of extent one. *)
Definition bcast_guard (a b : tensor A) : bool :=
  shape_eqb (shape a) (shape b)
  || shape_eqb (shape a) (1 :: shape b)
  || shape_eqb (1 :: shape a) (shape b).

Definition bcast_val (f : A -> A -> A) (a b : tensor A) : tensor A :=
  mkT (if shape_eqb (1 :: shape a) (shape b) then shape b else shape a)
      (map2 f (data a) (data b)).

Definition bcast (f : A -> A -> A) (a b : tensor A) : res (tensor A) :=
  guarded (bcast_guard a b) RuntimeError (bcast_val f a b).

Definition tadd := bcast sadd.
Definition tsub := bcast ssub.

(** [c * x] for a Python number [c] *)
Definition tscale (c : A) (x : tensor A) : tensor A :=
  mkT (shape x) (map (smul c) (data x)).

(** [x.unsqueeze(d)] *)
Definition unsqueeze_val (d : nat) (x : tensor A) : tensor A :=
  mkT (firstn d (shape x) ++ 1 :: skipn d (shape x)) (data x).

Definition unsqueeze (d : nat) (x : tensor A) : res (tensor A) :=
  guarded (d <=? length (shape x)) IndexError (unsqueeze_val d x).

(** [x.squeeze()] *)
Definition squeeze (x : tensor A) : tensor A :=
  mkT (filter (fun d => negb (d =? 1)) (shape x)) (data x).

(** [x[:, :, lo:hi]]; a missing bound is the end of the axis.  Python
    clamps slice bounds to the extent of the axis. *)
Definition slice2_val (lo : nat) (hi : option nat) (x : tensor A) : tensor A :=
  let d := nth 2 (shape x) 0 in
  let inner := numel (skipn 3 (shape x)) in
  let lo' := Nat.min lo d in
  let hi' := Nat.max lo' (match hi with Some h => Nat.min h d | None => d end) in
  mkT (firstn 2 (shape x) ++ (hi' - lo') :: skipn 3 (shape x))
      (flat_map
         (fun r => firstn ((hi' - lo') * inner)
                          (skipn (lo' * inner) (block (d * inner) r (data x))))
         (seq 0 (numel (firstn 2 (shape x))))).

Definition slice2 (lo : nat) (hi : option nat) (x : tensor A) : res (tensor A) :=
  guarded (3 <=? length (shape x)) IndexError (slice2_val lo hi x).

(** [torch.norm(x, dim=-1, keepdim=True)]: the square root of the sum of
    the squares along the last axis.  The squares are added here from the
    last component back to the first; torch does not document the order
    it adds them in, which matters to the last bit of a float32 only. *)
Definition norm2 (v : list A) : A :=
  ssqrt (fold_right (fun a acc => sadd (smul a a) acc) szero v).

Definition norm_last_val (x : tensor A) : tensor A :=
  let lead := removelast (shape x) in
  let d := last (shape x) 0 in
  mkT (lead ++ [1])
      (map (fun r => norm2 (block d r (data x))) (seq 0 (numel lead))).

Definition norm_last (x : tensor A) : res (tensor A) :=
  guarded (1 <=? length (shape x)) IndexError (norm_last_val x).

(** [x / n] where [n] has the shape of [x] with a last axis of extent one *)
Definition div_last_val (x n : tensor A) : tensor A :=
  let d := last (shape x) 0 in
  mkT (shape x)
      (flat_map
         (fun r => map (fun v => sdiv v (nth r (data n) szero))
                       (block d r (data x)))
         (seq 0 (numel (removelast (shape x))))).

Definition div_last (x n : tensor A) : res (tensor A) :=
  guarded (shape_eqb (shape n) (removelast (shape x) ++ [1]))
          RuntimeError (div_last_val x n).

(** [torch.stack(xs, dim=1)] *)
Definition stack1_guard (xs : list (tensor A)) : bool :=
  match xs with
  | [] => false
  | x0 :: _ =>
      (1 <=? length (shape x0))
      && forallb (fun x => shape_eqb (shape x) (shape x0)) xs
  end.

Definition stack1_val (xs : list (tensor A)) : tensor A :=
  let s0 := match xs with [] => [] | x0 :: _ => shape x0 end in
  let p := numel (tl s0) in
  mkT (hd 0 s0 :: length xs :: tl s0)
      (flat_map (fun i => flat_map (fun x => block p i (data x)) xs)
                (seq 0 (hd 0 s0))).

Definition stack1 (xs : list (tensor A)) : res (tensor A) :=
  guarded (stack1_guard xs) RuntimeError (stack1_val xs).

(** A tensor of the given shape filled with one value. *)
Definition full (s : list nat) (a : A) : tensor A :=
  mkT s (repeat a (numel s)).

End TensorOps.

(* ===================================================================== *)
(** ** The outside world

    What a run does to its surroundings is kept in a log of events, in the
    order in which the calls happen. *)

Inductive optimizer : Type := GeneratorOptimizer | DiscriminatorOptimizer.

Inductive net : Type :=
| StateEncoder | OffsetEncoder | TargetEncoder | Lstm | Decoder
| ShortDiscriminator | LongDiscriminator.

Inductive loss : Type := TotalDLoss | LossTotal.

Inductive json_file : Type := StartJson | TargetJson | FrameJson (t : nat).

Inductive event (A : Type) : Type :=
| InitHidden (n : nat)
    (* lstm.init_hidden(n) *)
| FrameRead (k frames : nat)
    (* frame k of a ground-truth tensor that holds that many frames *)
| LstmForward
    (* lstm(h_in), or lstm.run(...) on the exported graph *)
| ForwardKinematics (local_q root : tensor A)
    (* skeleton.forward_kinematics_with_rotation(local_q, root) *)
| ZeroGrad (o : optimizer)
| Backward (l : loss)
| ClipGradNorm (m : net) (max_norm : Q)
    (* torch.nn.utils.clip_grad_norm_(m.parameters(), max_norm) *)
| OptimizerStep (o : optimizer)
| WriteJson (batch : nat) (file : json_file) (local_q root_pos : tensor A)
| PlotPose (pfx : string) (t : nat) (start in_between target : tensor A)
| SaveGif (i_batch : nat)
| Print (msg : string).

Arguments InitHidden {A} n.
Arguments FrameRead {A} k frames.
Arguments LstmForward {A}.
Arguments ZeroGrad {A} o.
Arguments Backward {A} l.
Arguments ClipGradNorm {A} m max_norm.
Arguments OptimizerStep {A} o.
Arguments SaveGif {A} i_batch.
Arguments Print {A} msg.

(** The state of the surroundings: the recurrent core's memory, the number
    of random tensors drawn so far, and the log. *)
Record world (A Hid : Type) : Type := mkW {
  hidden : Hid;
  rng : nat;
  log : list (event A)
}.

Arguments mkW {A Hid} hidden rng log.

(** The parameters each optimizer owns (train.py, lines 103-116). *)
Definition params (o : optimizer) : list net :=
  match o with
  | GeneratorOptimizer =>
      [StateEncoder; OffsetEncoder; TargetEncoder; Lstm; Decoder]
  | DiscriminatorOptimizer => [ShortDiscriminator; LongDiscriminator]
  end.

Definition net_eqb (a b : net) : bool :=
  match a, b with
  | StateEncoder, StateEncoder | OffsetEncoder, OffsetEncoder
  | TargetEncoder, TargetEncoder | Lstm, Lstm | Decoder, Decoder
  | ShortDiscriminator, ShortDiscriminator
  | LongDiscriminator, LongDiscriminator => true
  | _, _ => false
  end.

Definition is_init_hidden {A} (e : event A) : bool :=
  match e with InitHidden _ => true | _ => false end.

Definition is_lstm_forward {A} (e : event A) : bool :=
  match e with LstmForward => true | _ => false end.

Definition is_fk {A} (e : event A) : bool :=
  match e with ForwardKinematics _ _ => true | _ => false end.

Definition is_step {A} (o : optimizer) (e : event A) : bool :=
  match e, o with
  | OptimizerStep GeneratorOptimizer, GeneratorOptimizer
  | OptimizerStep DiscriminatorOptimizer, DiscriminatorOptimizer => true
  | _, _ => false
  end.

(** The optimizer steps of a log that ran while a parameter of theirs held
    a gradient no clipping had touched: [clipped] lists the networks
    clipped since the last backward pass, which writes fresh gradients. *)
Fixpoint unclipped_steps {A} (clipped : list net) (evs : list (event A))
    : list optimizer :=
  match evs with
  | [] => []
  | Backward _ :: evs' => unclipped_steps [] evs'
  | ClipGradNorm m _ :: evs' => unclipped_steps (m :: clipped) evs'
  | OptimizerStep o :: evs' =>
      if forallb (fun m => existsb (net_eqb m) clipped) (params o)
      then unclipped_steps clipped evs'
      else o :: unclipped_steps clipped evs'
  | _ :: evs' => unclipped_steps clipped evs'
  end.

Section Monad.
Context {A Hid : Type}.

Definition M (X : Type) : Type := world A Hid -> world A Hid * res X.

Definition ret {X} (x : X) : M X := fun w => (w, Ok x).

Definition raise {X} (e : exn) : M X := fun w => (w, Raise e).

Definition bind {X Y} (m : M X) (k : X -> M Y) : M Y :=
  fun w => match m w with
           | (w', Ok x) => k x w'
           | (w', Raise e) => (w', Raise e)
           end.

Definition lift {X} (r : res X) : M X := fun w => (w, r).

Definition tell (e : event A) : M unit :=
  fun w => (mkW (hidden w) (rng w) (log w ++ [e]), Ok tt).

(** [assert c], on the given line of the script *)
Definition assert_ (c : bool) (line : nat) : M unit :=
  if c then ret tt else raise (AssertionError line).

(** [for t in ts: s = body(t, s)] *)
Fixpoint for_each {S} (ts : list nat) (body : nat -> S -> M S) (s : S) : M S :=
  match ts with
  | [] => ret s
  | t :: ts' => bind (body t s) (for_each ts' body)
  end.

(** [for t in range(n)] *)
Definition for_range {S} (n : nat) (body : nat -> S -> M S) (s : S) : M S :=
  for_each (seq 0 n) body s.

End Monad.

Declare Scope m_scope.
Delimit Scope m_scope with m.
Notation "x <- m ;; k" := (bind m (fun x => k))
  (at level 61, m at next level, right associativity) : m_scope.
Notation "' p <- m ;; k" := (bind m (fun x => let p := x in k))
  (at level 61, p pattern, m at next level, right associativity) : m_scope.
Notation "m ;; k" := (bind m (fun _ => k))
  (at level 61, right associativity) : m_scope.
Open Scope m_scope.

(* ===================================================================== *)
(** ** The collaborators *)

(** The torch modules of [rmi.model.network]: three encoders, the recurrent
    core with its memory, and the decoder with its two heads. *)
Record torch_nets (A Hid : Type) : Type := {
  state_encoder : tensor A -> tensor A;
  offset_encoder : tensor A -> tensor A;
  target_encoder : tensor A -> tensor A;
  lstm_init_hidden : nat -> Hid;
  lstm_forward : Hid -> tensor A -> tensor A * Hid;
  decoder : tensor A -> tensor A * tensor A
}.

(** The same five networks as exported graphs, run through an inference
    session: each takes its one named input and has no memory of its own. *)
Record ort_sessions (A : Type) : Type := {
  state_encoder_run : tensor A -> tensor A;
  offset_encoder_run : tensor A -> tensor A;
  target_encoder_run : tensor A -> tensor A;
  lstm_run : tensor A -> tensor A;
  decoder_run : tensor A -> tensor A * tensor A
}.

(** One item of the data loader: the dictionary [sampled_batch]. *)
Record batch (A : Type) : Type := {
  local_q : tensor A;
  root_v : tensor A;
  contact : tensor A;
  root_p_offset : tensor A;
  local_q_offset : tensor A;
  q_target : tensor A;
  root_p : tensor A;
  global_pos : tensor A;
  global_rot : tensor A
}.

(** The values of the loop body's variables at the end of one timestep. *)
Record locals (A : Type) : Type := mkLocals {
  root_p_t : tensor A;
  root_v_t : tensor A;
  local_q_t : tensor A;
  contact_t : tensor A;
  state_input : tensor A;
  h_pred : tensor A;
  local_q_pred : tensor A;
  local_q_pred_ : tensor A;
  root_v_pred : tensor A;
  root_pred : tensor A;
  contact_pred : tensor A
}.

(* ===================================================================== *)
(** ** train.py *)

Module Train.

(** What [train()] sets up before the epoch loop (lines 26-116). *)
Record setup (A Hid : Type) : Type := {
  training_frames : nat;      (* config['model']['training_frames'] *)
  local_q_dim : nat;          (* lafan_dataset.local_q_dim *)
  nets : torch_nets A Hid;
  pe : tensor A -> nat -> tensor A;
  noise_injector : nat -> nat -> A;
  normal : nat -> list nat -> tensor A;
                              (* torch.normal, by draw number and size *)
  forward_kinematics_with_rotation :
    tensor A -> tensor A -> tensor A * tensor A
}.

(** The lists a batch accumulates (lines 158-165), the loop body's
    variables as the last timestep left them, and, for reference, the
    snapshot of those variables after every timestep so far. *)
Record state (A : Type) : Type := mkState {
  env : option (locals A);
  root_pred_list : list (tensor A);
  local_q_pred_list : list (tensor A);
  contact_pred_list : list (tensor A);
  pos_next_list : list (tensor A);
  local_q_next_list : list (tensor A);
  root_p_next_list : list (tensor A);
  contact_next_list : list (tensor A);
  global_q_next_list : list (tensor A);
  snapshots : list (locals A)
}.

Section Loop.
Context {A Hid : Type} `{Scalar A}.
Variable cfg : setup A Hid.

Let target_in : nat := local_q_dim cfg.

(** [len(sampled_batch['global_pos'])] *)
Definition batch_len (b : batch A) : nat := hd 0 (shape (global_pos b)).

(** [x[:, k]] on a ground-truth tensor *)
Definition frame (k : nat) (x : tensor A) : M (A:=A) (Hid:=Hid) (tensor A) :=
  tell (FrameRead k (nth 1 (shape x) 0)) ;; lift (select1 k x).

(** [lstm.init_hidden(n)] *)
Definition init_hidden (n : nat) : M (A:=A) (Hid:=Hid) unit :=
  fun w => (mkW (lstm_init_hidden (nets cfg) n) (rng w)
                (log w ++ [InitHidden n]), Ok tt).

(** [lstm(h_in)] *)
Definition lstm_call (h_in : tensor A) : M (A:=A) (Hid:=Hid) (tensor A) :=
  fun w => let (h_out, hid) := lstm_forward (nets cfg) (hidden w) h_in in
           (mkW hid (rng w) (log w ++ [LstmForward]), Ok h_out).

(** [torch.normal(mean=0, std=..., size=size)] *)
Definition torch_normal (size : list nat) : M (A:=A) (Hid:=Hid) (tensor A) :=
  fun w => (mkW (hidden w) (S (rng w)) (log w), Ok (normal cfg (rng w) size)).

(** [if x.size(1) == 1: x = x[0] else: x = x.squeeze()] *)
Definition drop_lead (x : tensor A) : res (tensor A) :=
  rbind (tsize 1 x) (fun n => if n =? 1 then index0 0 x else Ok (squeeze x)).

(** Lines 169-240: one timestep, from the choice of its inputs to the
    three predictions. *)
Definition timestep (b : batch A) (local_q_offset target target_noise : tensor A)
    (t : nat) (env : option (locals A)) : M (A:=A) (Hid:=Hid) (locals A) :=
  '(root_p_t, root_v_t, local_q_t, contact_t) <-
    (if t =? 0 then
       root_p_t <- frame (t + 10) (root_p b) ;;
       root_v_t <- frame (t + 10) (root_v b) ;;
       local_q_t <- frame (t + 10) (local_q b) ;;
       n <- lift (tsize 0 local_q_t) ;;
       local_q_t <- lift (view2 n local_q_t) ;;
       contact_t <- frame (t + 10) (contact b) ;;
       ret (root_p_t, root_v_t, local_q_t, contact_t)
     else
       match env with
       | None => raise NameError
       | Some e =>
           root_v_t <- lift (index0 0 (root_v_pred e)) ;;
           local_q_t <- lift (index0 0 (local_q_pred e)) ;;
           ret (root_pred e, root_v_t, local_q_t, contact_pred e)
       end) ;;
  assert_ (shape_eqb (shape (root_p_offset b)) (shape root_p_t)) 181 ;;
  (* state input *)
  state_input <- lift (cat_last [local_q_t; root_v_t; contact_t]) ;;
  (* offset input *)
  root_p_offset_t <- lift (tsub (root_p_offset b) root_p_t) ;;
  local_q_offset_t <- lift (tsub local_q_offset local_q_t) ;;
  offset_input <- lift (cat_last [root_p_offset_t; local_q_offset_t]) ;;
  (* target input *)
  let target_input := target in
  let h_state := state_encoder (nets cfg) state_input in
  let h_offset := offset_encoder (nets cfg) offset_input in
  let h_target := target_encoder (nets cfg) target_input in
  (* positional encoding *)
  let tta := training_frames cfg - t in
  let h_state := pe cfg h_state tta in
  let h_offset := pe cfg h_offset tta in
  let h_target := pe cfg h_target tta in
  offset_target <- lift (cat 1 [h_offset; h_target]) ;;
  (* scheduled noise *)
  let noise_multiplier := noise_injector cfg t (training_frames cfg) in
  prtbd_offset_target <-
    lift (tadd offset_target (tscale noise_multiplier target_noise)) ;;
  (* lstm *)
  h_cat <- lift (cat 1 [h_state; prtbd_offset_target]) ;;
  h_in <- lift (unsqueeze 0 h_cat) ;;
  h_out <- lstm_call h_in ;;
  (* decoder *)
  let (h_pred, contact_pred) := decoder (nets cfg) h_out in
  local_q_v_pred <- lift (slice2 0 (Some target_in) h_pred) ;;
  local_q_pred <- lift (tadd local_q_v_pred local_q_t) ;;
  local_q_pred_ <- lift (view_quat local_q_pred) ;;
  nrm <- lift (norm_last local_q_pred_) ;;
  local_q_pred_ <- lift (div_last local_q_pred_ nrm) ;;
  root_v_pred <- lift (slice2 target_in None h_pred) ;;
  root_pred <- lift (tadd root_v_pred root_p_t) ;;
  (* root, q, contact prediction *)
  root_pred <- lift (drop_lead root_pred) ;;
  local_q_pred_ <- lift (drop_lead local_q_pred_) ;;
  contact_pred <- lift (drop_lead contact_pred) ;;
  ret (mkLocals root_p_t root_v_t local_q_t contact_t state_input h_pred
                local_q_pred local_q_pred_ root_v_pred root_pred contact_pred).

(** Lines 233-247: the appends of one timestep. *)
Definition appends (b : batch A) (t : nat) (s : state A) (l : locals A)
    : M (A:=A) (Hid:=Hid) (state A) :=
  pos_next <- frame (t + 1 + 10) (global_pos b) ;;
  global_q_next <- frame (t + 1 + 10) (global_rot b) ;;
  local_q_next <- frame (t + 1 + 10) (local_q b) ;;
  n <- lift (tsize 0 (local_q b)) ;;
  local_q_next <- lift (view2 n local_q_next) ;;
  root_p_next <- frame (t + 1 + 10) (root_p b) ;;
  contact_next <- frame (t + 1 + 10) (contact b) ;;
  ret (mkState (Some l)
               (root_pred_list s ++ [root_pred l])
               (local_q_pred_list s ++ [local_q_pred_ l])
               (contact_pred_list s ++ [contact_pred l])
               (pos_next_list s ++ [pos_next])
               (local_q_next_list s ++ [local_q_next])
               (root_p_next_list s ++ [root_p_next])
               (contact_next_list s ++ [contact_next])
               (global_q_next_list s ++ [global_q_next])
               (snapshots s ++ [l])).

(** The body of [for t in range(training_frames)] (lines 167-247). *)
Definition body (b : batch A) (local_q_offset target target_noise : tensor A)
    (t : nat) (s : state A) : M (A:=A) (Hid:=Hid) (state A) :=
  l <- timestep b local_q_offset target target_noise t (env s) ;;
  appends b t s l.

Definition init_state : state A :=
  mkState None [] [] [] [] [] [] [] [] [].

(** The rollout of one window: lines 167-247. *)
Definition rollout (b : batch A) (local_q_offset target target_noise : tensor A)
    : M (A:=A) (Hid:=Hid) (state A) :=
  for_range (training_frames cfg)
            (body b local_q_offset target target_noise) init_state.

(** [skeleton.forward_kinematics_with_rotation(local_q, root)] *)
Definition fk_call (q r : tensor A) : M (A:=A) (Hid:=Hid) (tensor A * tensor A) :=
  tell (ForwardKinematics q r) ;;
  ret (forward_kinematics_with_rotation cfg q r).

(** Lines 280-326: the two optimizer updates.  The values of the losses
    do not steer the control flow and are left out; what is kept is the
    order of the calls that read or write gradients. *)
Definition updates : M (A:=A) (Hid:=Hid) unit :=
  (* discriminator *)
  tell (ZeroGrad DiscriminatorOptimizer) ;;
  tell (Backward TotalDLoss) ;;
  tell (OptimizerStep DiscriminatorOptimizer) ;;
  (* generator *)
  tell (ZeroGrad GeneratorOptimizer) ;;
  tell (Backward LossTotal) ;;
  tell (ClipGradNorm StateEncoder (Qmake 1 1)) ;;
  tell (ClipGradNorm OffsetEncoder (Qmake 1 1)) ;;
  tell (ClipGradNorm TargetEncoder (Qmake 1 1)) ;;
  tell (ClipGradNorm Lstm (Qmake 1 1)) ;;
  tell (ClipGradNorm Decoder (Qmake 1 1)) ;;
  tell (ClipGradNorm ShortDiscriminator (Qmake 1 1)) ;;
  tell (ClipGradNorm LongDiscriminator (Qmake 1 1)) ;;
  tell (OptimizerStep GeneratorOptimizer).

(** The body of [for sampled_batch in batch_pbar] (lines 128-327). *)
Definition train_batch (b : batch A) : M (A:=A) (Hid:=Hid) unit :=
  let current_batch_size := batch_len b in
  local_q_offset <- lift (view2 current_batch_size (local_q_offset b)) ;;
  target <- lift (view2 current_batch_size (q_target b)) ;;
  init_hidden current_batch_size ;;
  (* 3.4: target noise is sampled once per sequence *)
  target_noise <- torch_normal [current_batch_size; 256 * 2] ;;
  s <- rollout b local_q_offset target target_noise ;;
  root_pred_stack <- lift (stack1 (root_pred_list s)) ;;
  local_q_pred_stack <- lift (stack1 (local_q_pred_list s)) ;;
  contact_pred_stack <- lift (stack1 (contact_pred_list s)) ;;
  '(pos_preds, pos_rot) <- fk_call local_q_pred_stack root_pred_stack ;;
  pos_next_stack <- lift (stack1 (pos_next_list s)) ;;
  root_p_next_stack <- lift (stack1 (root_p_next_list s)) ;;
  local_q_next_stack <- lift (stack1 (local_q_next_list s)) ;;
  contact_next_stack <- lift (stack1 (contact_next_list s)) ;;
  rot_next_stack <- lift (stack1 (global_q_next_list s)) ;;
  updates.

(** One epoch: [for sampled_batch in batch_pbar] over what the loader
    yields in that epoch. *)
Fixpoint train_epoch (loader : list (batch A)) : M (A:=A) (Hid:=Hid) unit :=
  match loader with
  | [] => ret tt
  | b :: rest => train_batch b ;; train_epoch rest
  end.

End Loop.
End Train.

(* ===================================================================== *)
(** ** test.py *)

Module Test.

(** What [test(dataset, filetype)] loads for one dataset (lines 27-137):
    the configuration, the skeleton, the data loader, and the saved
    weights in both formats. *)
Record profile (A Hid : Type) : Type := {
  training_frames : nat;        (* config['test']['test_frames'] *)
  batch_size : nat;             (* config['model']['batch_size'] *)
  inference_batch_index : nat;  (* config['test']['inference_batch_index'] *)
  local_q_dim : nat;            (* lafan_dataset_test.local_q_dim *)
  loader : list (batch A);      (* lafan_data_loader_test *)
  pe : tensor A -> nat -> tensor A;
  forward_kinematics_with_rotation :
    tensor A -> tensor A -> tensor A * tensor A;
  pkl : torch_nets A Hid;       (* the *.pkl weights, loaded into modules *)
  onnx : ort_sessions A         (* the *.onnx graphs, behind sessions *)
}.

(** One timestep as the visualisation sees it. *)
Record shot (A : Type) : Type := mkShot {
  vars : locals A;
  pos_pred : tensor A;
  in_between_pose : tensor A;
  in_between_true : tensor A;
  stack_after : list (tensor A)
}.

(** The state of one window: the loop body's variables as the last
    timestep left them, the pose buffer, the poses drawn so far (the
    images of [img_pred] and [img_gt] stand for the in-between pose they
    show), and the snapshot of every timestep so far. *)
Record state (A : Type) : Type := mkState {
  env : option (locals A);
  pose_stack : list (tensor A);
  img_pred : list (tensor A);
  img_gt : list (tensor A);
  snapshots : list (shot A)
}.

Section Loop.
Context {A Hid : Type} `{Scalar A}.
Variable cfg : profile A Hid.
Variable filetype : string.

Let target_in : nat := local_q_dim cfg.

Definition frame (k : nat) (x : tensor A) : M (A:=A) (Hid:=Hid) (tensor A) :=
  tell (FrameRead k (nth 1 (shape x) 0)) ;; lift (select1 k x).

(** [x[i, k]] on a ground-truth tensor *)
Definition frame_of (i k : nat) (x : tensor A) : M (A:=A) (Hid:=Hid) (tensor A) :=
  tell (FrameRead k (nth 1 (shape x) 0)) ;;
  lift (rbind (index0 i x) (index0 k)).

(** [x[i][-1]] on a ground-truth tensor *)
Definition last_frame_of (i : nat) (x : tensor A) : M (A:=A) (Hid:=Hid) (tensor A) :=
  tell (FrameRead (nth 1 (shape x) 0 - 1) (nth 1 (shape x) 0)) ;;
  lift (rbind (index0 i x) index_last).

Definition init_hidden (n : nat) : M (A:=A) (Hid:=Hid) unit :=
  fun w => (mkW (lstm_init_hidden (pkl cfg) n) (rng w)
                (log w ++ [InitHidden n]), Ok tt).

(** A network is a torch module exactly when [filetype == 'PKL']
    (lines 81-135) and is driven through [run] exactly when
    [filetype == 'ONNX']; calling a session like a module is a
    [TypeError]. *)
Definition apply_net {X Y} (module session : X -> Y) (x : X)
    : M (A:=A) (Hid:=Hid) Y :=
  if (filetype =? "ONNX")%string then ret (session x)
  else if (filetype =? "PKL")%string then ret (module x)
  else raise TypeError.

Definition lstm_step (h_in : tensor A) : M (A:=A) (Hid:=Hid) (tensor A) :=
  if (filetype =? "ONNX")%string then
    tell LstmForward ;; ret (lstm_run (onnx cfg) h_in)
  else if (filetype =? "PKL")%string then
    fun w => let (h_out, hid) := lstm_forward (pkl cfg) (hidden w) h_in in
             (mkW hid (rng w) (log w ++ [LstmForward]), Ok h_out)
  else raise TypeError.

Definition fk_call (q r : tensor A) : M (A:=A) (Hid:=Hid) (tensor A * tensor A) :=
  tell (ForwardKinematics q r) ;;
  ret (forward_kinematics_with_rotation cfg q r).

(** [pose_stack.pop(0)] *)
Definition pop0 (l : list (tensor A)) : res (tensor A * list (tensor A)) :=
  match l with
  | [] => Raise IndexError
  | x :: l' => Ok (x, l')
  end.

(** Lines 181-310: one timestep of one window. *)
Definition body (i_batch : nat) (b : batch A) (local_q_offset target : tensor A)
    (t : nat) (s : state A) : M (A:=A) (Hid:=Hid) (state A) :=
  let ibi := inference_batch_index cfg in
  '(root_p_t, root_v_t, local_q_t, contact_t) <-
    (if t =? 0 then
       root_p_t <- frame (t + 9) (root_p b) ;;
       root_v_t <- frame (t + 9) (root_v b) ;;
       local_q_t <- frame (t + 9) (local_q b) ;;
       n <- lift (tsize 0 local_q_t) ;;
       local_q_t <- lift (view2 n local_q_t) ;;
       contact_t <- frame (t + 9) (contact b) ;;
       ret (root_p_t, root_v_t, local_q_t, contact_t)
     else
       match env s with
       | None => raise NameError
       | Some e =>
           root_v_t <- lift (index0 0 (root_v_pred e)) ;;
           local_q_t <- lift (index0 0 (local_q_pred e)) ;;
           contact_t <- lift (index0 0 (contact_pred e)) ;;
           ret (root_pred e, root_v_t, local_q_t, contact_t)
       end) ;;
  assert_ (shape_eqb (shape (root_p_offset b)) (shape root_p_t)) 195 ;;
  (* state input *)
  state_input <- lift (cat_last [local_q_t; root_v_t; contact_t]) ;;
  (* offset input *)
  root_p_offset_t <- lift (tsub (root_p_offset b) root_p_t) ;;
  local_q_offset_t <- lift (tsub local_q_offset local_q_t) ;;
  offset_input <- lift (cat_last [root_p_offset_t; local_q_offset_t]) ;;
  (* target input *)
  let target_input := target in
  h_state <- apply_net (state_encoder (pkl cfg))
                       (state_encoder_run (onnx cfg)) state_input ;;
  h_offset <- apply_net (offset_encoder (pkl cfg))
                        (offset_encoder_run (onnx cfg)) offset_input ;;
  h_target <- apply_net (target_encoder (pkl cfg))
                        (target_encoder_run (onnx cfg)) target_input ;;
  (* positional encoding *)
  let tta := training_frames cfg - t in
  let h_state := pe cfg h_state tta in
  let h_offset := pe cfg h_offset tta in
  let h_target := pe cfg h_target tta in
  offset_target <- lift (cat 1 [h_offset; h_target]) ;;
  (* lstm *)
  h_cat <- lift (cat 1 [h_state; offset_target]) ;;
  h_in <- lift (unsqueeze 0 h_cat) ;;
  h_out <- lstm_step h_in ;;
  (* decoder *)
  '(h_pred, contact_pred) <- apply_net (decoder (pkl cfg))
                                       (decoder_run (onnx cfg)) h_out ;;
  local_q_v_pred <- lift (slice2 0 (Some target_in) h_pred) ;;
  local_q_pred <- lift (tadd local_q_v_pred local_q_t) ;;
  local_q_pred_ <- lift (view_quat local_q_pred) ;;
  nrm <- lift (norm_last local_q_pred_) ;;
  local_q_pred_ <- lift (div_last local_q_pred_ nrm) ;;
  root_v_pred <- lift (slice2 target_in None h_pred) ;;
  root_pred <- lift (tadd root_v_pred root_p_t) ;;
  (* FK *)
  let root_pred := squeeze root_pred in
  let local_q_pred_ := squeeze local_q_pred_ in
  q1 <- lift (unsqueeze 1 local_q_pred_) ;;
  r1 <- lift (unsqueeze 1 root_pred) ;;
  '(pos_pred, _) <- fk_call q1 r1 ;;
  (* exporting *)
  root_pred_t <- lift (index0 ibi root_pred) ;;
  local_q_pred_t <- lift (index0 ibi local_q_pred_) ;;
  start_pose <- frame_of ibi (0 + 9) (global_pos b) ;;
  '(in_between_pose, pose_stack) <- lift (pop0 (pose_stack s)) ;;
  assert_ (length pose_stack =? 0) 280 ;;
  pushed <- lift (rbind (index0 ibi pos_pred) (index0 0)) ;;
  let pose_stack := pose_stack ++ [pushed] in
  in_between_true <- frame_of ibi (t + 9) (global_pos b) ;;
  target_pose <- frame_of ibi (training_frames cfg - 1 + 9) (global_pos b) ;;
  (if t =? 0 then
     q0 <- frame_of ibi 0 (local_q b) ;;
     p0 <- lift (index0 0 start_pose) ;;
     tell (WriteJson i_batch StartJson q0 p0) ;;
     qn <- last_frame_of ibi (local_q b) ;;
     pn <- lift (index0 0 target_pose) ;;
     tell (WriteJson i_batch TargetJson qn pn)
   else ret tt) ;;
  tell (WriteJson i_batch (FrameJson t) local_q_pred_t root_pred_t) ;;
  tell (PlotPose "pred_" t start_pose in_between_pose target_pose) ;;
  tell (PlotPose "gt_" t start_pose in_between_true target_pose) ;;
  let l := mkLocals root_p_t root_v_t local_q_t contact_t state_input h_pred
                    local_q_pred local_q_pred_ root_v_pred root_pred
                    contact_pred in
  ret (mkState (Some l) pose_stack
               (img_pred s ++ [in_between_pose])
               (img_gt s ++ [in_between_true])
               (snapshots s ++ [mkShot l pos_pred in_between_pose
                                       in_between_true pose_stack])).

(** Lines 149-316 past the batch-size check: one window. *)
Definition window (i_batch : nat) (b : batch A) : M (A:=A) (Hid:=Hid) (state A) :=
  let current_batch_size := Train.batch_len b in
  p0 <- frame_of (inference_batch_index cfg) (0 + 9) (global_pos b) ;;
  let pose_stack := [p0] in
  local_q_offset <- lift (view2 current_batch_size (local_q_offset b)) ;;
  target <- lift (view2 current_batch_size (q_target b)) ;;
  (if (filetype =? "PKL")%string then init_hidden current_batch_size
   else ret tt) ;;
  s <- for_range (training_frames cfg)
                 (body i_batch b local_q_offset target)
                 (mkState None pose_stack [] [] []) ;;
  tell (SaveGif i_batch) ;;
  ret s.

(** [for i_batch, sampled_batch in enumerate(lafan_data_loader_test)]
    with its [break] on a batch whose size is not the configured one;
    the result lists the windows that were rolled out. *)
Fixpoint batches (i_batch : nat) (bs : list (batch A))
    : M (A:=A) (Hid:=Hid) (list (state A)) :=
  match bs with
  | [] => ret []
  | b :: rest =>
      if negb (batch_size cfg =? Train.batch_len b) then ret []
      else
        s <- window i_batch b ;;
        ss <- batches (S i_batch) rest ;;
        ret (s :: ss)
  end.

End Loop.

(** [test(dataset, filetype)] *)
Definition test {A Hid : Type} `{Scalar A} (lafan dfki : profile A Hid)
    (dataset filetype : string) : M (A:=A) (Hid:=Hid) (list (state A)) :=
  let cfg := if (dataset =? "LAFAN")%string then lafan else dfki in
  batches cfg filetype 0 (loader cfg).

(** What [str.upper] does to ASCII text: the letters a-z become A-Z and
    every other character is kept. *)
Definition upper_ascii (c : ascii) : ascii :=
  let n := nat_of_ascii c in
  if (97 <=? n) && (n <=? 122) then ascii_of_nat (n - 32) else c.

Fixpoint ascii_upper (s : string) : string :=
  match s with
  | EmptyString => EmptyString
  | String c s' => String (upper_ascii c) (ascii_upper s')
  end.

Section Cli.
(** A command-line value is a Python [str], held here as its UTF-8
    bytes.  [upper] is Python's [str.upper] on such a value: a builtin
    that follows the case mapping of Unicode, not part of the script. *)
Variable upper : string -> string.

(** Lines 327-332: the dataset and the messages printed on the way. *)
Definition choose_dataset (arg : option string) : string * list string :=
  match arg with
  | None => ("DFKI"%string, [])
  | Some a =>
      if (upper a =? "DFKI")%string || (upper a =? "LAFAN")%string
      then (upper a, [])
      else ("DFKI"%string,
            ["Currently: Only LAFAN and DFKI Datasets are supported. Using Default: DFKI"%string])
  end.

(** Lines 334-339 *)
Definition choose_filetype (arg : option string) : string * list string :=
  match arg with
  | None => ("ONNX"%string, [])
  | Some a =>
      if (upper a =? "ONNX")%string || (upper a =? "PKL")%string
      then (upper a, [])
      else ("ONNX"%string, ["Filetype not supported. Using default ONNX"%string])
  end.

End Cli.

Fixpoint prints {A Hid : Type} (msgs : list string) : M (A:=A) (Hid:=Hid) unit :=
  match msgs with
  | [] => ret tt
  | m :: ms => tell (Print m) ;; prints ms
  end.

(** The script's entry point (lines 319-342), given the parsed
    [args.Dataset] and [args.Filetype]. *)
Definition main {A Hid : Type} `{Scalar A} (upper : string -> string)
    (lafan dfki : profile A Hid)
    (Dataset Filetype : option string) : M (A:=A) (Hid:=Hid) (list (state A)) :=
  let (d, warn_d) := choose_dataset upper Dataset in
  let (f, warn_f) := choose_filetype upper Filetype in
  prints (warn_d ++ warn_f) ;;
  tell (Print ("Using dataset  " ++ d ++ "  and filetype  " ++ f)%string) ;;
  test lafan dfki d f.

End Test.

(* ===================================================================== *)
(** ** A regression fixture

    A two-joint skeleton, identity rotations, zero root velocity, and
    networks stubbed to emit constants; with [residual] zero the decoder's
    residual is zero at every step. *)

Module Fixture.
Section Generic.
Context {A : Type} `{Scalar A}.

Definition joints : nat := 2.
Definition root_dim : nat := 3.
Definition contact_dim : nat := 4.

Definition identity_quats (n : nat) : list A :=
  flat_map (fun _ => [sone; szero; szero; szero]) (seq 0 n).

(** [n] samples of [t] frames each. *)
Definition sample_batch (n t : nat) : batch A := {|
  local_q := mkT [n; t; joints; 4] (identity_quats (n * t * joints));
  root_v := full [n; t; root_dim] szero;
  contact := full [n; t; contact_dim] sone;
  root_p_offset := full [n; root_dim] szero;
  local_q_offset := mkT [n; joints; 4] (identity_quats (n * joints));
  q_target := mkT [n; joints; 4] (identity_quats (n * joints));
  root_p := full [n; t; root_dim] sone;
  global_pos := full [n; t; joints; 3] sone;
  global_rot := full [n; t; joints; 4] szero
|}.

Definition zero_encoder (x : tensor A) : tensor A :=
  full [hd 0 (shape x); 256] szero.

(** A decoder that emits the same rotation residual, four components,
    for every joint and a zero residual otherwise. *)
Definition const_decoder (residual : list A) (h : tensor A)
    : tensor A * tensor A :=
  let n := nth 1 (shape h) 0 in
  (mkT [1; n; joints * 4 + root_dim]
       (flat_map (fun _ => flat_map (fun _ => residual) (seq 0 joints)
                           ++ repeat szero root_dim)
                 (seq 0 n)),
   full [1; n; contact_dim] szero).

Definition no_residual : list A := [szero; szero; szero; szero].


Definition zero_lstm (h_in : tensor A) : tensor A :=
  full (shape h_in) szero.

(** The memory of the stubbed recurrent core counts the steps taken
    since the last reset. *)
Definition stub_nets (residual : list A) : torch_nets A nat := {|
  state_encoder := zero_encoder;
  offset_encoder := zero_encoder;
  target_encoder := zero_encoder;
  lstm_init_hidden := fun _ => 0;
  lstm_forward := fun hid h_in => (zero_lstm h_in, S hid);
  decoder := const_decoder residual
|}.

Definition stub_sessions (residual : list A) : ort_sessions A := {|
  state_encoder_run := zero_encoder;
  offset_encoder_run := zero_encoder;
  target_encoder_run := zero_encoder;
  lstm_run := zero_lstm;
  decoder_run := const_decoder residual
|}.

(** Forward kinematics stubbed to put every joint at the origin. *)
Definition stub_fk (q r : tensor A) : tensor A * tensor A :=
  (full [hd 0 (shape r); nth 1 (shape r) 0; joints; 3] szero,
   full [hd 0 (shape r); nth 1 (shape r) 0; joints; 4] szero).

Definition train_setup (residual : list A) (frames : nat) : Train.setup A nat := {|
  Train.training_frames := frames;
  Train.local_q_dim := joints * 4;
  Train.nets := stub_nets residual;
  Train.pe := fun h _ => h;
  Train.noise_injector := fun _ _ => szero;
  Train.normal := fun _ size => full size szero;
  Train.forward_kinematics_with_rotation := stub_fk
|}.

Definition test_profile (residual : list A) (frames bs : nat)
    (data : list (batch A)) : Test.profile A nat := {|
  Test.training_frames := frames;
  Test.batch_size := bs;
  Test.inference_batch_index := 0;
  Test.local_q_dim := joints * 4;
  Test.loader := data;
  Test.pe := fun h _ => h;
  Test.forward_kinematics_with_rotation := stub_fk;
  Test.pkl := stub_nets residual;
  Test.onnx := stub_sessions residual
|}.

Definition w0 : world A nat := mkW 0 0 [].
End Generic.
End Fixture.

(* ===================================================================== *)
(** ** Vocabulary for statements about runs *)

Section RunVocabulary.
Context {A Hid : Type}.

(** The log of [w'] extends the log of [w] by events that satisfy [P]. *)
Definition grows (P : event A -> Prop) (w w' : world A Hid) : Prop :=
  exists evs, log w' = log w ++ evs /\ Forall P evs.

(** Like [grows], and the recurrent core's memory is left alone. *)
Definition grows_quietly (P : event A -> Prop) (w w' : world A Hid) : Prop :=
  grows P w w' /\ hidden w' = hidden w.

(** Whatever its outcome, [m] moves the world along [R]. *)
Definition stable (R : world A Hid -> world A Hid -> Prop) {X}
    (m : M (A:=A) (Hid:=Hid) X) : Prop :=
  forall w, R w (fst (m w)).

(** In [evs] the recurrent core is reset for [n] samples before it is
    first stepped. *)
Definition reset_before_rollout (n : nat) (evs : list (event A)) : Prop :=
  forall pre post,
    evs = pre ++ LstmForward :: post -> In (InitHidden n) pre.

(** A frame read stays inside the tensor it reads. *)
Definition in_bounds (e : event A) : Prop :=
  forall k n, e = FrameRead k n -> k < n.

(** A frame read is at index [bound] at most. *)
Definition reads_upto (bound : nat) (e : event A) : Prop :=
  forall k n, e = FrameRead k n -> k <= bound.

End RunVocabulary.

(** Every ground-truth tensor of the batch holds at least [n] frames. *)
Definition frames_at_least {A} (n : nat) (b : batch A) : Prop :=
  n <= nth 1 (shape (local_q b)) 0 /\
  n <= nth 1 (shape (root_v b)) 0 /\
  n <= nth 1 (shape (contact b)) 0 /\
  n <= nth 1 (shape (root_p b)) 0 /\
  n <= nth 1 (shape (global_pos b)) 0 /\
  n <= nth 1 (shape (global_rot b)) 0.


(** *** What one timestep does, seen from its snapshot *)

Section StepVocabulary.
Context {A : Type} `{Scalar A}.

(** The inputs of the timestep are the ground-truth frame [offset] of the
    batch (lines 170-174, resp. 184-188). *)
Definition teacher_forced (offset : nat) (b : batch A) (l : locals A) : Prop :=
  select1 offset (root_p b) = Ok (root_p_t l) /\
  select1 offset (root_v b) = Ok (root_v_t l) /\
  (exists q n, select1 offset (local_q b) = Ok q /\ tsize 0 q = Ok n /\
               view2 n q = Ok (local_q_t l)) /\
  select1 offset (contact b) = Ok (contact_t l).

(** The inputs of the timestep are what the timestep of snapshot [e]
    predicted.  [contact_is e c] says how the contact input [c] is taken
    from [e]: as it stands in training, through [contact_pred[0]] in
    inference. *)
Definition autoregressive (contact_is : locals A -> tensor A -> Prop)
    (e l : locals A) : Prop :=
  root_p_t l = root_pred e /\
  index0 0 (root_v_pred e) = Ok (root_v_t l) /\
  index0 0 (local_q_pred e) = Ok (local_q_t l) /\
  contact_is e (contact_t l).

Definition contact_as_is (e : locals A) (c : tensor A) : Prop :=
  c = contact_pred e.

Definition contact_first (e : locals A) (c : tensor A) : Prop :=
  index0 0 (contact_pred e) = Ok c.

(** In a sequence of snapshots the first timestep is teacher-forced and
    every later one is fed the predictions of the one before it; each
    timestep builds its state input from those inputs. *)
Definition dataflow (offset : nat) (contact_is : locals A -> tensor A -> Prop)
    (b : batch A) (snaps : list (locals A)) : Prop :=
  forall t l, nth_error snaps t = Some l ->
    cat_last [local_q_t l; root_v_t l; contact_t l] = Ok (state_input l) /\
    match t with
    | 0 => teacher_forced offset b l
    | S t' => exists e, nth_error snaps t' = Some e /\
                        autoregressive contact_is e l
    end.

(** [y] is [x] without its leading axis: [x[0]], or [x.squeeze()]. *)
Definition settled (x y : tensor A) : Prop :=
  index0 0 x = Ok y \/ y = squeeze x.

(** The decoder's output is consumed as a residual (lines 213-220,
    resp. 260-267). *)
Definition residual_applied (q_dim : nat) (l : locals A) : Prop :=
  exists dq rp,
    slice2 0 (Some q_dim) (h_pred l) = Ok dq /\
    tadd dq (local_q_t l) = Ok (local_q_pred l) /\
    slice2 q_dim None (h_pred l) = Ok (root_v_pred l) /\
    tadd (root_v_pred l) (root_p_t l) = Ok rp /\
    settled rp (root_pred l).

(** The predicted quaternions are the absolute ones divided by their
    norm along the last axis (lines 216-217, resp. 263-264). *)
Definition normalised (l : locals A) : Prop :=
  exists qv nrm dv,
    view_quat (local_q_pred l) = Ok qv /\
    norm_last qv = Ok nrm /\
    div_last qv nrm = Ok dv /\
    settled dv (local_q_pred_ l).

End StepVocabulary.

(** *** What one timestep leaves behind *)

Section StepFacts.
Context {A : Type} `{Scalar A}.

(** The residual of the snapshot came out of the decoder [dec]. *)
Definition decoded_by (dec : tensor A -> tensor A * tensor A)
    (l : locals A) : Prop :=
  exists h, h_pred l = fst (dec h).

(** The decoder's pose head is a tensor whose leading axis, the sequence
    axis of the recurrent core, has extent one. *)
Definition decoder_well_formed (dec : tensor A -> tensor A * tensor A) : Prop :=
  forall h, wf (fst (dec h)) /\ hd 0 (shape (fst (dec h))) = 1.

(** The decoder emits an all-zero residual. *)
Definition zero_residual (dec : tensor A -> tensor A * tensor A) : Prop :=
  forall h, Forall (eq szero) (data (fst (dec h))).

(** Adding zero changes none of the entries of [x].  In float32 this is
    so unless [x] holds a negative zero, which adding zero turns into a
    positive one. *)
Definition zero_neutral_on (x : tensor A) : Prop :=
  Forall (fun v => sadd szero v = v) (data x).

(** What the timestep that took the training rollout from [s] to [s']
    did, with [l] the snapshot it left. *)
Definition train_step {Hid} (cfg : Train.setup A Hid) (b : batch A) (t : nat)
    (s s' : Train.state A) (l : locals A) : Prop :=
  Train.env s' = Some l /\
  Train.snapshots s' = Train.snapshots s ++ [l] /\
  Train.root_pred_list s' = Train.root_pred_list s ++ [root_pred l] /\
  Train.local_q_pred_list s' = Train.local_q_pred_list s ++ [local_q_pred_ l] /\
  Train.contact_pred_list s' = Train.contact_pred_list s ++ [contact_pred l] /\
  cat_last [local_q_t l; root_v_t l; contact_t l] = Ok (state_input l) /\
  (t = 0 -> teacher_forced 10 b l) /\
  (t <> 0 -> exists e, Train.env s = Some e /\ autoregressive contact_as_is e l) /\
  decoded_by (decoder (Train.nets cfg)) l /\
  residual_applied (Train.local_q_dim cfg) l /\
  normalised l.

(** What the timestep that took the inference rollout from [s] to [s']
    did, with [sh] the snapshot it left. *)
Definition test_step {Hid} (cfg : Test.profile A Hid) (b : batch A) (t : nat)
    (s s' : Test.state A) (sh : Test.shot A) : Prop :=
  let l := Test.vars sh in
  Test.env s' = Some l /\
  Test.snapshots s' = Test.snapshots s ++ [sh] /\
  cat_last [local_q_t l; root_v_t l; contact_t l] = Ok (state_input l) /\
  (t = 0 -> teacher_forced 9 b l) /\
  (t <> 0 -> exists e, Test.env s = Some e /\ autoregressive contact_first e l) /\
  (decoded_by (decoder (Test.pkl cfg)) l
   \/ decoded_by (decoder_run (Test.onnx cfg)) l) /\
  residual_applied (Test.local_q_dim cfg) l /\
  normalised l /\
  (* the pose buffer *)
  Test.pose_stack s = [Test.in_between_pose sh] /\
  (exists pushed,
     rbind (index0 (Test.inference_batch_index cfg) (Test.pos_pred sh))
           (index0 0) = Ok pushed
     /\ Test.pose_stack s' = [pushed]) /\
  Test.stack_after sh = Test.pose_stack s' /\
  Test.img_pred s' = Test.img_pred s ++ [Test.in_between_pose sh].

End StepFacts.

(** *** What a rollout leaves behind *)

Section Histories.
Context {A : Type} `{Scalar A}.

(** The state of a training rollout agrees with its snapshots: the three
    prediction lists hold what the timesteps predicted, in order, the
    loop variables are those of the last timestep, the inputs flow as
    [dataflow] says, and every timestep decoded a residual, applied it
    and normalised the quaternions. *)
Definition train_history {Hid} (cfg : Train.setup A Hid) (b : batch A)
    (s : Train.state A) : Prop :=
  let snaps := Train.snapshots s in
  Train.env s = last (map Some snaps) None /\
  Train.root_pred_list s = map (@root_pred A) snaps /\
  Train.local_q_pred_list s = map (@local_q_pred_ A) snaps /\
  Train.contact_pred_list s = map (@contact_pred A) snaps /\
  dataflow 10 contact_as_is b snaps /\
  Forall (fun l => decoded_by (decoder (Train.nets cfg)) l
                   /\ residual_applied (Train.local_q_dim cfg) l
                   /\ normalised l) snaps.

(** The pose buffer over the timesteps of a window that started with
    [p0] buffered: every timestep leaves exactly the pose it has just
    predicted, and shows [p0] at [t = 0] and otherwise the pose the
    timestep before it left. *)
Definition pose_lag {Hid} (cfg : Test.profile A Hid) (p0 : tensor A)
    (snaps : list (Test.shot A)) : Prop :=
  forall t sh, nth_error snaps t = Some sh ->
    (exists p, Test.stack_after sh = [p]
               /\ rbind (index0 (Test.inference_batch_index cfg)
                                (Test.pos_pred sh))
                        (index0 0) = Ok p) /\
    match t with
    | 0 => Test.in_between_pose sh = p0
    | S t' => exists sh', nth_error snaps t' = Some sh'
                          /\ Test.stack_after sh' = [Test.in_between_pose sh]
    end.

Definition test_history {Hid} (cfg : Test.profile A Hid) (b : batch A)
    (p0 : tensor A) (s : Test.state A) : Prop :=
  let snaps := Test.snapshots s in
  Test.env s = last (map (fun sh => Some (Test.vars sh)) snaps) None /\
  Test.pose_stack s = last (map (@Test.stack_after A) snaps) [p0] /\
  Test.img_pred s = map (@Test.in_between_pose A) snaps /\
  dataflow 9 contact_first b (map (@Test.vars A) snaps) /\
  pose_lag cfg p0 snaps /\
  Forall (fun sh => (decoded_by (decoder (Test.pkl cfg)) (Test.vars sh)
                     \/ decoded_by (decoder_run (Test.onnx cfg)) (Test.vars sh))
                    /\ residual_applied (Test.local_q_dim cfg) (Test.vars sh)
                    /\ normalised (Test.vars sh)) snaps.

End Histories.

Section RaiseVocabulary.
Context {A Hid : Type}.

(** Whenever [m] raises, the exception satisfies [P]. *)
Definition raises_only (P : exn -> Prop) {X} (m : M (A:=A) (Hid:=Hid) X) : Prop :=
  forall w e, snd (m w) = Raise e -> P e.

End RaiseVocabulary.

(** An exception of the tensor library, not a failed assertion. *)
Definition library_error (e : exn) : Prop :=
  e = IndexError \/ e = RuntimeError.

(** Not the assertion of line [n]. *)
Definition not_line (n : nat) (e : exn) : Prop := e <> AssertionError n.

(** An event that writes, rescales or consumes gradients. *)
Definition is_gradient_event {A} (e : event A) : bool :=
  match e with
  | Backward _ | ClipGradNorm _ _ | OptimizerStep _ => true
  | _ => false
  end.

Definition is_clip {A} (e : event A) : bool :=
  match e with ClipGradNorm _ _ => true | _ => false end.

(** The events one timestep of the training rollout may log. *)
Definition train_may_emit {A Hid} (cfg : Train.setup A Hid) (b : batch A)
    (t : nat) (e : event A) : Prop :=
  e = LstmForward
  \/ (t = 0 /\ exists x, In x [root_p b; root_v b; local_q b; contact b]
                         /\ e = FrameRead (0 + 10) (nth 1 (shape x) 0))
  \/ (exists x, In x [global_pos b; global_rot b; local_q b; root_p b; contact b]
                /\ e = FrameRead (t + 1 + 10) (nth 1 (shape x) 0)).

(** The events one timestep of the inference rollout may log. *)
Definition test_may_emit {A Hid} (cfg : Test.profile A Hid) (i_batch : nat)
    (b : batch A) (t : nat) (e : event A) : Prop :=
  e = LstmForward
  \/ (exists q r, e = ForwardKinematics q r
                  /\ nth 1 (shape q) 0 = 1 /\ nth 1 (shape r) 0 = 1)
  \/ (exists f q p, e = WriteJson i_batch f q p)
  \/ (exists pfx st ib tg, e = PlotPose pfx t st ib tg)
  \/ (t = 0 /\ exists x, In x [root_p b; root_v b; local_q b; contact b]
                         /\ e = FrameRead (0 + 9) (nth 1 (shape x) 0))
  \/ (exists k, In k [0 + 9; t + 9; Test.training_frames cfg - 1 + 9]
                /\ e = FrameRead k (nth 1 (shape (global_pos b)) 0))
  \/ (t = 0 /\ e = FrameRead 0 (nth 1 (shape (local_q b)) 0))
  \/ (t = 0 /\ e = FrameRead (nth 1 (shape (local_q b)) 0 - 1)
                             (nth 1 (shape (local_q b)) 0)).

(** A value made of ASCII characters only. *)
Definition is_ascii (s : string) : Prop :=
  Forall (fun c => nat_of_ascii c < 128) (list_ascii_of_string s).

(** What is known of [str.upper]: on ASCII text it is [Test.ascii_upper].
    What it does to other text is left open. *)
Definition upper_on_ascii (upper : string -> string) : Prop :=
  forall s, is_ascii s -> upper s = Test.ascii_upper s.

(** A value with a letter outside ASCII that [str.upper] takes to a
    supported one: "dfk" followed by the dotless i (U+0131, the bytes 196
    and 177), which Python upper-cases to DFKI; and an [upper] that agrees
    with Python on that value and on ASCII text. *)
Definition dfk_dotless_i : string :=
  String "d" (String "f" (String "k"
    (String (ascii_of_nat 196) (String (ascii_of_nat 177) EmptyString)))).

Definition upper_with_dotless_i (s : string) : string :=
  if (s =? dfk_dotless_i)%string then "DFKI"%string else Test.ascii_upper s.

(** The command-line values the script supports. *)
Definition supported_dataset (s : string) : Prop :=
  s = "DFKI"%string \/ s = "LAFAN"%string.

Definition supported_filetype (s : string) : Prop :=
  s = "ONNX"%string \/ s = "PKL"%string.

Definition dataset_warning : string :=
  "Currently: Only LAFAN and DFKI Datasets are supported. Using Default: DFKI".

Definition filetype_warning : string :=
  "Filetype not supported. Using default ONNX".

(* ===================================================================== *)
(** ** Vocabulary for the outputs, the errors and the epoch loop *)

Definition is_save_gif {A} (e : event A) : bool :=
  match e with SaveGif _ => true | _ => false end.


(** The pose files a log has written, by window and name. *)
Definition json_files {A} (evs : list (event A)) : list (nat * json_file) :=
  flat_map (fun e => match e with
                     | WriteJson i f _ _ => [(i, f)]
                     | _ => []
                     end) evs.

(** The plots a log has drawn, by prefix and timestep. *)
Definition plots {A} (evs : list (event A)) : list (string * nat) :=
  flat_map (fun e => match e with
                     | PlotPose pfx t _ _ _ => [(pfx, t)]
                     | _ => []
                     end) evs.

(** The pose files of timestep [t] of window [i]. *)
Definition step_files (i t : nat) : list (nat * json_file) :=
  (if t =? 0 then [(i, StartJson); (i, TargetJson)] else [])
  ++ [(i, FrameJson t)].

Definition step_plots (t : nat) : list (string * nat) :=
  [("pred_"%string, t); ("gt_"%string, t)].


(** No random tensor is drawn on the way from [w] to [w']. *)
Definition same_rng {A Hid} (w w' : world A Hid) : Prop := rng w' = rng w.


(** What a rollout may raise: an error of the tensor library, or the
    assertion on the shape of the root position on the given line. *)
Definition rollout_error (line : nat) (e : exn) : Prop :=
  library_error e \/ e = AssertionError line.

(** What a window of the inference loop may raise: a [rollout_error], or
    the [TypeError] of calling a session as a module when the file type is
    neither ONNX nor PKL. *)
Definition window_error (ft : string) (e : exn) : Prop :=
  rollout_error 195 e \/ (e = TypeError /\ ~ supported_filetype ft).


(* ===================================================================== *)
(** ** train.py: the epoch loop and its checkpoints *)

Module TrainLoop.

(** What [train()] reads from the configuration for the epoch loop. *)
Record schedule : Type := {
  epochs : Z;                (* config['model']['epochs'], a Python int *)
  weight_save_interval : Z;  (* config['log']['weight_save_interval'], a Python int *)
  save_optimizer : bool      (* config['model']['save_optimizer'] *)
}.

Inductive saved : Type :=
| Weights (m : net)                (* torch.save(m.state_dict(), ...) *)
| OptimizerState (o : optimizer).  (* torch.save(o.state_dict(), ...) *)

(** What the epoch loop does around the batches, in the order it does
    it. *)
Inductive chore : Type :=
| SetTrain (m : net)                 (* m.train() *)
| SetEval (m : net)                  (* m.eval() *)
| Batches (epoch : nat)              (* for sampled_batch in batch_pbar *)
| MkDir (epoch : nat)                (* trained_weight_<epoch + 1> *)
| TorchSave (epoch : nat) (what : saved)
| OnnxExport (epoch : nat) (m : net).

(** What the epoch loop raises besides what a batch raises. *)
Inductive run_exn : Type :=
| Inner (e : exn)
| ZeroDivisionError.

Record journal (A Hid : Type) : Type := mkJ {
  surroundings : world A Hid;
  chores : list chore
}.

Arguments mkJ {A Hid} surroundings chores.

(** Lines 120-124: the networks put back into training mode at the start
    of every epoch. *)
Definition retrained : list net :=
  [StateEncoder; OffsetEncoder; TargetEncoder; Lstm; Decoder].

(** Lines 332-338: the order the weights are saved in. *)
Definition pickled : list net :=
  [StateEncoder; TargetEncoder; OffsetEncoder; Lstm; Decoder;
   ShortDiscriminator; LongDiscriminator].

Section Loop.
Context {A Hid : Type} `{Scalar A}.
Variable cfg : Train.setup A Hid.
Variable sched : schedule.
(** What the shuffling loader yields in each epoch. *)
Variable loader : nat -> list (batch A).
(** What tracing the recurrent core for its export leaves in its memory. *)
Variable traced : Hid -> Hid.

Definition note (cs : list chore) (j : journal A Hid) : journal A Hid :=
  mkJ (surroundings j) (chores j ++ cs).

(** The variables of the batch loop that the exports read ([state_input],
    [target_input], [offset_input], [h_in], [h_out], [real_input]) are
    bound once a batch has been trained on. *)
Definition bound_by (epoch : nat) : bool :=
  existsb (fun e => match loader e with [] => false | _ :: _ => true end)
          (seq 0 (S epoch)).

(** Lines 328-367: the checkpoint at the end of an epoch. *)
Definition checkpoint (epoch : nat) (j : journal A Hid)
    : journal A Hid * option run_exn :=
  let j := note ([MkDir epoch]
                 ++ map (fun m => TorchSave epoch (Weights m)) pickled
                 ++ (if save_optimizer sched
                     then [TorchSave epoch (OptimizerState GeneratorOptimizer);
                           TorchSave epoch (OptimizerState DiscriminatorOptimizer)]
                     else [])
                 ++ [SetEval StateEncoder]) j in
  if bound_by epoch then
    let j := note [OnnxExport epoch StateEncoder;
                   SetEval TargetEncoder; OnnxExport epoch TargetEncoder;
                   SetEval OffsetEncoder; OnnxExport epoch OffsetEncoder;
                   SetEval Lstm] j in
    let w := surroundings j in
    let j := mkJ (mkW (traced (hidden w)) (rng w) (log w)) (chores j) in
    (note [OnnxExport epoch Lstm;
           SetEval Decoder; OnnxExport epoch Decoder;
           SetEval ShortDiscriminator; OnnxExport epoch ShortDiscriminator;
           SetEval LongDiscriminator; OnnxExport epoch LongDiscriminator] j,
     None)
  else (j, Some (Inner NameError)).

(** Line 329: [(epoch + 1) % config['log']['weight_save_interval'] == 0]
    for an interval that is not zero.  Python's [%] on integers takes the
    sign of the divisor, as [Z.modulo] does. *)
Definition due (epoch : nat) : bool :=
  ((Z.of_nat epoch + 1) mod weight_save_interval sched =? 0)%Z.

(** Lines 118-367: one epoch. *)
Definition epoch_body (epoch : nat) (j : journal A Hid)
    : journal A Hid * option run_exn :=
  let j := note (map SetTrain retrained ++ [Batches epoch]) j in
  match Train.train_epoch cfg (loader epoch) (surroundings j) with
  | (w, Raise e) => (mkJ w (chores j), Some (Inner e))
  | (w, Ok _) =>
      let j := mkJ w (chores j) in
      if (weight_save_interval sched =? 0)%Z
      then (j, Some ZeroDivisionError)
      else if due epoch then checkpoint epoch j else (j, None)
  end.

(** [for epoch in range(first, first + n)] *)
Fixpoint epochs_from (first n : nat) (j : journal A Hid)
    : journal A Hid * option run_exn :=
  match n with
  | 0 => (j, None)
  | S n' =>
      match epoch_body first j with
      | (j', None) => epochs_from (S first) n' j'
      | stopped => stopped
      end
  end.

(** [train()] past its set-up: [range(epochs)] is empty when [epochs] is
    not positive. *)
Definition train (w : world A Hid) : journal A Hid * option run_exn :=
  epochs_from 0 (Z.to_nat (epochs sched)) (mkJ w []).

End Loop.
End TrainLoop.

(** Whether [m] is in training mode after the chores [cs], from the mode
    [init] it was in before them. *)
Definition mode_after (init : bool) (m : net) (cs : list TrainLoop.chore) : bool :=
  fold_left (fun cur c => match c with
                          | TrainLoop.SetTrain m' => if net_eqb m m' then true else cur
                          | TrainLoop.SetEval m' => if net_eqb m m' then false else cur
                          | _ => cur
                          end) cs init.

(** The epochs among the first [n] that end with a checkpoint. *)
Definition checkpoint_epochs (sched : TrainLoop.schedule) (n : nat) : list nat :=
  filter (TrainLoop.due sched) (seq 0 n).

Definition made_dirs (cs : list TrainLoop.chore) : list nat :=
  flat_map (fun c => match c with TrainLoop.MkDir e => [e] | _ => [] end) cs.

(** The chores of a checkpoint that completes. *)
Definition checkpoint_chores (save_opt : bool) (e : nat) : list TrainLoop.chore :=
  [TrainLoop.MkDir e]
  ++ map (fun m => TrainLoop.TorchSave e (TrainLoop.Weights m)) TrainLoop.pickled
  ++ (if save_opt
      then [TrainLoop.TorchSave e (TrainLoop.OptimizerState GeneratorOptimizer);
            TrainLoop.TorchSave e (TrainLoop.OptimizerState DiscriminatorOptimizer)]
      else [])
  ++ flat_map (fun m => [TrainLoop.SetEval m; TrainLoop.OnnxExport e m])
              TrainLoop.pickled.

(** The chores of an epoch that completes. *)
Definition epoch_chores (sched : TrainLoop.schedule) (e : nat)
    : list TrainLoop.chore :=
  map TrainLoop.SetTrain TrainLoop.retrained ++ [TrainLoop.Batches e]
  ++ (if TrainLoop.due sched e
      then checkpoint_chores (TrainLoop.save_optimizer sched) e else []).

(** Two worlds that differ in the memory of the recurrent core at most. *)
Definition alike {A Hid} (w1 w2 : world A Hid) : Prop :=
  rng w1 = rng w2 /\ log w1 = log w2.

(** Two journals that differ in the memory of the recurrent core at most. *)
Definition jalike {A Hid} (j1 j2 : TrainLoop.journal A Hid) : Prop :=
  TrainLoop.chores j1 = TrainLoop.chores j2
  /\ alike (TrainLoop.surroundings j1) (TrainLoop.surroundings j2).

(* ===================================================================== *)
(** * Properties *)

(** ** Lists and shapes *)

Lemma shape_eqb_refl s : shape_eqb s s = true.
Proof.
  induction s as [|a s IH]; simpl; [reflexivity|].
  now rewrite Nat.eqb_refl, IH.
Qed.

Lemma shape_eqb_eq s1 s2 : shape_eqb s1 s2 = true <-> s1 = s2.
Proof.
  split.
  - revert s2. induction s1 as [|a s1 IH]; intros [|b s2]; simpl; try discriminate; auto.
    intros E. apply andb_true_iff in E as [E1 E2].
    apply Nat.eqb_eq in E1. f_equal; auto.
  - intros ->. apply shape_eqb_refl.
Qed.

Lemma numel_app s1 s2 : numel (s1 ++ s2) = numel s1 * numel s2.
Proof.
  induction s1 as [|a s1 IH]; simpl; [lia|]. rewrite IH. lia.
Qed.

Lemma numel_cons a s : numel (a :: s) = a * numel s.
Proof. reflexivity. Qed.

Lemma length_block {A} p i (l : list A) :
  (i + 1) * p <= length l -> length (block p i l) = p.
Proof.
  intros Hl. unfold block. rewrite length_firstn, length_skipn. lia.
Qed.

Lemma block_all {A} p (l : list A) : length l = p -> block p 0 l = l.
Proof.
  intros <-. unfold block. simpl. apply firstn_all.
Qed.

Lemma length_flat_map_const {A B} (f : A -> list B) c (l : list A) :
  (forall x, In x l -> length (f x) = c) ->
  length (flat_map f l) = length l * c.
Proof.
  induction l as [|a l IH]; intros Hf; simpl; [reflexivity|].
  rewrite length_app, (Hf a), IH.
  - lia.
  - intros x Hx. apply Hf. now right.
  - now left.
Qed.


Lemma map2_zero_l {A B} (f : A -> B -> B) z (l1 : list A) (l2 : list B) :
  Forall (fun b => f z b = b) l2 ->
  Forall (eq z) l1 ->
  length l2 <= length l1 ->
  map2 f l1 l2 = l2.
Proof.
  revert l2. induction l1 as [|a l1 IH]; intros [|b l2] Hz Hall Hlen;
    simpl in *; try reflexivity; try lia.
  inversion Hall as [|? ? Ha Hall']; subst.
  inversion Hz as [|? ? Hb Hz']; subst.
  rewrite Hb. f_equal. apply IH; auto. lia.
Qed.

Lemma length_map2 {A B C} (f : A -> B -> C) l1 l2 :
  length (map2 f l1 l2) = Nat.min (length l1) (length l2).
Proof.
  revert l2. induction l1 as [|a l1 IH]; intros [|b l2]; simpl; auto.
Qed.

Lemma Forall_flat_map {A B} (P : B -> Prop) (f : A -> list B) l :
  (forall x, In x l -> Forall P (f x)) -> Forall P (flat_map f l).
Proof.
  induction l as [|a l IH]; intros Hf; simpl; [constructor|].
  apply Forall_app. split; [apply Hf; now left|].
  apply IH. intros x Hx. apply Hf. now right.
Qed.

Lemma Forall_firstn {A} (P : A -> Prop) n l : Forall P l -> Forall P (firstn n l).
Proof.
  revert n. induction l as [|a l IH]; intros [|n] Hl; simpl; auto.
  inversion Hl; subst. constructor; auto.
Qed.

Lemma Forall_skipn {A} (P : A -> Prop) n l : Forall P l -> Forall P (skipn n l).
Proof.
  revert n. induction l as [|a l IH]; intros [|n] Hl; simpl; auto.
  inversion Hl; subst. auto.
Qed.

Lemma Forall_block {A} (P : A -> Prop) p i l : Forall P l -> Forall P (block p i l).
Proof. intros Hl. unfold block. now apply Forall_firstn, Forall_skipn. Qed.

(** ** Runs of the monad *)

Section RunLemmas.
Context {A Hid : Type}.
Local Abbreviation M := (M (A:=A) (Hid:=Hid)).

Lemma bind_Ok_inv {X Y} (m : M X) (k : X -> M Y) w w' y :
  bind m k w = (w', Ok y) ->
  exists x w1, m w = (w1, Ok x) /\ k x w1 = (w', Ok y).
Proof.
  unfold bind. destruct (m w) as [w1 [x|e]]; intros E.
  - eauto.
  - discriminate.
Qed.

Lemma lift_Ok_inv {X} (r : res X) (w w' : world A Hid) x :
  lift r w = (w', Ok x) -> r = Ok x /\ w' = w.
Proof. unfold lift. intros E. inversion E. auto. Qed.

Lemma ret_Ok_inv {X} (v : X) (w w' : world A Hid) x :
  ret v w = (w', Ok x) -> x = v /\ w' = w.
Proof. unfold ret. intros E. inversion E. auto. Qed.

Lemma tell_Ok_inv (e : event A) (w w' : world A Hid) x :
  tell e w = (w', Ok x) -> log w' = log w ++ [e].
Proof. unfold tell. intros E. inversion E. auto. Qed.

Lemma assert_Ok_inv c line (w w' : world A Hid) x :
  assert_ c line w = (w', Ok x) -> c = true /\ w' = w.
Proof. unfold assert_. destruct c; intros E; inversion E; auto. Qed.

Lemma raise_Ok_inv {X} e (w w' : world A Hid) (x : X) :
  raise e w = (w', Ok x) -> False.
Proof. unfold raise. intros E. inversion E. Qed.

Lemma guarded_Ok_inv {X} g e (v x : X) :
  guarded g e v = Ok x -> g = true /\ x = v.
Proof. unfold guarded. destruct g; intros E; inversion E; auto. Qed.

Lemma rbind_Ok_inv {X Y} (r : res X) (k : X -> res Y) y :
  rbind r k = Ok y -> exists x, r = Ok x /\ k x = Ok y.
Proof. destruct r as [x|e]; simpl; intros E; [eauto|discriminate]. Qed.

(** *** Loops *)

Lemma for_each_app {S} (body : nat -> S -> M S) ts1 ts2 s w :
  for_each (ts1 ++ ts2) body s w
  = bind (for_each ts1 body s) (for_each ts2 body) w.
Proof.
  revert s w. induction ts1 as [|t ts1 IH]; intros s w; simpl.
  - reflexivity.
  - unfold bind in *.
    destruct (body t s w) as [w1 [s1|e]]; [|reflexivity].
    rewrite IH. reflexivity.
Qed.

Lemma for_range_S {S} (body : nat -> S -> M S) n s w :
  for_range (Datatypes.S n) body s w
  = bind (for_range n body s) (body n) w.
Proof.
  unfold for_range. rewrite seq_S, for_each_app. simpl.
  unfold bind. destruct (for_each (seq 0 n) body s w) as [w1 [s1|e]]; auto.
  destruct (body n s1 w1) as [w2 [s2|e]]; auto.
Qed.

(** A loop that completes has completed every shorter loop. *)
Lemma for_range_prefix {S} (body : nat -> S -> M S) n k s w w' s' :
  k <= n ->
  for_range n body s w = (w', Ok s') ->
  exists w1 s1, for_range k body s w = (w1, Ok s1).
Proof.
  intros Hk. revert w' s'.
  induction Hk as [|n Hk IH]; intros w' s' E; [eauto|].
  rewrite for_range_S in E. apply bind_Ok_inv in E as (s1 & w1 & E1 & _).
  eauto.
Qed.

(** Induction over the iterations of a loop that completes. *)
Lemma for_range_inv {S} (body : nat -> S -> M S)
    (Inv : nat -> S -> world A Hid -> Prop) n s0 w0 :
  Inv 0 s0 w0 ->
  (forall t s w s' w', t < n -> Inv t s w ->
     body t s w = (w', Ok s') -> Inv (Datatypes.S t) s' w') ->
  forall w' s', for_range n body s0 w0 = (w', Ok s') -> Inv n s' w'.
Proof.
  intros H0. induction n as [|n IH]; intros Hstep w' s' E.
  - unfold for_range in E. simpl in E. apply ret_Ok_inv in E as [-> ->]. exact H0.
  - rewrite for_range_S in E. apply bind_Ok_inv in E as (s1 & w1 & E1 & E2).
    apply (Hstep n s1 w1); [lia| |exact E2].
    apply IH; [|exact E1].
    intros t s w s2 w2 Ht. apply Hstep. lia.
Qed.

(** *** Worlds moving along a preorder *)

Section Stable.
Variable R : world A Hid -> world A Hid -> Prop.
Hypothesis R_refl : forall w, R w w.
Hypothesis R_trans : forall a b c, R a b -> R b c -> R a c.

Lemma stable_ret {X} (x : X) : stable R (ret x).
Proof. intros w. apply R_refl. Qed.

Lemma stable_raise {X} e : stable R (raise (X:=X) e).
Proof. intros w. apply R_refl. Qed.

Lemma stable_lift {X} (r : res X) : stable R (lift r).
Proof. intros w. apply R_refl. Qed.

Lemma stable_assert c line : stable R (assert_ c line).
Proof. intros w. unfold assert_. destruct c; apply R_refl. Qed.

Lemma stable_bind_ok {X Y} (m : M X) (k : X -> M Y) :
  stable R m ->
  (forall x w w1, m w = (w1, Ok x) -> stable R (k x)) ->
  stable R (bind m k).
Proof.
  intros Hm Hk w. unfold bind. specialize (Hm w).
  destruct (m w) as [w1 [x|e]] eqn:E; simpl in *; auto.
  eapply R_trans; [exact Hm|]. eapply Hk; eauto.
Qed.

Lemma stable_bind {X Y} (m : M X) (k : X -> M Y) :
  stable R m -> (forall x, stable R (k x)) -> stable R (bind m k).
Proof. intros Hm Hk. apply stable_bind_ok; auto. Qed.

Lemma stable_bind_lift {X Y} (r : res X) (k : X -> M Y) :
  (forall x, r = Ok x -> stable R (k x)) -> stable R (bind (lift r) k).
Proof.
  intros Hk. apply stable_bind_ok; [apply stable_lift|].
  intros x w w1 E. apply lift_Ok_inv in E as [E _]. auto.
Qed.

Lemma stable_for_each {S} (body : nat -> S -> M S) ts :
  (forall t s, In t ts -> stable R (body t s)) ->
  forall s, stable R (for_each ts body s).
Proof.
  induction ts as [|t ts IH]; intros Hb s; simpl.
  - apply stable_ret.
  - apply stable_bind; [apply Hb; now left|].
    intros s1. apply IH. intros t' s' Hin. apply Hb. now right.
Qed.

Lemma stable_for_range {S} (body : nat -> S -> M S) n :
  (forall t s, t < n -> stable R (body t s)) ->
  forall s, stable R (for_range n body s).
Proof.
  intros Hb s. apply stable_for_each. intros t s' Hin.
  apply Hb. apply in_seq in Hin. lia.
Qed.
End Stable.

Lemma grows_refl (P : event A -> Prop) (w : world A Hid) : grows P w w.
Proof. exists []. rewrite app_nil_r. auto. Qed.

Lemma grows_trans (P : event A -> Prop) (a b c : world A Hid) :
  grows P a b -> grows P b c -> grows P a c.
Proof.
  intros (e1 & E1 & F1) (e2 & E2 & F2). exists (e1 ++ e2).
  rewrite E2, E1, app_assoc. split; [reflexivity|]. apply Forall_app; auto.
Qed.

Lemma grows_quietly_refl (P : event A -> Prop) (w : world A Hid) :
  grows_quietly P w w.
Proof. split; [apply grows_refl|reflexivity]. Qed.

Lemma grows_quietly_trans (P : event A -> Prop) (a b c : world A Hid) :
  grows_quietly P a b -> grows_quietly P b c -> grows_quietly P a c.
Proof.
  intros [G1 H1] [G2 H2]. split; [eapply grows_trans; eauto|congruence].
Qed.

Lemma grows_tell (P : event A -> Prop) e :
  P e -> stable (Hid:=Hid) (grows P) (tell e).
Proof. intros He w. exists [e]. simpl. auto. Qed.

Lemma grows_quietly_tell (P : event A -> Prop) e :
  P e -> stable (Hid:=Hid) (grows_quietly P) (tell e).
Proof. intros He w. split; [now apply grows_tell|reflexivity]. Qed.

Lemma grows_weaken (P Q : event A -> Prop) (w w' : world A Hid) :
  (forall e, P e -> Q e) -> grows P w w' -> grows Q w w'.
Proof.
  intros HPQ (evs & E & F). exists evs. split; auto.
  eapply Forall_impl; eauto.
Qed.

End RunLemmas.

(** Unfolding a run that returned normally into the steps it took. *)
Ltac minv1 :=
  match goal with
  | H : bind _ _ _ = (_, Ok _) |- _ =>
      let x := fresh "x" in let w := fresh "w" in
      let H1 := fresh "H" in let H2 := fresh "H" in
      apply bind_Ok_inv in H; destruct H as (x & w & H1 & H2)
  | H : lift _ _ = (_, Ok _) |- _ =>
      apply lift_Ok_inv in H; destruct H as [H ?]; subst
  | H : ret _ _ = (_, Ok _) |- _ =>
      apply ret_Ok_inv in H; destruct H as [? ?]; subst
  | H : tell _ _ = (_, Ok _) |- _ => apply tell_Ok_inv in H
  | H : assert_ _ _ _ = (_, Ok _) |- _ =>
      apply assert_Ok_inv in H; destruct H as [H ?]; subst
  | H : raise _ _ = (_, Ok _) |- _ => apply raise_Ok_inv in H; contradiction
  | H : (let '(_, _) := ?p in _) _ = (_, Ok _) |- _ => destruct p eqn:?
  | H : (if ?c then _ else _) _ = (_, Ok _) |- _ => destruct c eqn:?
  | H : (match ?o with Some _ => _ | None => _ end) _ = (_, Ok _) |- _ =>
      destruct o eqn:?
  end.

Ltac minv := repeat minv1.

(** Walking through a computation to show that it moves the world along a
    preorder, whatever its outcome. *)
Ltac stab Hrefl Htrans :=
  repeat match goal with
  | |- stable _ (ret _) => apply stable_ret; exact Hrefl
  | |- stable _ (raise _) => apply stable_raise; exact Hrefl
  | |- stable _ (lift _) => apply stable_lift; exact Hrefl
  | |- stable _ (assert_ _ _) => apply stable_assert; exact Hrefl
  | |- stable _ (bind (lift _) _) =>
      apply stable_bind_lift; [exact Hrefl|exact Htrans|intros ? ?]
  | |- stable _ (bind _ _) => apply stable_bind; [exact Htrans| |intros ?]
  | |- stable _ (if ?c then _ else _) => destruct c eqn:?
  | |- stable _ (match ?x with Some _ => _ | None => _ end) => destruct x eqn:?
  | |- stable _ (let '(_, _) := ?p in _) => destruct p eqn:?
  | x : (_ * _)%type |- _ => destruct x
  end.

Lemma unsqueeze_1_shape {A} (x y : tensor A) :
  unsqueeze 1 x = Ok y -> nth 1 (shape y) 0 = 1.
Proof.
  unfold unsqueeze. intros E. apply guarded_Ok_inv in E as [G ->].
  apply Nat.leb_le in G. unfold unsqueeze_val. simpl.
  destruct (shape x) as [|a s]; simpl in *; [lia|reflexivity].
Qed.

(** ** The events of the two rollouts *)

Section Emits.
Context {A Hid : Type} `{Scalar A}.

Lemma grows_frame (P : event A -> Prop) k (x : tensor A) :
  P (FrameRead k (nth 1 (shape x) 0)) ->
  stable (Hid:=Hid) (grows P) (Train.frame k x).
Proof.
  intros HP. unfold Train.frame.
  apply stable_bind; [apply grows_trans|now apply grows_tell|].
  intros _. apply stable_lift, grows_refl.
Qed.

Lemma grows_lstm_call (P : event A -> Prop) (cfg : Train.setup A Hid) h :
  P LstmForward -> stable (grows P) (Train.lstm_call cfg h).
Proof.
  intros HP w. unfold Train.lstm_call.
  destruct (lstm_forward _ _ _) as [o hid]. exists [LstmForward]. simpl. auto.
Qed.

(** One timestep of the training rollout logs only what
    [train_may_emit] lists. *)
Lemma train_body_emits (cfg : Train.setup A Hid) b lo tg tn t s :
  stable (grows (train_may_emit cfg b t)) (Train.body cfg b lo tg tn t s).
Proof.
  unfold Train.body, Train.timestep, Train.appends.
  stab (@grows_refl A Hid (train_may_emit cfg b t))
       (@grows_trans A Hid (train_may_emit cfg b t)).
  all: try apply grows_frame.
  all: try (apply grows_lstm_call; now left).
  all: try (apply Nat.eqb_eq in Heqb0; subst t; right; left; split; [reflexivity|];
            eexists; split; [|reflexivity]; simpl; tauto).
  all: right; right; eexists; split; [|reflexivity]; simpl; tauto.
Qed.

Lemma train_rollout_emits (cfg : Train.setup A Hid) b lo tg tn :
  stable (grows (fun e => exists t, t < Train.training_frames cfg
                                    /\ train_may_emit cfg b t e))
         (Train.rollout cfg b lo tg tn).
Proof.
  unfold Train.rollout.
  apply stable_for_range; [apply grows_refl|apply grows_trans|].
  intros t s Ht w. eapply grows_weaken; [|apply train_body_emits].
  intros e He. eauto.
Qed.

End Emits.

Section TestEmits.
Context {A Hid : Type} `{Scalar A}.
Variable R : world A Hid -> world A Hid -> Prop.
Variable P : event A -> Prop.
Hypothesis R_refl : forall w, R w w.
Hypothesis R_trans : forall a b c, R a b -> R b c -> R a c.
Hypothesis R_tell : forall e, P e -> stable R (tell e).

Lemma stable_test_frame k (x : tensor A) :
  P (FrameRead k (nth 1 (shape x) 0)) -> stable R (Test.frame k x).
Proof.
  intros HP. unfold Test.frame.
  apply stable_bind; [exact R_trans|now apply R_tell|].
  intros _. now apply stable_lift.
Qed.

Lemma stable_frame_of i k (x : tensor A) :
  P (FrameRead k (nth 1 (shape x) 0)) -> stable R (Test.frame_of i k x).
Proof.
  intros HP. unfold Test.frame_of.
  apply stable_bind; [exact R_trans|now apply R_tell|].
  intros _. now apply stable_lift.
Qed.

Lemma stable_last_frame_of i (x : tensor A) :
  P (FrameRead (nth 1 (shape x) 0 - 1) (nth 1 (shape x) 0)) ->
  stable R (Test.last_frame_of i x).
Proof.
  intros HP. unfold Test.last_frame_of.
  apply stable_bind; [exact R_trans|now apply R_tell|].
  intros _. now apply stable_lift.
Qed.

Lemma stable_apply_net ft {X Y} (f g : X -> Y) x :
  stable R (Test.apply_net ft f g x).
Proof.
  unfold Test.apply_net.
  destruct (ft =? "ONNX")%string; [now apply stable_ret|].
  destruct (ft =? "PKL")%string; [now apply stable_ret|now apply stable_raise].
Qed.

(** One timestep of the inference rollout moves the world along [R] when
    the step of the recurrent core does and [R] admits every event that
    [test_may_emit] lists. *)
Lemma test_body_stable (cfg : Test.profile A Hid) ft i b lo tg t s :
  (forall h, stable R (Test.lstm_step cfg ft h)) ->
  (forall e, test_may_emit cfg i b t e -> P e) ->
  stable R (Test.body cfg ft i b lo tg t s).
Proof.
  intros Hlstm HP. unfold Test.body, Test.fk_call.
  stab R_refl R_trans.
  all: try apply stable_apply_net.
  all: try apply stable_test_frame.
  all: try apply stable_frame_of.
  all: try apply stable_last_frame_of.
  all: try apply Hlstm.
  all: try apply R_tell.
  all: apply HP; unfold test_may_emit.
  all: try (apply Nat.eqb_eq in Heqb0; subst t).
  all: try (right; left; do 2 eexists; split; [reflexivity|];
            split; eapply unsqueeze_1_shape; eassumption).
  all: try (right; right; left; do 3 eexists; reflexivity).
  all: try (right; right; right; left; do 4 eexists; reflexivity).
  all: try (do 4 right; left; split; [reflexivity|];
            eexists; split; [|reflexivity]; simpl; tauto).
  all: try (do 6 right; left; split; reflexivity).
  all: try (do 7 right; split; reflexivity).
  all: do 5 right; left; eexists; split; [|reflexivity]; simpl; tauto.
Qed.

End TestEmits.

Section TestGrows.
Context {A Hid : Type} `{Scalar A}.

Lemma grows_lstm_step (P : event A -> Prop) (cfg : Test.profile A Hid) ft h :
  P LstmForward -> stable (grows P) (Test.lstm_step cfg ft h).
Proof.
  intros HP. unfold Test.lstm_step.
  destruct (ft =? "ONNX")%string.
  - apply stable_bind; [apply grows_trans|now apply grows_tell|].
    intros _. apply stable_ret, grows_refl.
  - destruct (ft =? "PKL")%string.
    + intros w. destruct (lstm_forward _ _ _) as [o hid].
      exists [LstmForward]. simpl. auto.
    + apply stable_raise, grows_refl.
Qed.

(** One timestep of the inference rollout logs only what
    [test_may_emit] lists. *)
Lemma test_body_emits (cfg : Test.profile A Hid) ft i b lo tg t s :
  stable (grows (test_may_emit cfg i b t)) (Test.body cfg ft i b lo tg t s).
Proof.
  apply test_body_stable with (P := test_may_emit cfg i b t).
  - apply grows_refl.
  - apply grows_trans.
  - apply grows_tell.
  - intros h. apply grows_lstm_step. now left.
  - auto.
Qed.

Lemma test_rollout_emits (cfg : Test.profile A Hid) ft i b lo tg s :
  stable (grows (fun e => exists t, t < Test.training_frames cfg
                                    /\ test_may_emit cfg i b t e))
         (for_range (Test.training_frames cfg) (Test.body cfg ft i b lo tg) s).
Proof.
  apply stable_for_range; [apply grows_refl|apply grows_trans|].
  intros t s' Ht w. eapply grows_weaken; [|apply test_body_emits].
  intros e He. eauto.
Qed.

(** With the exported graphs nothing touches the memory of the torch
    recurrent core. *)
Lemma quiet_lstm_step (P : event A -> Prop) (cfg : Test.profile A Hid) h :
  P LstmForward -> stable (grows_quietly P) (Test.lstm_step cfg "ONNX" h).
Proof.
  intros HP. unfold Test.lstm_step. simpl.
  apply stable_bind; [apply grows_quietly_trans|now apply grows_quietly_tell|].
  intros _. apply stable_ret, grows_quietly_refl.
Qed.

Lemma test_body_quiet (cfg : Test.profile A Hid) i b lo tg t s :
  stable (grows_quietly (test_may_emit cfg i b t))
         (Test.body cfg "ONNX" i b lo tg t s).
Proof.
  apply test_body_stable with (P := test_may_emit cfg i b t).
  - apply grows_quietly_refl.
  - apply grows_quietly_trans.
  - apply grows_quietly_tell.
  - intros h. apply quiet_lstm_step. now left.
  - auto.
Qed.

End TestGrows.

(** ** Frame indices (C10) *)

Lemma select1_in_bounds {A} k (x : tensor A) :
  k < nth 1 (shape x) 0 -> select1 k x = Ok (select1_val k x).
Proof.
  intros Hk. unfold select1, select1_guard.
  destruct (shape x) as [|n [|t rest]]; simpl in Hk; try lia.
  apply Nat.ltb_lt in Hk. now rewrite Hk.
Qed.

Section FrameReads.
Context {A Hid : Type} `{Scalar A}.

Lemma train_reads_bounded (cfg : Train.setup A Hid) b e :
  frames_at_least (Train.training_frames cfg + 11) b ->
  (exists t, t < Train.training_frames cfg /\ train_may_emit cfg b t e) ->
  reads_upto (Train.training_frames cfg + 10) e /\ in_bounds e.
Proof.
  intros (Hq & Hv & Hc & Hp & Hg & Hr) (t & Ht & He).
  unfold reads_upto, in_bounds.
  destruct He as [->|[(-> & x & Hx & ->)|(x & Hx & ->)]].
  - split; intros k n E; discriminate.
  - split; intros k n E; inversion E; subst; [lia|].
    simpl in Hx. intuition (subst; lia).
  - split; intros k n E; inversion E; subst; [lia|].
    simpl in Hx. intuition (subst; lia).
Qed.

Lemma test_reads_bounded (cfg : Test.profile A Hid) i b e :
  frames_at_least (Test.training_frames cfg + 9) b ->
  (exists t, t < Test.training_frames cfg /\ test_may_emit cfg i b t e) ->
  (reads_upto (Test.training_frames cfg + 8) e
   \/ e = FrameRead (nth 1 (shape (local_q b)) 0 - 1)
                    (nth 1 (shape (local_q b)) 0))
  /\ in_bounds e.
Proof.
  intros (Hq & Hv & Hc & Hp & Hg & Hr) (t & Ht & He).
  unfold reads_upto, in_bounds.
  destruct He as [->|[(q & r & -> & _)|[(f & q & p & ->)|[(pfx & st & ib & tg & ->)
                 |[(-> & x & Hx & ->)|[(k0 & Hk & ->)|[(-> & ->)|(-> & ->)]]]]]]].
  - split; [left|]; intros k n E; discriminate.
  - split; [left|]; intros k n E; discriminate.
  - split; [left|]; intros k n E; discriminate.
  - split; [left|]; intros k n E; discriminate.
  - split; [left|]; intros k n E; inversion E; subst; [lia|].
    simpl in Hx. intuition (subst; lia).
  - split; [left|]; intros k n E; inversion E; subst;
      simpl in Hk; intuition (subst; lia).
  - split; [left|]; intros k n E; inversion E; subst; lia.
  - split; [right; reflexivity|]. intros k n E; inversion E; subst. lia.
Qed.

End FrameReads.

(** C10, as the code has it.  With at least [training_frames + 11] frames
    in every ground-truth tensor, the training rollout reads frame 10 at
    [t = 0] and frame [t + 11] at every timestep, so never a frame past
    [training_frames + 10], and every read is in bounds.  With at least
    [training_frames + 9] frames, the inference rollout reads frames up to
    [training_frames + 8], and in addition, at [t = 0], the first and the
    last frame of [local_q] for [start.json] and [target.json]; every read
    is in bounds.  A read in bounds does not raise. *)
Theorem frame_reads_stay_in_window
    {A Hid : Type} `{Scalar A}
    (tr : Train.setup A Hid) (b : batch A)
    (te : Test.profile A Hid) (b' : batch A) :
  frames_at_least (Train.training_frames tr + 11) b ->
  frames_at_least (Test.training_frames te + 9) b' ->
  (forall lo tg tn w,
     grows (fun e => (exists t, t < Train.training_frames tr
                                /\ train_may_emit tr b t e)
                     /\ reads_upto (Train.training_frames tr + 10) e
                     /\ in_bounds e)
           w (fst (Train.rollout tr b lo tg tn w)))
  /\ (forall ft i lo tg s w,
        grows (fun e => (exists t, t < Test.training_frames te
                                   /\ test_may_emit te i b' t e)
                        /\ (reads_upto (Test.training_frames te + 8) e
                            \/ e = FrameRead (nth 1 (shape (local_q b')) 0 - 1)
                                             (nth 1 (shape (local_q b')) 0))
                        /\ in_bounds e)
              w (fst (for_range (Test.training_frames te)
                                (Test.body te ft i b' lo tg) s w)))
  /\ (forall k (x : tensor A),
        k < nth 1 (shape x) 0 -> select1 k x = Ok (select1_val k x)).
Proof.
  intros Hb Hb'. split; [|split].
  - intros lo tg tn w. eapply grows_weaken; [|apply train_rollout_emits].
    intros e He. split; [exact He|]. exact (train_reads_bounded Hb He).
  - intros ft i lo tg s w. eapply grows_weaken; [|apply test_rollout_emits].
    intros e He. split; [exact He|]. exact (test_reads_bounded Hb' He).
  - intros k x. apply select1_in_bounds.
Qed.

Lemma frame_reads_stay_in_window_witness :
  exists evs,
    log (fst (Train.rollout (Fixture.train_setup (A:=Z) Fixture.no_residual 3)
                (Fixture.sample_batch 2 14)
                (mkT [2; 8] (Fixture.identity_quats 4))
                (mkT [2; 8] (Fixture.identity_quats 4))
                (full [2; 512] 0%Z) Fixture.w0))
    = log Fixture.w0 ++ evs
    /\ Forall (@in_bounds Z) evs.
Proof.
  assert (Hb : frames_at_least
                 (Train.training_frames
                    (Fixture.train_setup (A:=Z) Fixture.no_residual 3) + 11)
                 (Fixture.sample_batch (A:=Z) 2 14))
    by (vm_compute; repeat apply conj; lia).
  assert (Hb' : frames_at_least
                  (Test.training_frames
                     (Fixture.test_profile (A:=Z) Fixture.no_residual 3 2 []) + 9)
                  (Fixture.sample_batch (A:=Z) 2 12))
    by (vm_compute; repeat apply conj; lia).
  destruct (@frame_reads_stay_in_window _ _ _ _ _ _ _ Hb Hb') as (H1 & _).
  destruct (H1 (mkT [2; 8] (Fixture.identity_quats 4))
               (mkT [2; 8] (Fixture.identity_quats 4))
               (full [2; 512] 0%Z) Fixture.w0) as (evs & El & Hall).
  exists evs. split; [exact El|].
  eapply Forall_impl; [|exact Hall]. intros e (_ & _ & Hi). exact Hi.
Defined.

(** The inference rollout over three frames of a window of thirteen: the
    window completes and its last frame, index 12, has been read, past
    [training_frames + 8 = 11]. *)
Lemma inference_reads_last_frame_of_window :
  let run := Test.window (Fixture.test_profile (A:=Z) Fixture.no_residual 3 2 [])
                         "PKL" 0 (Fixture.sample_batch 2 13) Fixture.w0 in
  (exists s, snd run = Ok s)
  /\ In (FrameRead 12 13) (log (fst run))
  /\ ~ reads_upto (3 + 8) (@FrameRead Z 12 13).
Proof.
  split; [|split].
  - vm_compute. eexists; reflexivity.
  - vm_compute. tauto.
  - intros Hr. specialize (Hr 12 13 eq_refl). lia.
Qed.


(** ** Resetting the recurrent core (C2) *)

Section RunEquations.
Context {A Hid : Type}.

Lemma bind_lift_run {X Y} (r : res X) (k : X -> M (A:=A) (Hid:=Hid) Y) w :
  bind (lift r) k w
  = match r with Ok x => k x w | Raise e => (w, Raise e) end.
Proof. unfold bind, lift. now destruct r. Qed.

Lemma bind_tell_run {Y} (e : event A) (k : unit -> M (A:=A) (Hid:=Hid) Y) w :
  bind (tell e) k w = k tt (mkW (hidden w) (rng w) (log w ++ [e])).
Proof. reflexivity. Qed.

Lemma bind_ret_run {X Y} (x : X) (k : X -> M (A:=A) (Hid:=Hid) Y) w :
  bind (ret x) k w = k x w.
Proof. reflexivity. Qed.

Lemma bind_assoc_run {X Y Z} (m : M (A:=A) (Hid:=Hid) X)
    (f : X -> M Y) (g : Y -> M Z) w :
  bind (bind m f) g w = bind m (fun x => bind (f x) g) w.
Proof.
  unfold bind. destruct (m w) as [w1 [x|e]]; reflexivity.
Qed.
End RunEquations.

Section Reset.
Context {A Hid : Type} `{Scalar A}.

Lemma grows_torch_normal (P : event A -> Prop) (cfg : Train.setup A Hid) size :
  stable (grows P) (Train.torch_normal cfg size).
Proof. intros w. exists []. simpl. rewrite app_nil_r. auto. Qed.

Lemma grows_updates :
  stable (A:=A) (Hid:=Hid) (grows (fun _ => True)) Train.updates.
Proof.
  unfold Train.updates.
  stab (@grows_refl A Hid (fun _ => True)) (@grows_trans A Hid (fun _ => True)).
  all: apply grows_tell; exact I.
Qed.

Lemma grows_any (P : event A -> Prop) (w w' : world A Hid) :
  grows P w w' -> grows (fun _ => True) w w'.
Proof. apply grows_weaken. auto. Qed.

Lemma reset_before_cons n (evs : list (event A)) :
  reset_before_rollout n (InitHidden n :: evs).
Proof.
  intros [|e pre] post E; simpl in E; [discriminate|].
  inversion E; subst. now left.
Qed.

Lemma reset_before_nil n : reset_before_rollout (A:=A) n [].
Proof. intros [|e pre] post E; discriminate. Qed.

Lemma reset_before_read n k m (evs : list (event A)) :
  reset_before_rollout n evs -> reset_before_rollout n (FrameRead k m :: evs).
Proof.
  intros Hr [|e pre] post E; simpl in E; [discriminate|].
  inversion E; subst. right. eapply Hr. reflexivity.
Qed.

(** What follows the reset in [train_batch] only adds to the log. *)
Lemma train_after_reset_grows (cfg : Train.setup A Hid) b lo tg :
  stable (grows (fun _ => True))
    (target_noise <- Train.torch_normal cfg [Train.batch_len b; 256 * 2] ;;
     s <- Train.rollout cfg b lo tg target_noise ;;
     root_pred_stack <- lift (stack1 (Train.root_pred_list s)) ;;
     local_q_pred_stack <- lift (stack1 (Train.local_q_pred_list s)) ;;
     contact_pred_stack <- lift (stack1 (Train.contact_pred_list s)) ;;
     '(pos_preds, pos_rot) <- Train.fk_call cfg local_q_pred_stack root_pred_stack ;;
     pos_next_stack <- lift (stack1 (Train.pos_next_list s)) ;;
     root_p_next_stack <- lift (stack1 (Train.root_p_next_list s)) ;;
     local_q_next_stack <- lift (stack1 (Train.local_q_next_list s)) ;;
     contact_next_stack <- lift (stack1 (Train.contact_next_list s)) ;;
     rot_next_stack <- lift (stack1 (Train.global_q_next_list s)) ;;
     Train.updates).
Proof.
  unfold Train.fk_call.
  stab (@grows_refl A Hid (fun _ => True)) (@grows_trans A Hid (fun _ => True)).
  all: try apply grows_torch_normal.
  all: try apply grows_updates.
  all: try (apply grows_tell; exact I).
  intros w1. eapply grows_any. apply train_rollout_emits.
Qed.

Lemma train_batch_resets (cfg : Train.setup A Hid) b w :
  exists evs,
    log (fst (Train.train_batch cfg b w)) = log w ++ evs
    /\ reset_before_rollout (Train.batch_len b) evs.
Proof.
  unfold Train.train_batch. rewrite bind_lift_run.
  destruct (view2 _ (local_q_offset b)) as [lo|e];
    [|exists []; rewrite app_nil_r; split; [reflexivity|apply reset_before_nil]].
  rewrite bind_lift_run.
  destruct (view2 _ (q_target b)) as [tg|e];
    [|exists []; rewrite app_nil_r; split; [reflexivity|apply reset_before_nil]].
  unfold bind at 1, Train.init_hidden at 1.
  destruct (train_after_reset_grows cfg b lo tg
              (mkW (lstm_init_hidden (Train.nets cfg) (Train.batch_len b))
                   (rng w) (log w ++ [InitHidden (Train.batch_len b)])))
    as (evs & E & _).
  exists (InitHidden (Train.batch_len b) :: evs). split.
  - rewrite E. simpl. now rewrite <- app_assoc.
  - apply reset_before_cons.
Qed.

Lemma train_batch_forgets (cfg : Train.setup A Hid) b h1 h2 r l :
  snd (Train.train_batch cfg b (mkW h1 r l))
  = snd (Train.train_batch cfg b (mkW h2 r l)).
Proof.
  unfold Train.train_batch. rewrite !bind_lift_run.
  destruct (view2 _ (local_q_offset b)) as [lo|e]; [|reflexivity].
  rewrite !bind_lift_run.
  destruct (view2 _ (q_target b)) as [tg|e]; [|reflexivity].
  reflexivity.
Qed.

(** What follows the reset in an inference window only adds to the log. *)
Lemma test_after_reset_grows (cfg : Test.profile A Hid) ft i b lo tg p0 :
  stable (grows (fun _ => True))
    (s <- for_range (Test.training_frames cfg) (Test.body cfg ft i b lo tg)
                    (Test.mkState None [p0] [] [] []) ;;
     tell (SaveGif i) ;;
     ret s).
Proof.
  stab (@grows_refl A Hid (fun _ => True)) (@grows_trans A Hid (fun _ => True)).
  - intros w1. eapply grows_any. apply test_rollout_emits.
  - apply grows_tell. exact I.
Qed.

Lemma test_window_resets (cfg : Test.profile A Hid) i b w :
  exists evs,
    log (fst (Test.window cfg "PKL" i b w)) = log w ++ evs
    /\ reset_before_rollout (Train.batch_len b) evs.
Proof.
  unfold Test.window, Test.frame_of.
  rewrite bind_assoc_run, bind_tell_run, bind_lift_run.
  set (rd := FrameRead (0 + 9) (nth 1 (shape (global_pos b)) 0)).
  destruct (rbind _ _) as [p0|e];
    [|exists [rd]; split;
      [reflexivity|apply reset_before_read, reset_before_nil]].
  rewrite bind_lift_run.
  destruct (view2 _ (local_q_offset b)) as [lo|e];
    [|exists [rd]; split;
      [reflexivity|apply reset_before_read, reset_before_nil]].
  rewrite bind_lift_run.
  destruct (view2 _ (q_target b)) as [tg|e];
    [|exists [rd]; split;
      [reflexivity|apply reset_before_read, reset_before_nil]].
  change (("PKL" =? "PKL")%string) with true. cbv iota.
  unfold bind at 1, Test.init_hidden at 1. cbn [hidden rng log].
  match goal with
  | |- context [(_ <- _ ;; _) ?w1] =>
      destruct (test_after_reset_grows cfg "PKL" i b lo tg p0 w1)
        as (evs & E & _)
  end.
  exists (rd :: InitHidden (Train.batch_len b) :: evs). split.
  - rewrite E. cbn [log]. now rewrite <- !app_assoc.
  - apply reset_before_read, reset_before_cons.
Qed.

Lemma test_window_forgets (cfg : Test.profile A Hid) i b h1 h2 r l :
  snd (Test.window cfg "PKL" i b (mkW h1 r l))
  = snd (Test.window cfg "PKL" i b (mkW h2 r l)).
Proof.
  unfold Test.window, Test.frame_of.
  rewrite !bind_assoc_run, !bind_tell_run, !bind_lift_run.
  destruct (rbind _ _) as [p0|e]; [|reflexivity].
  rewrite !bind_lift_run.
  destruct (view2 _ (local_q_offset b)) as [lo|e]; [|reflexivity].
  rewrite !bind_lift_run.
  destruct (view2 _ (q_target b)) as [tg|e]; [|reflexivity].
  reflexivity.
Qed.

Lemma grows_quietly_weaken (P Q : event A -> Prop) (w w' : world A Hid) :
  (forall e, P e -> Q e) -> grows_quietly P w w' -> grows_quietly Q w w'.
Proof. intros HPQ [G E]. split; [eapply grows_weaken; eauto|exact E]. Qed.

Lemma test_may_emit_no_reset (cfg : Test.profile A Hid) i b t e :
  test_may_emit cfg i b t e -> is_init_hidden e = false.
Proof.
  intros [->|[(q & r & -> & _)|[(f & q & p & ->)|[(pfx & st & ib & tg & ->)
         |[(_ & x & _ & ->)|[(k0 & _ & ->)|[(_ & ->)|(_ & ->)]]]]]]];
    reflexivity.
Qed.

Lemma test_window_onnx_quiet (cfg : Test.profile A Hid) i b :
  stable (grows_quietly (fun e => is_init_hidden e = false))
         (Test.window cfg "ONNX" i b).
Proof.
  unfold Test.window.
  change (("ONNX" =? "PKL")%string) with false. cbv iota.
  set (Q := fun e : event A => is_init_hidden e = false).
  stab (@grows_quietly_refl A Hid Q) (@grows_quietly_trans A Hid Q).
  - apply stable_frame_of with (P := Q);
      [apply grows_quietly_refl|apply grows_quietly_trans
      |apply grows_quietly_tell|reflexivity].
  - apply stable_for_range;
      [apply grows_quietly_refl|apply grows_quietly_trans|].
    intros t s Ht w. eapply grows_quietly_weaken; [|apply test_body_quiet].
    intros e. apply test_may_emit_no_reset.
  - apply grows_quietly_tell. reflexivity.
Qed.

End Reset.

(** C2, as the code has it.  In training, and in inference with the
    pickled weights, [init_hidden(current_batch_size)] is called before the
    recurrent core is first stepped in a window, and nothing of a window's
    outcome depends on the memory the core held on entry.  In inference
    with the exported graphs [init_hidden] is never called: the session is
    handed [h_in] alone, and the memory of the torch module is left as it
    was. *)
Theorem hidden_state_reset_by_file_type
    {A Hid : Type} `{Scalar A}
    (tr : Train.setup A Hid) (te : Test.profile A Hid) (b : batch A) (i : nat) :
  (forall w, exists evs,
     log (fst (Train.train_batch tr b w)) = log w ++ evs
     /\ reset_before_rollout (Train.batch_len b) evs)
  /\ (forall h1 h2 r l,
        snd (Train.train_batch tr b (mkW h1 r l))
        = snd (Train.train_batch tr b (mkW h2 r l)))
  /\ (forall w, exists evs,
        log (fst (Test.window te "PKL" i b w)) = log w ++ evs
        /\ reset_before_rollout (Train.batch_len b) evs)
  /\ (forall h1 h2 r l,
        snd (Test.window te "PKL" i b (mkW h1 r l))
        = snd (Test.window te "PKL" i b (mkW h2 r l)))
  /\ (forall w,
        grows_quietly (fun e => is_init_hidden e = false)
                      w (fst (Test.window te "ONNX" i b w))).
Proof.
  split; [apply train_batch_resets|].
  split; [apply train_batch_forgets|].
  split; [apply test_window_resets|].
  split; [apply test_window_forgets|].
  apply test_window_onnx_quiet.
Qed.

(** C2 as stated fails: with the exported graphs a window of three frames
    is rolled out and the recurrent core is stepped without a reset before
    it. *)
Lemma onnx_window_not_reset :
  let run := Test.window (Fixture.test_profile (A:=Z) Fixture.no_residual 3 2 [])
                         "ONNX" 0 (Fixture.sample_batch 2 12) Fixture.w0 in
  (exists s, snd run = Ok s /\ length (Test.snapshots s) = 3)
  /\ ~ reset_before_rollout 2 (log (fst run)).
Proof.
  split.
  - vm_compute. eexists. split; reflexivity.
  - intros Hr.
    set (L := log (fst (Test.window
                          (Fixture.test_profile (A:=Z) Fixture.no_residual 3 2 [])
                          "ONNX" 0 (Fixture.sample_batch 2 12) Fixture.w0))) in Hr.
    specialize (Hr (firstn 5 L) (skipn 6 L)).
    assert (E : L = firstn 5 L ++ LstmForward :: skipn 6 L)
      by (vm_compute; reflexivity).
    specialize (Hr E). vm_compute in Hr. intuition discriminate.
Qed.

(** ** Well-formed tensors *)

Section WellFormed.
Context {A : Type} `{Scalar A}.


Lemma numel_firstn_skipn n s :
  numel s = numel (firstn n s) * numel (skipn n s).
Proof. rewrite <- numel_app, firstn_skipn. reflexivity. Qed.

Lemma numel_filter_ones s :
  numel (filter (fun d => negb (d =? 1)) s) = numel s.
Proof.
  induction s as [|a s IH]; simpl; [reflexivity|].
  destruct (Nat.eqb_spec a 1) as [->|Ha]; simpl; rewrite IH; lia.
Qed.

Lemma wf_squeeze (x : tensor A) : wf x -> wf (squeeze x).
Proof. unfold wf, squeeze. simpl. now rewrite numel_filter_ones. Qed.

Lemma wf_index0_val i (x : tensor A) :
  wf x -> i < hd 0 (shape x) -> wf (index0_val i x).
Proof.
  unfold wf, index0_val. simpl. intros Hx Hi.
  destruct (shape x) as [|d rest]; simpl in *; [lia|].
  apply length_block. rewrite Hx. apply Nat.mul_le_mono_r. lia.
Qed.

Lemma wf_select1_val k (x : tensor A) :
  wf x -> select1_guard k x = true -> wf (select1_val k x).
Proof.
  unfold wf, select1_guard, select1_val. intros Hx G.
  destruct (shape x) as [|n [|t rest]]; try discriminate.
  apply Nat.ltb_lt in G. simpl in *.
  rewrite length_flat_map_const with (c := numel rest).
  - now rewrite length_seq.
  - intros i Hi. apply in_seq in Hi. apply length_block. rewrite Hx.
    assert (Hb : i * t + k + 1 <= n * t) by nia.
    apply (Nat.mul_le_mono_r _ _ (numel rest)) in Hb. lia.
Qed.



Lemma bcast_numel (a b : tensor A) :
  bcast_guard a b = true ->
  numel (shape a) = numel (shape b)
  /\ (shape (bcast_val sadd a b) = shape a \/ shape (bcast_val sadd a b) = shape b).
Proof.
  unfold bcast_guard, bcast_val. intros G. cbn [shape].
  destruct (shape_eqb (1 :: shape a) (shape b)) eqn:E1.
  - apply shape_eqb_eq in E1. split; [|now right].
    rewrite <- E1, numel_cons. lia.
  - rewrite orb_false_r in G. apply orb_true_iff in G as [G|G];
      apply shape_eqb_eq in G.
    + split; [now rewrite G|now left].
    + split; [rewrite G; simpl; lia|now left].
Qed.

Lemma wf_bcast_val (f : A -> A -> A) (a b : tensor A) :
  wf a -> wf b -> bcast_guard a b = true -> wf (bcast_val f a b).
Proof.
  unfold wf. intros Ha Hb G.
  destruct (bcast_numel a b G) as [N _].
  unfold bcast_guard, bcast_val in *. cbn [shape data].
  rewrite length_map2, Ha, Hb.
  destruct (shape_eqb (1 :: shape a) (shape b)); lia.
Qed.

Lemma wf_slice2_val lo hi (x : tensor A) :
  wf x -> 3 <= length (shape x) -> wf (slice2_val lo hi x).
Proof.
  unfold wf, slice2_val. intros Hx Hr. cbn [shape data].
  set (d := nth 2 (shape x) 0).
  set (inner := numel (skipn 3 (shape x))).
  set (lo' := Nat.min lo d).
  set (hi' := Nat.max lo' (match hi with Some h => Nat.min h d | None => d end)).
  assert (Hhi : hi' <= d) by (unfold hi', lo'; destruct hi; lia).
  assert (Hlo : lo' <= hi') by (unfold hi'; lia).
  assert (Hn : numel (shape x) = numel (firstn 2 (shape x)) * (d * inner)).
  { rewrite (numel_firstn_skipn 2 (shape x)) at 1. f_equal.
    unfold d, inner.
    destruct (shape x) as [|a [|b [|c rest]]]; simpl in Hr; try lia.
    reflexivity. }
  rewrite numel_app, numel_cons.
  rewrite length_flat_map_const with (c := (hi' - lo') * inner).
  - rewrite length_seq. lia.
  - intros r Hin. apply in_seq in Hin.
    rewrite length_firstn, length_skipn, length_block.
    + assert ((hi' - lo') * inner <= d * inner - lo' * inner)
        by (rewrite <- Nat.mul_sub_distr_r; apply Nat.mul_le_mono_r; lia).
      lia.
    + rewrite Hx, Hn. apply Nat.mul_le_mono_r. lia.
Qed.

End WellFormed.

(** ** What a timestep that returned has done *)

Section StepInversion.
Context {A Hid : Type} `{Scalar A}.

Lemma frame_Ok_inv k (x : tensor A) (w w' : world A Hid) y :
  Train.frame k x w = (w', Ok y) ->
  select1 k x = Ok y
  /\ log w' = log w ++ [FrameRead k (nth 1 (shape x) 0)].
Proof.
  unfold Train.frame. rewrite bind_tell_run. unfold lift.
  intros E. inversion E. auto.
Qed.

Lemma frame_of_Ok_inv i k (x : tensor A) (w w' : world A Hid) y :
  Test.frame_of i k x w = (w', Ok y) ->
  rbind (index0 i x) (index0 k) = Ok y
  /\ log w' = log w ++ [FrameRead k (nth 1 (shape x) 0)].
Proof.
  unfold Test.frame_of. rewrite bind_tell_run. unfold lift.
  intros E. inversion E. auto.
Qed.

Lemma last_frame_of_Ok_inv i (x : tensor A) (w w' : world A Hid) y :
  Test.last_frame_of i x w = (w', Ok y) ->
  rbind (index0 i x) index_last = Ok y
  /\ log w' = log w
              ++ [FrameRead (nth 1 (shape x) 0 - 1) (nth 1 (shape x) 0)].
Proof.
  unfold Test.last_frame_of. rewrite bind_tell_run. unfold lift.
  intros E. inversion E. auto.
Qed.

Lemma apply_net_Ok_inv ft {X Y} (f g : X -> Y) x (w w' : world A Hid) y :
  Test.apply_net ft f g x w = (w', Ok y) ->
  w' = w /\ (y = f x \/ y = g x).
Proof.
  unfold Test.apply_net.
  destruct (ft =? "ONNX")%string; [intros E; inversion E; auto|].
  destruct (ft =? "PKL")%string; intros E; inversion E; auto.
Qed.

Lemma lstm_step_Ok_inv (cfg : Test.profile A Hid) ft h w w' y :
  Test.lstm_step cfg ft h w = (w', Ok y) ->
  log w' = log w ++ [LstmForward].
Proof.
  unfold Test.lstm_step.
  destruct (ft =? "ONNX")%string.
  - rewrite bind_tell_run. intros E. inversion E. auto.
  - destruct (ft =? "PKL")%string.
    + destruct (lstm_forward _ _ _) as [o hid]. intros E. inversion E. auto.
    + intros E. inversion E.
Qed.

Lemma lstm_call_Ok_inv (cfg : Train.setup A Hid) h w w' y :
  Train.lstm_call cfg h w = (w', Ok y) ->
  log w' = log w ++ [LstmForward].
Proof.
  unfold Train.lstm_call.
  destruct (lstm_forward _ _ _) as [o hid]. intros E. inversion E. auto.
Qed.

Lemma test_fk_call_Ok_inv (cfg : Test.profile A Hid) q r w w' y :
  Test.fk_call cfg q r w = (w', Ok y) ->
  y = Test.forward_kinematics_with_rotation cfg q r
  /\ log w' = log w ++ [ForwardKinematics q r].
Proof.
  unfold Test.fk_call. rewrite bind_tell_run. unfold ret.
  intros E. inversion E. auto.
Qed.

Lemma train_fk_call_Ok_inv (cfg : Train.setup A Hid) q r w w' y :
  Train.fk_call cfg q r w = (w', Ok y) ->
  y = Train.forward_kinematics_with_rotation cfg q r
  /\ log w' = log w ++ [ForwardKinematics q r].
Proof.
  unfold Train.fk_call. rewrite bind_tell_run. unfold ret.
  intros E. inversion E. auto.
Qed.

Lemma drop_lead_settled (x y : tensor A) :
  Train.drop_lead x = Ok y -> settled x y.
Proof.
  unfold Train.drop_lead, settled. intros E.
  apply rbind_Ok_inv in E as (n & _ & E).
  destruct (n =? 1); [now left|]. inversion E. now right.
Qed.
End StepInversion.

Ltac tinv1 :=
  match goal with
  | H : Train.frame _ _ _ = (_, Ok _) |- _ =>
      apply frame_Ok_inv in H; destruct H as [H ?]
  | H : Test.frame _ _ _ = (_, Ok _) |- _ =>
      apply frame_Ok_inv in H; destruct H as [H ?]
  | H : Test.frame_of _ _ _ _ = (_, Ok _) |- _ =>
      apply frame_of_Ok_inv in H; destruct H as [H ?]
  | H : Test.last_frame_of _ _ _ = (_, Ok _) |- _ =>
      apply last_frame_of_Ok_inv in H; destruct H as [H ?]
  | H : Test.apply_net _ _ _ _ _ = (_, Ok _) |- _ =>
      apply apply_net_Ok_inv in H; destruct H as [? H]; subst
  | H : Test.lstm_step _ _ _ _ = (_, Ok _) |- _ =>
      apply lstm_step_Ok_inv in H
  | H : Train.lstm_call _ _ _ = (_, Ok _) |- _ =>
      apply lstm_call_Ok_inv in H
  | H : Test.fk_call _ _ _ _ = (_, Ok _) |- _ =>
      apply test_fk_call_Ok_inv in H; destruct H as [H ?]
  | H : Train.fk_call _ _ _ _ = (_, Ok _) |- _ =>
      apply train_fk_call_Ok_inv in H; destruct H as [H ?]
  | H : (_, _) = (_, _) |- _ => inversion H; subst; clear H
  | _ => minv1
  end.

Ltac tinv := repeat tinv1.

Ltac chain_logs :=
  repeat match goal with
         | E : log ?a = _ |- context [log ?a] => rewrite E; clear E
         end;
  rewrite <- ?app_assoc; cbn [app].

Ltac proj_locals :=
  cbn [Train.env Train.snapshots Train.root_pred_list
       Train.local_q_pred_list Train.contact_pred_list
       Test.env Test.snapshots Test.pose_stack Test.img_pred Test.img_gt
       Test.vars Test.pos_pred Test.in_between_pose Test.in_between_true
       Test.stack_after
       root_p_t root_v_t local_q_t contact_t state_input h_pred
       local_q_pred local_q_pred_ root_v_pred root_pred contact_pred] in *.

Ltac split_all := repeat match goal with |- _ /\ _ => split end.

Ltac step_facts :=
  match goal with
  | |- _ = _ => reflexivity || eassumption
  | |- _ = 0 -> _ =>
      intros ?;
      (congruence
       || (unfold teacher_forced; proj_locals; split_all; eauto))
  | |- _ <> 0 -> _ =>
      intros ?;
      (congruence
       || (eexists; split; [eassumption|];
           unfold autoregressive, contact_as_is, contact_first; proj_locals;
           split_all; solve [reflexivity | eassumption]))
  | |- decoded_by _ _ =>
      unfold decoded_by; proj_locals; eexists;
      match goal with E : _ = (_, _) |- _ => rewrite E end; reflexivity
  | |- residual_applied _ _ =>
      unfold residual_applied; proj_locals; do 2 eexists; split_all;
      try eassumption
  | |- normalised _ =>
      unfold normalised; proj_locals; do 3 eexists; split_all;
      try eassumption
  end.

Section BodyInversion.
Context {A Hid : Type} `{Scalar A}.

Lemma train_body_inv (cfg : Train.setup A Hid) b lo tg tn t s w w' s' :
  Train.body cfg b lo tg tn t s w = (w', Ok s') ->
  exists l, train_step cfg b t s s' l.
Proof.
  unfold Train.body, Train.timestep, Train.appends. intros Hb.
  tinv.
  all: try (apply Nat.eqb_eq in Heqb0; subst t).
  all: try (apply Nat.eqb_neq in Heqb0).
  all: eexists; unfold train_step; split; [reflexivity|]; proj_locals.
  all: split_all.
  all: try step_facts.
  all: try (apply drop_lead_settled; assumption).
Qed.

Lemma pop0_single (st : list (tensor A)) p rest :
  Test.pop0 st = Ok (p, rest) -> (length rest =? 0) = true -> st = [p] /\ rest = [].
Proof.
  destruct st as [|q st']; simpl; intros E L; [discriminate|].
  inversion E; subst. destruct rest; [auto|discriminate].
Qed.

Lemma test_body_inv (cfg : Test.profile A Hid) ft i b lo tg t s w w' s' :
  Test.body cfg ft i b lo tg t s w = (w', Ok s') ->
  exists sh,
    test_step cfg b t s s' sh
    /\ exists evs,
         log w' = log w ++ evs
         /\ length (filter is_fk evs) = 1
         /\ length (filter is_lstm_forward evs) = 1
         /\ exists st tgt,
              In (PlotPose "pred_" t st (Test.in_between_pose sh) tgt) evs.
Proof.
  unfold Test.body. intros Hb.
  tinv.
  all: try (apply Nat.eqb_eq in Heqb0; subst t).
  all: try (apply Nat.eqb_neq in Heqb0).
  all: match goal with
       | P : Test.pop0 _ = Ok _, L : (length _ =? 0) = true |- _ =>
           destruct (pop0_single _ P L) as [PS ?]; subst
       end.
  all: match goal with
       | |- exists sh, test_step _ _ _ _ (Test.mkState _ _ _ _ (_ ++ [?SH])) sh /\ _ =>
           exists SH
       end.
  all: split; [unfold test_step; cbv zeta; proj_locals; split_all|].
  all: try step_facts.
  all: try (now right).
  all: try match goal with
       | D : (_, _) = _ \/ (_, _) = _ |- decoded_by _ _ \/ decoded_by _ _ =>
           destruct D as [D|D]; [left|right];
           unfold decoded_by; proj_locals; eexists; rewrite <- D; reflexivity
       end.
  all: try (eexists; split; [eassumption|reflexivity]).
  all: chain_logs; eexists; split; [reflexivity|].
  all: split; [reflexivity|]; split; [reflexivity|].
  all: do 2 eexists; proj_locals; cbn [In].
  all: repeat (first [left; reflexivity | right]).
Qed.
End BodyInversion.

(** ** Which exceptions a computation raises *)

Section Raises.
Context {A Hid : Type}.
Local Abbreviation M := (M (A:=A) (Hid:=Hid)).
Variable P : exn -> Prop.

Lemma raises_ret {X} (x : X) : raises_only P (ret (A:=A) (Hid:=Hid) x).
Proof. intros w e E. discriminate. Qed.

Lemma raises_raise {X} e : P e -> raises_only P (raise (A:=A) (Hid:=Hid) (X:=X) e).
Proof. intros He w e' E. inversion E. now subst. Qed.

Lemma raises_tell (ev : event A) : raises_only P (tell (Hid:=Hid) ev).
Proof. intros w e E. discriminate. Qed.

Lemma raises_lift {X} (r : res X) :
  (forall e, r = Raise e -> P e) -> raises_only P (lift (A:=A) (Hid:=Hid) r).
Proof. intros Hr w e E. apply Hr. exact E. Qed.

Lemma raises_assert c line :
  (c = false -> P (AssertionError line)) ->
  raises_only P (assert_ (A:=A) (Hid:=Hid) c line).
Proof.
  intros Hc w e. unfold assert_. destruct c; intros E; inversion E.
  subst. auto.
Qed.

Lemma raises_bind_ok {X Y} (m : M X) (k : X -> M Y) :
  raises_only P m ->
  (forall x w w1, m w = (w1, Ok x) -> raises_only P (k x)) ->
  raises_only P (bind m k).
Proof.
  intros Hm Hk w e. unfold bind. specialize (Hm w).
  destruct (m w) as [w1 [x|e1]] eqn:E; simpl in *.
  - intros E2. eapply Hk; eauto.
  - intros E2. inversion E2; subst. auto.
Qed.

Lemma raises_bind {X Y} (m : M X) (k : X -> M Y) :
  raises_only P m -> (forall x, raises_only P (k x)) -> raises_only P (bind m k).
Proof. intros Hm Hk. apply raises_bind_ok; auto. Qed.

Lemma raises_bind_lift {X Y} (r : res X) (k : X -> M Y) :
  (forall e, r = Raise e -> P e) ->
  (forall x, r = Ok x -> raises_only P (k x)) ->
  raises_only P (bind (lift r) k).
Proof.
  intros Hr Hk. apply raises_bind_ok; [now apply raises_lift|].
  intros x w w1 E. apply lift_Ok_inv in E as [E _]. auto.
Qed.
End Raises.

(** The tensor library raises its own exceptions only. *)
Ltac lib_error :=
  unfold library_error;
  repeat match goal with
         | |- forall _, _ => intro
         | E : Raise _ = Raise _ |- _ => inversion E; subst; clear E
         | E : Ok _ = Raise _ |- _ => discriminate E
         | E : guarded ?g _ _ = Raise _ |- _ =>
             unfold guarded in E; destruct g
         | E : rbind ?r _ = Raise _ |- _ =>
             unfold rbind in E; destruct r eqn:?
         | E : (if ?c then _ else _) = Raise _ |- _ => destruct c
         | E : match ?x with _ => _ end = Raise _ |- _ => destruct x eqn:?
         end;
  auto.

Section LibErrors.
Context {A : Type} `{Scalar A}.

Lemma tsize_error d (x : tensor A) e : tsize d x = Raise e -> library_error e.
Proof. unfold tsize. lib_error. Qed.
Lemma index0_error i (x : tensor A) e : index0 i x = Raise e -> library_error e.
Proof. unfold index0. lib_error. Qed.
Lemma index_last_error (x : tensor A) e : index_last x = Raise e -> library_error e.
Proof. unfold index_last. lib_error. Qed.
Lemma select1_error k (x : tensor A) e : select1 k x = Raise e -> library_error e.
Proof. unfold select1. lib_error. Qed.
Lemma view2_error n (x : tensor A) e : view2 n x = Raise e -> library_error e.
Proof. unfold view2. lib_error. Qed.
Lemma view_quat_error (x : tensor A) e : view_quat x = Raise e -> library_error e.
Proof. unfold view_quat. lib_error. Qed.
Lemma cat_error d (xs : list (tensor A)) e : cat d xs = Raise e -> library_error e.
Proof. unfold cat. lib_error. Qed.
Lemma cat_last_error (xs : list (tensor A)) e : cat_last xs = Raise e -> library_error e.
Proof. unfold cat_last. intros E. destruct xs; [lib_error|]. eapply cat_error; eauto. Qed.
Lemma bcast_error f (a b : tensor A) e : bcast f a b = Raise e -> library_error e.
Proof. unfold bcast. lib_error. Qed.
Lemma unsqueeze_error d (x : tensor A) e : unsqueeze d x = Raise e -> library_error e.
Proof. unfold unsqueeze. lib_error. Qed.
Lemma slice2_error lo hi (x : tensor A) e : slice2 lo hi x = Raise e -> library_error e.
Proof. unfold slice2. lib_error. Qed.
Lemma norm_last_error (x : tensor A) e : norm_last x = Raise e -> library_error e.
Proof. unfold norm_last. lib_error. Qed.
Lemma div_last_error (x n : tensor A) e : div_last x n = Raise e -> library_error e.
Proof. unfold div_last. lib_error. Qed.
Lemma index2_error i k (x : tensor A) e :
  rbind (index0 i x) (index0 k) = Raise e -> library_error e.
Proof.
  intros E. destruct (index0 i x) eqn:E1; simpl in E.
  - eapply index0_error; eauto.
  - inversion E; subst. eapply index0_error; eauto.
Qed.
Lemma index_last2_error i (x : tensor A) e :
  rbind (index0 i x) index_last = Raise e -> library_error e.
Proof.
  intros E. destruct (index0 i x) eqn:E1; simpl in E.
  - eapply index_last_error; eauto.
  - inversion E; subst. eapply index0_error; eauto.
Qed.
End LibErrors.

Ltac rais :=
  repeat match goal with
  | |- raises_only _ (ret _) => apply raises_ret
  | |- raises_only _ (raise _) => apply raises_raise
  | |- raises_only _ (tell _) => apply raises_tell
  | |- raises_only _ (lift _) => apply raises_lift
  | |- raises_only _ (assert_ _ _) => apply raises_assert
  | |- raises_only _ (bind (lift _) _) => apply raises_bind_lift; [|intros ? ?]
  | |- raises_only _ (bind _ _) => apply raises_bind; [|intros ?]
  | |- raises_only _ (if ?c then _ else _) => destruct c eqn:?
  | |- raises_only _ (match ?x with Some _ => _ | None => _ end) => destruct x eqn:?
  | |- raises_only _ (let '(_, _) := ?p in _) => destruct p eqn:?
  | x : (_ * _)%type |- _ => destruct x
  end.

Section Never280.
Context {A Hid : Type} `{Scalar A}.

Lemma library_error_not_line n e : library_error e -> not_line n e.
Proof. intros [-> | ->]; discriminate. Qed.

Lemma raises_lstm_step (cfg : Test.profile A Hid) ft h n :
  raises_only (not_line n) (Test.lstm_step cfg ft h).
Proof.
  unfold Test.lstm_step.
  destruct (ft =? "ONNX")%string.
  - apply raises_bind; [apply raises_tell|intros _; apply raises_ret].
  - destruct (ft =? "PKL")%string.
    + intros w e. destruct (lstm_forward _ _ _). discriminate.
    + apply raises_raise. discriminate.
Qed.

(** From a buffer that holds one pose, a timestep never fails the
    assertion of line 280. *)
Lemma test_body_never_280 (cfg : Test.profile A Hid) ft i b lo tg t s :
  length (Test.pose_stack s) = 1 ->
  raises_only (not_line 280) (Test.body cfg ft i b lo tg t s).
Proof.
  intros Hs.
  unfold Test.body, Test.frame, Test.frame_of, Test.last_frame_of,
    Test.apply_net, Test.fk_call.
  rais.
  all: try apply raises_lstm_step.
  all: try (unfold not_line; discriminate).
  all: try (intros e E; apply library_error_not_line; revert E;
            first [ apply tsize_error | apply index0_error | apply select1_error
                  | apply view2_error | apply view_quat_error | apply cat_error
                  | apply cat_last_error | apply bcast_error
                  | apply unsqueeze_error | apply slice2_error
                  | apply norm_last_error | apply div_last_error
                  | apply index2_error | apply index_last2_error ]).
  all: try (intros e E; destruct (Test.pose_stack s) as [|p [|q r]];
            simpl in *; discriminate).
  all: intros L;
    match goal with
    | P : Test.pop0 _ = Ok _ |- _ =>
        destruct (Test.pose_stack s) as [|p [|q r]]; simpl in *;
        try discriminate; inversion P; subst; discriminate L
    end.
Qed.

(** However far the rollout of a window gets, it does not fail the
    assertion of line 280, and while it runs the buffer holds one pose. *)
Lemma test_loop_never_280 (cfg : Test.profile A Hid) ft i b lo tg n s w :
  length (Test.pose_stack s) = 1 ->
  match for_range n (Test.body cfg ft i b lo tg) s w with
  | (_, Ok s') => length (Test.pose_stack s') = 1
  | (_, Raise e) => not_line 280 e
  end.
Proof.
  intros Hs. induction n as [|n IH].
  - exact Hs.
  - rewrite for_range_S. unfold bind.
    destruct (for_range n _ s w) as [w1 [s1|e]]; [|exact IH].
    pose proof (test_body_never_280 cfg ft i b lo tg n s1 IH w1) as Hb.
    destruct (Test.body cfg ft i b lo tg n s1 w1) as [w2 [s2|e]] eqn:E.
    + apply test_body_inv in E as (sh & St & _).
      destruct St as (_ & _ & _ & _ & _ & _ & _ & _ & _ & (p & _ & ->) & _).
      reflexivity.
    + apply Hb. reflexivity.
Qed.
End Never280.

(** ** What a rollout that returned has done *)

Lemma last_snoc {X} (l : list X) x d : last (l ++ [x]) d = x.
Proof. apply last_last. Qed.

Lemma last_map_nth {X Y} (f : X -> Y) (l : list X) d n :
  length l = S n -> exists x, nth_error l n = Some x /\ last (map f l) d = f x.
Proof.
  revert n. induction l as [|a l IH]; intros n Hl; [discriminate|].
  destruct l as [|b l'].
  - simpl in Hl. assert (n = 0) by lia. subst. exists a. auto.
  - destruct n as [|n]; [simpl in Hl; lia|].
    destruct (IH n) as (x & Hx & Hl'); [simpl in *; lia|].
    exists x. split; [exact Hx|]. exact Hl'.
Qed.

Section Loops.
Context {A Hid : Type} `{Scalar A}.

Lemma dataflow_snoc offset (cis : locals A -> tensor A -> Prop) b snaps l :
  dataflow offset cis b snaps ->
  cat_last [local_q_t l; root_v_t l; contact_t l] = Ok (state_input l) ->
  (length snaps = 0 -> teacher_forced offset b l) ->
  (length snaps <> 0 ->
     exists e, last (map Some snaps) None = Some e /\ autoregressive cis e l) ->
  dataflow offset cis b (snaps ++ [l]).
Proof.
  intros Hd Hc H0 HS t l' Hn.
  destruct (Nat.lt_ge_cases t (length snaps)) as [Hlt|Hge].
  - rewrite nth_error_app1 in Hn by exact Hlt.
    destruct (Hd t l' Hn) as [Hc' Hm]. split; [exact Hc'|].
    destruct t as [|t']; [exact Hm|].
    destruct Hm as (e & He & Ha). exists e. split; [|exact Ha].
    rewrite nth_error_app1; [exact He|lia].
  - assert (Ht : t = length snaps).
    { assert (Hb : t < length (snaps ++ [l]))
        by (apply nth_error_Some; congruence).
      rewrite length_app in Hb. simpl in Hb. lia. }
    subst t. rewrite nth_error_app2, Nat.sub_diag in Hn by lia.
    inversion Hn; subst l'. split; [exact Hc|].
    destruct (length snaps) as [|n] eqn:El; [now apply H0|].
    destruct HS as (e & He & Ha); [lia|].
    destruct (last_map_nth (@Some (locals A)) snaps None El) as (x & Hx & Hl).
    exists e. split; [|exact Ha].
    rewrite nth_error_app1 by lia. congruence.
Qed.

Lemma train_rollout_history (cfg : Train.setup A Hid) b lo tg tn k w w' s :
  for_range k (Train.body cfg b lo tg tn) Train.init_state w = (w', Ok s) ->
  length (Train.snapshots s) = k /\ train_history cfg b s.
Proof.
  apply (for_range_inv (Train.body cfg b lo tg tn)
           (fun t s _ => length (Train.snapshots s) = t /\ train_history cfg b s)).
  - split; [reflexivity|]. unfold train_history. simpl.
    do 4 (split; [reflexivity|]).
    split; [intros [|?] ? Hn; discriminate|constructor].
  - intros t s0 w0 s1 w1 Ht [Hlen Hh] Hb.
    apply train_body_inv in Hb as (l & St).
    destruct St as (Henv & Hsn & Hr & Hq & Hc & Hcat & H0 & HS & Hdec & Hres & Hnorm).
    destruct Hh as (He0 & Hr0 & Hq0 & Hc0 & Hd0 & Hf0).
    split; [rewrite Hsn, length_app; simpl; lia|].
    unfold train_history. cbv zeta. rewrite Hsn, !map_app. cbn [map].
    rewrite last_snoc, Hr, Hq, Hc, Hr0, Hq0, Hc0.
    do 4 (split; [auto|]). split.
    + apply dataflow_snoc; auto.
      * intros El. apply H0. lia.
      * intros El. destruct HS as (e & He & Ha); [lia|].
        exists e. split; [congruence|exact Ha].
    + apply Forall_app. split; [exact Hf0|]. constructor; auto.
Qed.

Lemma pose_lag_snoc (cfg : Test.profile A Hid) p0 snaps sh :
  pose_lag cfg p0 snaps ->
  (exists p, Test.stack_after sh = [p]
             /\ rbind (index0 (Test.inference_batch_index cfg) (Test.pos_pred sh))
                      (index0 0) = Ok p) ->
  last (map (@Test.stack_after A) snaps) [p0] = [Test.in_between_pose sh] ->
  pose_lag cfg p0 (snaps ++ [sh]).
Proof.
  intros Hp Hsh Hl t sh' Hn.
  destruct (Nat.lt_ge_cases t (length snaps)) as [Hlt|Hge].
  - rewrite nth_error_app1 in Hn by exact Hlt.
    destruct (Hp t sh' Hn) as [H1 H2]. split; [exact H1|].
    destruct t as [|t']; [exact H2|].
    destruct H2 as (e & He & Ha). exists e. split; [|exact Ha].
    rewrite nth_error_app1; [exact He|lia].
  - assert (Ht : t = length snaps).
    { assert (Hb : t < length (snaps ++ [sh]))
        by (apply nth_error_Some; congruence).
      rewrite length_app in Hb. simpl in Hb. lia. }
    subst t. rewrite nth_error_app2, Nat.sub_diag in Hn by lia.
    inversion Hn; subst sh'. split; [exact Hsh|].
    destruct (length snaps) as [|n] eqn:El.
    + destruct snaps; [|discriminate]. simpl in Hl. now inversion Hl.
    + destruct (last_map_nth (@Test.stack_after A) snaps [p0] El) as (x & Hx & Hl').
      exists x. split; [rewrite nth_error_app1 by lia; exact Hx|congruence].
Qed.

Lemma test_rollout_history (cfg : Test.profile A Hid) ft i b lo tg p0 k w w' s :
  for_range k (Test.body cfg ft i b lo tg) (Test.mkState None [p0] [] [] []) w
  = (w', Ok s) ->
  length (Test.snapshots s) = k /\ test_history cfg b p0 s.
Proof.
  apply (for_range_inv (Test.body cfg ft i b lo tg)
           (fun t s _ => length (Test.snapshots s) = t /\ test_history cfg b p0 s)).
  - split; [reflexivity|]. unfold test_history. simpl.
    do 3 (split; [reflexivity|]).
    split; [intros [|?] ? Hn; discriminate|].
    split; [intros [|?] ? Hn; discriminate|constructor].
  - intros t s0 w0 s1 w1 Ht [Hlen Hh] Hb.
    apply test_body_inv in Hb as (sh & St & _).
    destruct St as (Henv & Hsn & Hcat & H0 & HS & Hdec & Hres & Hnorm
                    & Hps & (p & Hp & Hps') & Hsa & Himg).
    destruct Hh as (He0 & Hp0 & Hi0 & Hd0 & Hl0 & Hf0).
    split; [rewrite Hsn, length_app; simpl; lia|].
    unfold test_history. cbv zeta. rewrite Hsn, !map_app. cbn [map].
    rewrite !last_snoc, Himg, Hi0.
    do 3 (split; [auto|]). split; [|split].
    + apply dataflow_snoc; auto.
      * rewrite length_map. intros El. apply H0. lia.
      * rewrite length_map. intros El. destruct HS as (e & He & Ha); [lia|].
        exists e. split; [|exact Ha]. rewrite map_map. congruence.
    + apply pose_lag_snoc; auto.
      * exists p. split; [congruence|exact Hp].
      * congruence.
    + apply Forall_app. split; [exact Hf0|]. constructor; auto.
Qed.
End Loops.

(** ** The pose buffer (C9) *)

Section Plots.
Context {A Hid : Type} `{Scalar A}.

Lemma test_rollout_plots (cfg : Test.profile A Hid) ft i b lo tg s0 k w w' s :
  Test.snapshots s0 = [] ->
  for_range k (Test.body cfg ft i b lo tg) s0 w = (w', Ok s) ->
  length (Test.snapshots s) = k /\
  exists evs, log w' = log w ++ evs
    /\ length (filter is_fk evs) = k
    /\ length (filter is_lstm_forward evs) = k
    /\ forall t sh, nth_error (Test.snapshots s) t = Some sh ->
         exists st tgt, In (PlotPose "pred_" t st (Test.in_between_pose sh) tgt) evs.
Proof.
  intros Hs0.
  apply (for_range_inv (Test.body cfg ft i b lo tg)
           (fun t s w' =>
              length (Test.snapshots s) = t /\
              exists evs, log w' = log w ++ evs
                /\ length (filter is_fk evs) = t
                /\ length (filter is_lstm_forward evs) = t
                /\ forall j sh, nth_error (Test.snapshots s) j = Some sh ->
                     exists st tgt,
                       In (PlotPose "pred_" j st (Test.in_between_pose sh) tgt) evs)).
  - rewrite Hs0. split; [reflexivity|]. exists []. rewrite app_nil_r.
    repeat split; auto. intros [|?] ? Hn; discriminate.
  - intros t s1 w1 s2 w2 Ht (Hlen & evs & El & Hfk & Hls & Hpl) Hb.
    apply test_body_inv in Hb as (sh & St & evs' & El' & Hfk' & Hls' & st & tgt & Hin).
    destruct St as (_ & Hsn & _).
    split; [rewrite Hsn, length_app; simpl; lia|].
    exists (evs ++ evs'). rewrite El', El, app_assoc.
    split; [reflexivity|]. rewrite !filter_app, !length_app.
    split; [lia|]. split; [lia|].
    intros j sh' Hn. rewrite Hsn in Hn.
    destruct (Nat.lt_ge_cases j (length (Test.snapshots s1))) as [Hlt|Hge].
    + rewrite nth_error_app1 in Hn by exact Hlt.
      destruct (Hpl j sh' Hn) as (st' & tgt' & Hin').
      exists st', tgt'. apply in_or_app. now left.
    + assert (Hb : j < length (Test.snapshots s1 ++ [sh]))
        by (apply nth_error_Some; congruence).
      rewrite length_app in Hb. simpl in Hb.
      assert (j = t) by lia. subst j.
      rewrite nth_error_app2, Hlen, Nat.sub_diag in Hn by lia.
      inversion Hn; subst sh'. exists st, tgt. apply in_or_app. now right.
Qed.
End Plots.

(** C9.  Through the timesteps of a window that starts with [p0] in the
    pose buffer, the buffer holds exactly one pose before and after every
    timestep; the in-between pose a timestep pops, draws and keeps in
    [img_pred] is [p0] at [t = 0] and otherwise the pose the timestep
    before it pushed, which is that timestep's prediction, so the drawn
    pose lags the prediction by one frame; and however far the rollout
    gets, the assertion of line 280 does not fail. *)
Theorem pose_buffer_holds_one_pose
    {A Hid : Type} `{Scalar A}
    (cfg : Test.profile A Hid) ft i b lo tg p0 k w w' s :
  for_range k (Test.body cfg ft i b lo tg) (Test.mkState None [p0] [] [] []) w
  = (w', Ok s) ->
  length (Test.snapshots s) = k
  /\ length (Test.pose_stack s) = 1
  /\ pose_lag cfg p0 (Test.snapshots s)
  /\ Test.img_pred s = map (@Test.in_between_pose A) (Test.snapshots s)
  /\ (exists evs, log w' = log w ++ evs
        /\ forall t sh, nth_error (Test.snapshots s) t = Some sh ->
             exists st tgt,
               In (PlotPose "pred_" t st (Test.in_between_pose sh) tgt) evs)
  /\ (forall n w0,
        snd (for_range n (Test.body cfg ft i b lo tg)
                       (Test.mkState None [p0] [] [] []) w0)
        <> Raise (AssertionError 280)).
Proof.
  intros E.
  destruct (test_rollout_history _ _ _ _ _ _ _ _ _ E) as (Hlen & Hh).
  destruct Hh as (_ & Hps & Himg & _ & Hlag & _).
  destruct (test_rollout_plots cfg ft i b lo tg
              (Test.mkState None [p0] [] [] []) k w eq_refl E)
    as (_ & evs & El & _ & _ & Hpl).
  split; [exact Hlen|]. split; [|split; [exact Hlag|split; [exact Himg|split]]].
  - pose proof (test_loop_never_280 cfg ft i b lo tg k
                  (Test.mkState None [p0] [] [] []) w eq_refl) as Hn.
    rewrite E in Hn. exact Hn.
  - exists evs. auto.
  - intros n w0 Hr.
    pose proof (test_loop_never_280 cfg ft i b lo tg n
                  (Test.mkState None [p0] [] [] []) w0 eq_refl) as Hn.
    destruct (for_range n _ _ w0) as [w1 [s1|e]]; simpl in Hr; [discriminate|].
    inversion Hr; subst. now apply Hn.
Qed.

Lemma pose_buffer_holds_one_pose_witness :
  exists p0 w' s,
    for_range 3 (Test.body (Fixture.test_profile (A:=Z) Fixture.no_residual 3 2 [])
                           "PKL" 0 (Fixture.sample_batch 2 12)
                           (mkT [2; 8] (Fixture.identity_quats 4))
                           (mkT [2; 8] (Fixture.identity_quats 4)))
              (Test.mkState None [p0] [] [] []) Fixture.w0 = (w', Ok s)
    /\ length (Test.snapshots s) = 3
    /\ length (Test.pose_stack s) = 1.
Proof.
  exists (full [Fixture.joints; 3] 1%Z).
  eexists. eexists.
  assert (E : for_range 3 (Test.body (Fixture.test_profile (A:=Z) Fixture.no_residual 3 2 [])
                           "PKL" 0 (Fixture.sample_batch 2 12)
                           (mkT [2; 8] (Fixture.identity_quats 4))
                           (mkT [2; 8] (Fixture.identity_quats 4)))
              (Test.mkState None [full [Fixture.joints; 3] 1%Z] [] [] []) Fixture.w0
            = (_, Ok _)) by (vm_compute; reflexivity).
  split; [exact E|].
  destruct (pose_buffer_holds_one_pose _ _ _ _ _ _ _ _ _ E) as (H1 & H2 & _).
  exact (conj H1 H2).
Defined.

(** ** The log of a batch *)

Section BatchLogs.
Context {A Hid : Type} `{Scalar A}.

Lemma train_init_hidden_Ok_inv (cfg : Train.setup A Hid) n w w' x :
  Train.init_hidden cfg n w = (w', Ok x) -> log w' = log w ++ [InitHidden n].
Proof. unfold Train.init_hidden. intros E. inversion E. reflexivity. Qed.

Lemma test_init_hidden_Ok_inv (cfg : Test.profile A Hid) n w w' x :
  Test.init_hidden cfg n w = (w', Ok x) -> log w' = log w ++ [InitHidden n].
Proof. unfold Test.init_hidden. intros E. inversion E. reflexivity. Qed.

Lemma torch_normal_Ok_inv (cfg : Train.setup A Hid) size w w' x :
  Train.torch_normal cfg size w = (w', Ok x) -> log w' = log w.
Proof. unfold Train.torch_normal. intros E. inversion E. reflexivity. Qed.

Lemma filter_none {X} (f : X -> bool) (l : list X) :
  Forall (fun x => f x = false) l -> filter f l = [].
Proof.
  induction 1 as [|x l Hx _ IH]; simpl; [reflexivity|]. now rewrite Hx.
Qed.



Lemma train_body_log (cfg : Train.setup A Hid) b lo tg tn t s w w' s' :
  Train.body cfg b lo tg tn t s w = (w', Ok s') ->
  exists evs, log w' = log w ++ evs
              /\ length (filter is_lstm_forward evs) = 1.
Proof.
  unfold Train.body, Train.timestep, Train.appends. intros Hb.
  tinv.
  all: chain_logs; eexists; split; reflexivity.
Qed.

Lemma train_rollout_log (cfg : Train.setup A Hid) b lo tg tn k s0 w w' s :
  for_range k (Train.body cfg b lo tg tn) s0 w = (w', Ok s) ->
  exists evs, log w' = log w ++ evs
              /\ length (filter is_lstm_forward evs) = k.
Proof.
  apply (for_range_inv (Train.body cfg b lo tg tn)
           (fun t _ w' => exists evs, log w' = log w ++ evs
                          /\ length (filter is_lstm_forward evs) = t)).
  - exists []. rewrite app_nil_r. auto.
  - intros t s1 w1 s2 w2 Ht (evs & El & Hc) Hb.
    apply train_body_log in Hb as (evs' & El' & Hc').
    exists (evs ++ evs'). rewrite El', El, app_assoc, filter_app, length_app.
    split; [reflexivity|lia].
Qed.

(** The events of the two optimizer updates, in order. *)
Lemma updates_log (w w' : world A Hid) u :
  Train.updates w = (w', Ok u) ->
  log w' = log w
    ++ [ZeroGrad DiscriminatorOptimizer; Backward TotalDLoss;
        OptimizerStep DiscriminatorOptimizer;
        ZeroGrad GeneratorOptimizer; Backward LossTotal;
        ClipGradNorm StateEncoder (Qmake 1 1);
        ClipGradNorm OffsetEncoder (Qmake 1 1);
        ClipGradNorm TargetEncoder (Qmake 1 1);
        ClipGradNorm Lstm (Qmake 1 1);
        ClipGradNorm Decoder (Qmake 1 1);
        ClipGradNorm ShortDiscriminator (Qmake 1 1);
        ClipGradNorm LongDiscriminator (Qmake 1 1);
        OptimizerStep GeneratorOptimizer].
Proof.
  unfold Train.updates. intros E. inversion E. cbn [log].
  now rewrite <- !app_assoc.
Qed.

(** A training batch that completes has logged the reset, then the
    events of the rollout, then one call of the skeleton on the stacks of
    all timesteps, then the two optimizer updates. *)
Lemma train_batch_log (cfg : Train.setup A Hid) b w w' u :
  Train.train_batch cfg b w = (w', Ok u) ->
  exists evs s qs rs,
    log w' = log w
      ++ InitHidden (Train.batch_len b) :: evs
      ++ ForwardKinematics qs rs
      :: [ZeroGrad DiscriminatorOptimizer; Backward TotalDLoss;
          OptimizerStep DiscriminatorOptimizer;
          ZeroGrad GeneratorOptimizer; Backward LossTotal;
          ClipGradNorm StateEncoder (Qmake 1 1);
          ClipGradNorm OffsetEncoder (Qmake 1 1);
          ClipGradNorm TargetEncoder (Qmake 1 1);
          ClipGradNorm Lstm (Qmake 1 1);
          ClipGradNorm Decoder (Qmake 1 1);
          ClipGradNorm ShortDiscriminator (Qmake 1 1);
          ClipGradNorm LongDiscriminator (Qmake 1 1);
          OptimizerStep GeneratorOptimizer]
    /\ Forall (fun e => exists t, t < Train.training_frames cfg
                                 /\ train_may_emit cfg b t e) evs
    /\ length (filter is_lstm_forward evs) = Train.training_frames cfg
    /\ stack1 (Train.local_q_pred_list s) = Ok qs
    /\ stack1 (Train.root_pred_list s) = Ok rs
    /\ length (Train.snapshots s) = Train.training_frames cfg
    /\ train_history cfg b s.
Proof.
  unfold Train.train_batch. intros E.
  repeat first
    [ match goal with
      | H : Train.init_hidden _ _ _ = (_, Ok _) |- _ =>
          apply train_init_hidden_Ok_inv in H
      | H : Train.torch_normal _ _ _ = (_, Ok _) |- _ =>
          apply torch_normal_Ok_inv in H
      | H : Train.updates _ = (_, Ok _) |- _ => apply updates_log in H
      end
    | tinv1 ].
  match goal with
  | R : Train.rollout ?c ?bb ?lo ?tg ?tn ?w1 = (?w2, Ok ?s) |- _ =>
      destruct (train_rollout_emits c bb lo tg tn w1) as (evs & El & Hall);
      rewrite R in El; cbn [fst] in El;
      unfold Train.rollout in R;
      pose proof R as R1; apply train_rollout_log in R1 as (evs' & El' & Hc);
      pose proof R as R2; apply train_rollout_history in R2 as (Hlen & Hh);
      assert (evs' = evs) by (rewrite El in El'; now apply app_inv_head in El');
      subst evs'; clear El'
  end.
  exists evs. do 3 eexists.
  split; [|split; [exact Hall|split; [exact Hc|split; [eassumption|
           split; [eassumption|split; [exact Hlen|exact Hh]]]]]].
  chain_logs. reflexivity.
Qed.


End BatchLogs.

Section GradientEvents.
Context {A Hid : Type} `{Scalar A}.

Lemma unclipped_steps_skip (pre l : list (event A)) c :
  Forall (fun e => is_gradient_event e = false) pre ->
  unclipped_steps c (pre ++ l) = unclipped_steps c l.
Proof.
  induction 1 as [|e pre He _ IH]; [reflexivity|].
  destruct e; simpl in *; try discriminate; exact IH.
Qed.

Lemma train_may_emit_no_gradient (cfg : Train.setup A Hid) b t e :
  train_may_emit cfg b t e -> is_gradient_event e = false.
Proof. intros [->|[(_ & x & _ & ->)|(x & _ & ->)]]; reflexivity. Qed.

Lemma train_may_emit_no_clip (cfg : Train.setup A Hid) b t e :
  train_may_emit cfg b t e -> is_clip e = false.
Proof. intros [->|[(_ & x & _ & ->)|(x & _ & ->)]]; reflexivity. Qed.
End GradientEvents.

(** C3 fails on the code.  In every training batch that completes, the
    discriminator optimizer steps right after its backward pass, before any
    clipping of the batch; the two discriminators are clipped only
    afterwards, together with the five generator networks, ahead of the
    generator optimizer's step.  Of the two optimizer steps it is the
    discriminator's that runs on gradients no clipping has touched. *)
Theorem discriminator_step_runs_unclipped
    {A Hid : Type} `{Scalar A} (cfg : Train.setup A Hid) b w w' u :
  Train.train_batch cfg b w = (w', Ok u) ->
  exists evs pre post,
    log w' = log w ++ evs
    /\ unclipped_steps [] evs = [DiscriminatorOptimizer]
    /\ evs = pre ++ OptimizerStep DiscriminatorOptimizer :: post
    /\ Forall (fun e => is_clip e = false) pre
    /\ (forall m, In m (params DiscriminatorOptimizer) ->
          In (ClipGradNorm m (Qmake 1 1)) post)
    /\ (exists mid, post = mid ++ [OptimizerStep GeneratorOptimizer]
          /\ forall m, In m (params GeneratorOptimizer) ->
               In (ClipGradNorm m (Qmake 1 1)) mid).
Proof.
  intros E.
  apply train_batch_log in E as (evs & s & qs & rs & El & Hall & _).
  eexists. exists (InitHidden (Train.batch_len b) :: evs
                   ++ [ForwardKinematics qs rs; ZeroGrad DiscriminatorOptimizer;
                       Backward TotalDLoss]).
  eexists. split; [exact El|]. split; [|split; [|split; [|split]]].
  - cbn [unclipped_steps]. rewrite unclipped_steps_skip; [reflexivity|].
    eapply Forall_impl; [|exact Hall].
    intros e (t & _ & He). eapply train_may_emit_no_gradient; eauto.
  - cbn [app]. rewrite <- app_assoc. reflexivity.
  - constructor; [reflexivity|]. apply Forall_app. split.
    + eapply Forall_impl; [|exact Hall].
      intros e (t & _ & He). eapply train_may_emit_no_clip; eauto.
    + repeat constructor.
  - intros m [<-|[<-|[]]]; simpl; tauto.
  - eexists. split.
    + instantiate (1 := [ZeroGrad GeneratorOptimizer; Backward LossTotal;
          ClipGradNorm StateEncoder (Qmake 1 1);
          ClipGradNorm OffsetEncoder (Qmake 1 1);
          ClipGradNorm TargetEncoder (Qmake 1 1);
          ClipGradNorm Lstm (Qmake 1 1);
          ClipGradNorm Decoder (Qmake 1 1);
          ClipGradNorm ShortDiscriminator (Qmake 1 1);
          ClipGradNorm LongDiscriminator (Qmake 1 1)]).
      reflexivity.
    + intros m [<-|[<-|[<-|[<-|[<-|[]]]]]]; simpl; tauto.
Qed.

Lemma discriminator_step_runs_unclipped_witness :
  exists w',
    Train.train_batch (Fixture.train_setup (A:=Z) Fixture.no_residual 3)
                      (Fixture.sample_batch 2 14) Fixture.w0 = (w', Ok tt)
    /\ unclipped_steps [] (log w') = [DiscriminatorOptimizer].
Proof.
  eexists.
  assert (E : Train.train_batch (Fixture.train_setup (A:=Z) Fixture.no_residual 3)
                (Fixture.sample_batch 2 14) Fixture.w0 = (_, Ok tt))
    by (vm_compute; reflexivity).
  split; [exact E|].
  destruct (discriminator_step_runs_unclipped _ _ _ E)
    as (evs & pre & post & El & Hu & _).
  rewrite El. exact Hu.
Defined.





(** ** The trailing batch of an epoch (C4) *)

Section Epochs.
Context {A Hid : Type} `{Scalar A}.

Lemma train_epoch_app (tr : Train.setup A Hid) bs bs' w :
  Train.train_epoch tr (bs ++ bs') w
  = bind (Train.train_epoch tr bs) (fun _ => Train.train_epoch tr bs') w.
Proof.
  revert w. induction bs as [|b bs IH]; intros w; [reflexivity|].
  cbn [app Train.train_epoch]. unfold bind.
  destruct (Train.train_batch tr b w) as [w1 [u|e]]; [|reflexivity].
  rewrite IH. reflexivity.
Qed.

Lemma train_epoch_single (tr : Train.setup A Hid) b w :
  Train.train_epoch tr [b] w = Train.train_batch tr b w.
Proof.
  cbn [Train.train_epoch]. unfold bind.
  destruct (Train.train_batch tr b w) as [w1 [[]|e]]; reflexivity.
Qed.

Lemma test_batches_break (te : Test.profile A Hid) ft fulls last :
  (forall b, In b fulls -> Train.batch_len b = Test.batch_size te) ->
  Train.batch_len last <> Test.batch_size te ->
  forall i w,
    Test.batches te ft i (fulls ++ [last]) w = Test.batches te ft i fulls w.
Proof.
  intros Hfull Hlast. induction fulls as [|b fulls IH]; intros i w.
  - cbn [app Test.batches].
    destruct (Nat.eqb_spec (Test.batch_size te) (Train.batch_len last));
      [congruence|reflexivity].
  - cbn [app Test.batches].
    rewrite (Hfull b (or_introl eq_refl)), Nat.eqb_refl. cbn [negb].
    unfold bind.
    destruct (Test.window te ft i b w) as [w1 [s|e]]; [|reflexivity].
    rewrite IH; [reflexivity|].
    intros b' Hb'. apply Hfull. right. exact Hb'.
Qed.

Lemma test_batches_all (te : Test.profile A Hid) ft fulls :
  (forall b, In b fulls -> Train.batch_len b = Test.batch_size te) ->
  forall i w w' ss,
    Test.batches te ft i fulls w = (w', Ok ss) -> length ss = length fulls.
Proof.
  intros Hfull. induction fulls as [|b fulls IH]; intros i w w' ss E.
  - cbn in E. inversion E. reflexivity.
  - cbn [Test.batches] in E.
    rewrite (Hfull b (or_introl eq_refl)), Nat.eqb_refl in E. cbn [negb] in E.
    apply bind_Ok_inv in E as (s & w1 & _ & E).
    apply bind_Ok_inv in E as (ss' & w2 & E & E').
    apply ret_Ok_inv in E' as [-> ->].
    cbn [length]. f_equal. eapply IH; [|exact E].
    intros b' Hb'. apply Hfull. right. exact Hb'.
Qed.
End Epochs.

(** C4, as the code has it.  The inference loop leaves its loop at a
    trailing batch whose size is not the configured one: the run is the run
    over the full batches alone, each of which is rolled out.  The training
    loop has no such test: the trailing batch is trained on like any other,
    with the hidden state initialised for its own size. *)
Theorem trailing_batch_skipped_by_inference_only
    {A Hid : Type} `{Scalar A}
    (te : Test.profile A Hid) ft i fulls last (tr : Train.setup A Hid) bs :
  (forall b, In b fulls -> Train.batch_len b = Test.batch_size te) ->
  Train.batch_len last <> Test.batch_size te ->
  (forall w, Test.batches te ft i (fulls ++ [last]) w
             = Test.batches te ft i fulls w)
  /\ (forall w w' ss, Test.batches te ft i (fulls ++ [last]) w = (w', Ok ss) ->
        length ss = length fulls)
  /\ (forall w, Train.train_epoch tr (bs ++ [last]) w
                = bind (Train.train_epoch tr bs)
                       (fun _ => Train.train_batch tr last) w)
  /\ (forall w w' u, Train.train_epoch tr (bs ++ [last]) w = (w', Ok u) ->
        exists w1 evs,
          Train.train_epoch tr bs w = (w1, Ok tt)
          /\ log w' = log w1 ++ InitHidden (Train.batch_len last) :: evs
          /\ length (filter is_lstm_forward evs) = Train.training_frames tr
          /\ length (filter (is_step GeneratorOptimizer) evs) = 1).
Proof.
  intros Hfull Hlast.
  assert (Ht : forall w, Train.train_epoch tr (bs ++ [last]) w
                = bind (Train.train_epoch tr bs)
                       (fun _ => Train.train_batch tr last) w).
  { intros w. rewrite train_epoch_app. unfold bind.
    destruct (Train.train_epoch tr bs w) as [w1 [u|e]]; [|reflexivity].
    apply train_epoch_single. }
  split; [intros w; apply test_batches_break; assumption|].
  split.
  { intros w w' ss E. rewrite test_batches_break in E by assumption.
    eapply test_batches_all; eauto. }
  split; [exact Ht|].
  intros w w' u E. rewrite Ht in E.
  apply bind_Ok_inv in E as ([] & w1 & E1 & E2).
  apply train_batch_log in E2 as (evs & s & qs & rs & El & Hall & Hls & _).
  exists w1. eexists. split; [exact E1|]. split; [exact El|].
  split.
  - rewrite filter_app, length_app, Hls. cbn. lia.
  - rewrite filter_app, length_app.
    rewrite (@filter_none _ (is_step GeneratorOptimizer) evs); [reflexivity|].
    eapply Forall_impl; [|exact Hall].
    intros e (t & _ & [->|[(_ & x & _ & ->)|(x & _ & ->)]]); reflexivity.
Qed.

Lemma trailing_batch_skipped_by_inference_only_witness :
  let te := Fixture.test_profile (A:=Z) Fixture.no_residual 3 2 [] in
  let tr := Fixture.train_setup (A:=Z) Fixture.no_residual 3 in
  Test.batches te "PKL" 0 ([Fixture.sample_batch 2 12] ++ [Fixture.sample_batch 1 12])
               Fixture.w0
  = Test.batches te "PKL" 0 [Fixture.sample_batch 2 12] Fixture.w0
  /\ Train.train_epoch tr ([Fixture.sample_batch 2 14] ++ [Fixture.sample_batch 1 12])
                       Fixture.w0
     = bind (Train.train_epoch tr [Fixture.sample_batch 2 14])
            (fun _ => Train.train_batch tr (Fixture.sample_batch 1 12)) Fixture.w0.
Proof.
  intros te tr.
  assert (Hf : forall b, In b [Fixture.sample_batch (A:=Z) 2 12] ->
                 Train.batch_len b = Test.batch_size te).
  { intros b [<-|[]]. reflexivity. }
  assert (Hl : Train.batch_len (Fixture.sample_batch (A:=Z) 1 12)
               <> Test.batch_size te).
  { vm_compute. lia. }
  destruct (@trailing_batch_skipped_by_inference_only _ _ _ te "PKL"%string 0
              [Fixture.sample_batch 2 12] (Fixture.sample_batch 1 12) tr
              [Fixture.sample_batch 2 14] Hf Hl) as (H1 & _ & H3 & _).
  split; [apply H1|apply H3].
Defined.

(** An epoch of training over a full batch of two windows followed by a
    trailing batch of one: the epoch completes, the hidden state has been
    initialised for both batches and the generator has stepped twice. *)
Lemma training_processes_trailing_batch :
  let run := Train.train_epoch (Fixture.train_setup (A:=Z) Fixture.no_residual 3)
               [Fixture.sample_batch 2 14; Fixture.sample_batch 1 14] Fixture.w0 in
  snd run = Ok tt
  /\ filter is_init_hidden (log (fst run)) = [InitHidden 2; InitHidden 1]
  /\ length (filter (is_step GeneratorOptimizer) (log (fst run))) = 2.
Proof. vm_compute. repeat split. Qed.

(** ** The command line of the inference script (C8) *)

Lemma prints_run {A Hid} (msgs : list string) (w : world A Hid) :
  Test.prints msgs w = (mkW (hidden w) (rng w) (log w ++ map Print msgs), Ok tt).
Proof.
  revert w. induction msgs as [|m ms IH]; intros w; simpl.
  - unfold ret. rewrite app_nil_r. now destruct w.
  - unfold bind, tell. rewrite IH. simpl. now rewrite <- app_assoc.
Qed.

Lemma choose_dataset_cases upper (a : string) :
  (supported_dataset (upper a) /\
   Test.choose_dataset upper (Some a) = (upper a, []))
  \/ (~ supported_dataset (upper a) /\
      Test.choose_dataset upper (Some a) = ("DFKI"%string, [dataset_warning])).
Proof.
  unfold Test.choose_dataset, supported_dataset.
  destruct (String.eqb_spec (upper a) "DFKI"); [left; auto|].
  destruct (String.eqb_spec (upper a) "LAFAN"); [left; auto|].
  right. simpl. split; [tauto|reflexivity].
Qed.

Lemma choose_filetype_cases upper (a : string) :
  (supported_filetype (upper a) /\
   Test.choose_filetype upper (Some a) = (upper a, []))
  \/ (~ supported_filetype (upper a) /\
      Test.choose_filetype upper (Some a) = ("ONNX"%string, [filetype_warning])).
Proof.
  unfold Test.choose_filetype, supported_filetype.
  destruct (String.eqb_spec (upper a) "ONNX"); [left; auto|].
  destruct (String.eqb_spec (upper a) "PKL"); [left; auto|].
  right. simpl. split; [tauto|reflexivity].
Qed.

Lemma is_ascii_dec_true (s : string) :
  forallb (fun c => nat_of_ascii c <? 128) (list_ascii_of_string s) = true ->
  is_ascii s.
Proof.
  intros E. unfold is_ascii. apply Forall_forall. intros c Hc.
  rewrite forallb_forall in E. apply Nat.ltb_lt. exact (E c Hc).
Qed.

(** [str.upper] leaves the four values the script compares with as they
    are. *)
Lemma upper_supported upper (a : string) :
  upper_on_ascii upper ->
  supported_dataset a \/ supported_filetype a -> upper a = a.
Proof.
  intros Hup [[-> | ->] | [-> | ->]];
    (rewrite Hup; [reflexivity|apply is_ascii_dec_true; reflexivity]).
Qed.

(** C8.  Whatever [--Dataset] and [--Filetype] the inference script is
    given, it settles on a supported dataset and a supported file type
    before it calls [test]: a value that [str.upper] takes to a supported
    one is used upper-cased, without a warning (so a value given in upper
    case is used as given); any other value is replaced by the default,
    DFKI respectively ONNX, and one warning is printed; an option left out
    takes the default silently.  The choice depends on the value through
    [str.upper] only, and the script does nothing but print the warnings
    and the selection line before it runs [test] on the choice: no error
    is raised on the way.  Of [str.upper] this uses only that on ASCII
    text it is the ASCII upper-casing. *)
Theorem cli_selection_falls_back
    (upper : string -> string)
    (Dataset Filetype : option string) (d f : string) (warn_d warn_f : list string) :
  upper_on_ascii upper ->
  Test.choose_dataset upper Dataset = (d, warn_d) ->
  Test.choose_filetype upper Filetype = (f, warn_f) ->
  (forall a, Dataset = Some a ->
     (supported_dataset (upper a) -> d = upper a /\ warn_d = []) /\
     (supported_dataset a -> d = a) /\
     (is_ascii a -> supported_dataset (Test.ascii_upper a) ->
        d = Test.ascii_upper a /\ warn_d = []) /\
     (~ supported_dataset (upper a) ->
        d = "DFKI"%string /\ warn_d = [dataset_warning])) /\
  (forall a, Filetype = Some a ->
     (supported_filetype (upper a) -> f = upper a /\ warn_f = []) /\
     (supported_filetype a -> f = a) /\
     (is_ascii a -> supported_filetype (Test.ascii_upper a) ->
        f = Test.ascii_upper a /\ warn_f = []) /\
     (~ supported_filetype (upper a) ->
        f = "ONNX"%string /\ warn_f = [filetype_warning])) /\
  (Dataset = None -> d = "DFKI"%string /\ warn_d = []) /\
  (Filetype = None -> f = "ONNX"%string /\ warn_f = []) /\
  supported_dataset d /\ supported_filetype f /\
  (forall a a', upper a = upper a' ->
     Test.choose_dataset upper (Some a) = Test.choose_dataset upper (Some a') /\
     Test.choose_filetype upper (Some a) = Test.choose_filetype upper (Some a')) /\
  (forall (A Hid : Type) (SA : Scalar A) (lafan dfki : Test.profile A Hid) w,
     Test.main upper lafan dfki Dataset Filetype w
     = Test.test lafan dfki d f
         (mkW (hidden w) (rng w)
              (log w ++ map Print
                     (warn_d ++ warn_f
                      ++ [("Using dataset  " ++ d ++ "  and filetype  " ++ f)%string])))).
Proof.
  intros Hup Ed Ef.
  assert (Hd : forall a, Dataset = Some a ->
     (supported_dataset (upper a) -> d = upper a /\ warn_d = []) /\
     (supported_dataset a -> d = a) /\
     (is_ascii a -> supported_dataset (Test.ascii_upper a) ->
        d = Test.ascii_upper a /\ warn_d = []) /\
     (~ supported_dataset (upper a) ->
        d = "DFKI"%string /\ warn_d = [dataset_warning])).
  { intros a ->. pose proof (choose_dataset_cases upper a) as C.
    assert (U : supported_dataset a -> upper a = a)
      by (intros S; apply upper_supported; [exact Hup|left; exact S]).
    destruct C as [[S C]|[N C]]; rewrite C in Ed; inversion Ed; subst.
    - split; [auto|]. split; [exact U|]. split.
      + intros Ha _. split; [apply Hup; exact Ha|reflexivity].
      + intros N. contradiction.
    - split; [intros S; contradiction|]. split; [|split].
      + intros S. exfalso. apply N. rewrite (U S). exact S.
      + intros Ha S. exfalso. apply N. rewrite Hup by exact Ha. exact S.
      + auto. }
  assert (Hf : forall a, Filetype = Some a ->
     (supported_filetype (upper a) -> f = upper a /\ warn_f = []) /\
     (supported_filetype a -> f = a) /\
     (is_ascii a -> supported_filetype (Test.ascii_upper a) ->
        f = Test.ascii_upper a /\ warn_f = []) /\
     (~ supported_filetype (upper a) ->
        f = "ONNX"%string /\ warn_f = [filetype_warning])).
  { intros a ->. pose proof (choose_filetype_cases upper a) as C.
    assert (U : supported_filetype a -> upper a = a)
      by (intros S; apply upper_supported; [exact Hup|right; exact S]).
    destruct C as [[S C]|[N C]]; rewrite C in Ef; inversion Ef; subst.
    - split; [auto|]. split; [exact U|]. split.
      + intros Ha _. split; [apply Hup; exact Ha|reflexivity].
      + intros N. contradiction.
    - split; [intros S; contradiction|]. split; [|split].
      + intros S. exfalso. apply N. rewrite (U S). exact S.
      + intros Ha S. exfalso. apply N. rewrite Hup by exact Ha. exact S.
      + auto. }
  split; [exact Hd|]. split; [exact Hf|].
  split; [intros ->; simpl in Ed; inversion Ed; auto|].
  split; [intros ->; simpl in Ef; inversion Ef; auto|].
  split.
  { destruct Dataset as [a|].
    - destruct (choose_dataset_cases upper a) as [[S C]|[N C]];
        rewrite C in Ed; inversion Ed; subst; auto.
      now left.
    - inversion Ed. now left. }
  split.
  { destruct Filetype as [a|].
    - destruct (choose_filetype_cases upper a) as [[S C]|[N C]];
        rewrite C in Ef; inversion Ef; subst; auto.
      now left.
    - inversion Ef. now left. }
  split.
  { intros a a' E. unfold Test.choose_dataset, Test.choose_filetype.
    now rewrite E. }
  intros A Hid SA lafan dfki w. unfold Test.main. rewrite Ed, Ef.
  unfold bind. rewrite prints_run. unfold tell. cbn [hidden rng log].
  do 2 f_equal. rewrite !map_app. cbn [map]. rewrite <- !app_assoc. reflexivity.
Qed.

Lemma cli_selection_falls_back_witness :
  upper_on_ascii Test.ascii_upper
  /\ Test.choose_dataset Test.ascii_upper (Some "lafan"%string)
     = ("LAFAN"%string, [])
  /\ Test.choose_filetype Test.ascii_upper (Some "xyz"%string)
     = ("ONNX"%string, [filetype_warning])
  /\ supported_dataset "LAFAN" /\ supported_filetype "ONNX".
Proof.
  assert (Hup : upper_on_ascii Test.ascii_upper) by (intros s _; reflexivity).
  pose proof (@cli_selection_falls_back Test.ascii_upper
                (Some "lafan"%string) (Some "xyz"%string)
                "LAFAN"%string "ONNX"%string [] [filetype_warning]
                Hup eq_refl eq_refl) as (_ & _ & _ & _ & Sd & Sf & _).
  split; [exact Hup|]. split; [reflexivity|]. split; [reflexivity|].
  exact (conj Sd Sf).
Defined.

(** With an [upper] that takes "dfk" and a dotless i to DFKI, as Python
    does, the dataset is selected without a warning; the ASCII upper-casing
    alone would have rejected the value. *)
Lemma dotless_i_is_accepted :
  upper_on_ascii upper_with_dotless_i
  /\ Test.choose_dataset upper_with_dotless_i (Some dfk_dotless_i)
     = ("DFKI"%string, [])
  /\ Test.choose_dataset Test.ascii_upper (Some dfk_dotless_i)
     = ("DFKI"%string, [dataset_warning]).
Proof.
  split; [|split; reflexivity].
  intros s Hs. unfold upper_with_dotless_i.
  destruct (String.eqb_spec s dfk_dotless_i) as [->|_]; [|reflexivity].
  exfalso. unfold is_ascii in Hs. rewrite Forall_forall in Hs.
  assert (Hc : nat_of_ascii (ascii_of_nat 196) < 128).
  { apply Hs. unfold dfk_dotless_i. cbn [list_ascii_of_string In]. tauto. }
  vm_compute in Hc. lia.
Qed.

(** ** The rollout on a batch of one window (C1) *)

Section Squeezed.
Context {A Hid : Type} `{Scalar A}.

Lemma squeeze_no_ones (x : tensor A) : ~ In 1 (shape (squeeze x)).
Proof.
  cbn [squeeze shape]. intros Hin. apply filter_In in Hin as [_ Hf].
  discriminate.
Qed.

(** What the assertion of line 195 and the squeeze of line 270 leave of
    a timestep of the inference loop that returned. *)
Lemma test_body_shapes (cfg : Test.profile A Hid) ft i b lo tg t s w w' s' :
  Test.body cfg ft i b lo tg t s w = (w', Ok s') ->
  exists l rp,
    Test.env s' = Some l
    /\ shape (root_p_offset b) = shape (root_p_t l)
    /\ root_pred l = squeeze rp
    /\ (t <> 0 -> exists e, Test.env s = Some e /\ root_p_t l = root_pred e).
Proof.
  unfold Test.body. intros Hb.
  tinv.
  all: try (apply Nat.eqb_eq in Heqb0; subst t).
  all: try (apply Nat.eqb_neq in Heqb0).
  all: do 2 eexists; proj_locals.
  all: split; [reflexivity|].
  all: split; [apply shape_eqb_eq; eassumption|].
  all: split; [reflexivity|].
  all: intros Ht; try congruence.
  all: eexists; split; [first [eassumption | reflexivity]|reflexivity].
Qed.

(** With an axis of extent one in [root_p_offset], as a batch of one
    window has, the inference loop does not get through its second
    timestep. *)
Lemma test_loop_stops (cfg : Test.profile A Hid) ft i b lo tg n s0 w w' s :
  In 1 (shape (root_p_offset b)) -> 2 <= n ->
  for_range n (Test.body cfg ft i b lo tg) s0 w = (w', Ok s) -> False.
Proof.
  intros H1 Hn E.
  pose proof E as E2. apply for_range_prefix with (k := 2) in E2 as (w2 & s2 & E2); [|exact Hn].
  rewrite for_range_S in E2.
  apply bind_Ok_inv in E2 as (s1 & w1 & E1 & B1).
  rewrite for_range_S in E1.
  apply bind_Ok_inv in E1 as (sa & wa & E0 & B0).
  apply test_body_shapes in B0 as (l0 & rp & He0 & _ & Hsq & _).
  apply test_body_shapes in B1 as (l1 & _ & _ & Hsh & _ & Hprev).
  destruct (Hprev (Nat.neq_succ_0 0)) as (e & He & Hp).
  rewrite He0 in He. inversion He; subst e.
  rewrite Hsh, Hp, Hsq in H1. eapply squeeze_no_ones; exact H1.
Qed.
End Squeezed.

(** C1 fails on the code.  In a rollout that completes, in training and
    in inference, the first timestep is fed the ground-truth frame at the
    offset of the window, every later timestep what the timestep before
    predicted, and there are [training_frames] timesteps.  But the
    inference loop squeezes the predicted root position without the test
    on the batch axis that the training loop makes: on a batch of one
    window, where [root_p_offset] has an axis of extent one, the squeezed
    prediction can no longer pass the assertion of line 195, and no
    rollout of two or more timesteps completes. *)
Theorem inference_rollout_stops_on_batch_of_one
    {A Hid : Type} `{Scalar A}
    (te : Test.profile A Hid) ft b :
  In 1 (shape (root_p_offset b)) ->
  2 <= Test.training_frames te ->
  (forall i lo tg s0 w w' s,
     for_range (Test.training_frames te) (Test.body te ft i b lo tg) s0 w
     <> (w', Ok s))
  /\ (forall i w w' s, Test.window te ft i b w <> (w', Ok s))
  /\ (forall fulls i w w' ss,
        Train.batch_len b = Test.batch_size te ->
        (forall b', In b' fulls -> Train.batch_len b' = Test.batch_size te) ->
        Test.batches te ft i (fulls ++ [b]) w <> (w', Ok ss)).
Proof.
  intros H1 Hn.
  assert (Hloop : forall i lo tg s0 w w' s,
            for_range (Test.training_frames te) (Test.body te ft i b lo tg) s0 w
            <> (w', Ok s)).
  { intros i lo tg s0 w w' s E. eapply test_loop_stops; eassumption. }
  assert (Hwin : forall i w w' s, Test.window te ft i b w <> (w', Ok s)).
  { intros i w w' s E. unfold Test.window in E.
    repeat first
      [ match goal with
        | H : Test.init_hidden _ _ _ = (_, Ok _) |- _ =>
            apply test_init_hidden_Ok_inv in H
        end
      | tinv1 ].
    all: match goal with
         | R : for_range _ _ _ _ = (_, Ok _) |- _ =>
             exact (Hloop _ _ _ _ _ _ _ R)
         end. }
  split; [exact Hloop|]. split; [exact Hwin|].
  induction fulls as [|b' fulls IH]; intros i w w' ss Hb Hfull E.
  - cbn [app Test.batches] in E. rewrite Hb, Nat.eqb_refl in E. cbn [negb] in E.
    apply bind_Ok_inv in E as (s & w1 & E & _). exact (Hwin _ _ _ _ E).
  - cbn [app Test.batches] in E.
    rewrite (Hfull b' (or_introl eq_refl)), Nat.eqb_refl in E. cbn [negb] in E.
    apply bind_Ok_inv in E as (s & w1 & _ & E).
    apply bind_Ok_inv in E as (ss' & w2 & E & _).
    eapply IH; [exact Hb| |exact E].
    intros b2 Hb2. apply Hfull. right. exact Hb2.
Qed.

Lemma inference_rollout_stops_on_batch_of_one_witness :
  In 1 (shape (root_p_offset (Fixture.sample_batch (A:=Z) 1 12)))
  /\ (forall w' s,
        Test.window (Fixture.test_profile (A:=Z) Fixture.no_residual 3 1 [])
                    "PKL" 0 (Fixture.sample_batch 1 12) Fixture.w0
        <> (w', Ok s)).
Proof.
  assert (H1 : In 1 (shape (root_p_offset (Fixture.sample_batch (A:=Z) 1 12))))
    by (simpl; left; reflexivity).
  assert (Hn : 2 <= Test.training_frames
                      (Fixture.test_profile (A:=Z) Fixture.no_residual 3 1 []))
    by (simpl; lia).
  destruct (@inference_rollout_stops_on_batch_of_one _ _ _
              (Fixture.test_profile (A:=Z) Fixture.no_residual 3 1 [])
              "PKL"%string (Fixture.sample_batch 1 12) H1 Hn) as (_ & Hw & _).
  split; [exact H1|]. intros w' s. apply Hw.
Defined.

(** The two loops on a batch of one window of the stubbed networks, with
    [training_frames = 3]: the inference loop stops at the assertion of
    line 195 after one pass through the recurrent core; the training loop
    makes its three passes and completes. *)
Lemma batch_of_one_in_both_loops :
  let run := Test.window (Fixture.test_profile (A:=Z) Fixture.no_residual 3 1 [])
                         "PKL" 0 (Fixture.sample_batch 1 12) Fixture.w0 in
  let ref := Train.train_batch (Fixture.train_setup (A:=Z) Fixture.no_residual 3)
                               (Fixture.sample_batch 1 14) Fixture.w0 in
  snd run = Raise (AssertionError 195)
  /\ length (filter is_lstm_forward (log (fst run))) = 1
  /\ snd ref = Ok tt
  /\ length (filter is_lstm_forward (log (fst ref))) = 3.
Proof. vm_compute. repeat split. Qed.

(** X16.  In a rollout that completes, in training and in inference, there
    are [training_frames] timesteps, the first is fed the ground-truth frame
    at the offset of the window and every later one what the timestep
    before it predicted. *)
Lemma completed_rollout_feeds_back
    {A Hid : Type} `{Scalar A}
    (tr : Train.setup A Hid) b lo tg tn w w' s
    (te : Test.profile A Hid) ft i b2 lo2 tg2 p0 w2 w2' s2 :
  Train.rollout tr b lo tg tn w = (w', Ok s) ->
  for_range (Test.training_frames te) (Test.body te ft i b2 lo2 tg2)
            (Test.mkState None [p0] [] [] []) w2 = (w2', Ok s2) ->
  length (Train.snapshots s) = Train.training_frames tr
  /\ dataflow 10 contact_as_is b (Train.snapshots s)
  /\ length (Test.snapshots s2) = Test.training_frames te
  /\ dataflow 9 contact_first b2 (map (@Test.vars A) (Test.snapshots s2)).
Proof.
  intros E1 E2.
  apply train_rollout_history in E1 as [L1 (_ & _ & _ & _ & Hflow & _)].
  apply test_rollout_history in E2 as [L2 (_ & _ & _ & Hflow2 & _)].
  auto.
Qed.

Lemma completed_rollout_feeds_back_witness :
  exists w' s w2' s2,
    Train.rollout (Fixture.train_setup (A:=Z) Fixture.no_residual 3)
                  (Fixture.sample_batch 2 14)
                  (mkT [2; 8] (Fixture.identity_quats 4))
                  (mkT [2; 8] (Fixture.identity_quats 4))
                  (full [2; 512] 0%Z) Fixture.w0 = (w', Ok s)
    /\ for_range 3 (Test.body (Fixture.test_profile (A:=Z) Fixture.no_residual 3 2 [])
                              "PKL" 0 (Fixture.sample_batch 2 12)
                              (mkT [2; 8] (Fixture.identity_quats 4))
                              (mkT [2; 8] (Fixture.identity_quats 4)))
                 (Test.mkState None [full [Fixture.joints; 3] 1%Z] [] [] [])
                 Fixture.w0 = (w2', Ok s2)
    /\ dataflow 10 contact_as_is (Fixture.sample_batch 2 14) (Train.snapshots s)
    /\ dataflow 9 contact_first (Fixture.sample_batch 2 12)
                (map (@Test.vars Z) (Test.snapshots s2)).
Proof.
  eexists. eexists. eexists. eexists.
  assert (E1 : Train.rollout (Fixture.train_setup (A:=Z) Fixture.no_residual 3)
                  (Fixture.sample_batch 2 14)
                  (mkT [2; 8] (Fixture.identity_quats 4))
                  (mkT [2; 8] (Fixture.identity_quats 4))
                  (full [2; 512] 0%Z) Fixture.w0 = (_, Ok _))
    by (vm_compute; reflexivity).
  assert (E2 : for_range 3 (Test.body (Fixture.test_profile (A:=Z) Fixture.no_residual 3 2 [])
                              "PKL" 0 (Fixture.sample_batch 2 12)
                              (mkT [2; 8] (Fixture.identity_quats 4))
                              (mkT [2; 8] (Fixture.identity_quats 4)))
                 (Test.mkState None [full [Fixture.joints; 3] 1%Z] [] [] [])
                 Fixture.w0 = (_, Ok _))
    by (vm_compute; reflexivity).
  destruct (@completed_rollout_feeds_back _ _ _
              (Fixture.train_setup (A:=Z) Fixture.no_residual 3) _ _ _ _ _ _ _
              (Fixture.test_profile (A:=Z) Fixture.no_residual 3 2 [])
              _ _ _ _ _ _ _ _ _ E1 E2) as (_ & H1 & _ & H2).
  split; [exact E1|]. split; [exact E2|]. split; [exact H1|exact H2].
Defined.

(** ** Residuals and normalisation (C6, C7) *)

Section RootStays.
Context {A : Type} `{Scalar A}.

Lemma slice2_zero lo hi (x y : tensor A) :
  slice2 lo hi x = Ok y ->
  Forall (eq szero) (data x) -> Forall (eq szero) (data y).
Proof.
  intros E Hx. apply guarded_Ok_inv in E as [_ ->].
  cbn [slice2_val data]. apply Forall_flat_map. intros r _.
  apply Forall_firstn, Forall_skipn, Forall_block, Hx.
Qed.

Lemma slice2_lead lo hi (x y : tensor A) :
  slice2 lo hi x = Ok y -> wf x -> hd 0 (shape x) = 1 ->
  wf y /\ hd 0 (shape y) = 1.
Proof.
  intros E Hw Hh. apply guarded_Ok_inv in E as [G ->].
  apply Nat.leb_le in G. split; [apply wf_slice2_val; assumption|].
  cbn [slice2_val shape].
  destruct (shape x) as [|a [|b [|c r]]]; cbn in G; try lia.
  exact Hh.
Qed.

Lemma tadd_zero_l (z x y : tensor A) :
  tadd z x = Ok y -> wf z -> wf x -> hd 0 (shape z) = 1 ->
  Forall (eq szero) (data z) -> zero_neutral_on x ->
  wf y /\ hd 0 (shape y) = 1 /\ data y = data x.
Proof.
  intros E Hz Hx Hh H0 Hk. apply guarded_Ok_inv in E as [G ->].
  split; [apply wf_bcast_val; assumption|]. split.
  - cbn [bcast_val shape].
    destruct (shape_eqb (1 :: shape z) (shape x)) eqn:E1; [|exact Hh].
    apply shape_eqb_eq in E1. rewrite <- E1. reflexivity.
  - cbn [bcast_val data]. apply map2_zero_l with (z := szero); [exact Hk|exact H0|].
    destruct (bcast_numel _ _ G) as [Hn _].
    unfold wf in Hz, Hx. rewrite Hz, Hx, Hn. apply le_n.
Qed.

Lemma settled_data (x y : tensor A) :
  settled x y -> wf x -> hd 0 (shape x) = 1 -> wf y /\ data y = data x.
Proof.
  intros [E | ->] Hw Hh.
  - apply guarded_Ok_inv in E as [_ ->]. split.
    + apply wf_index0_val; [exact Hw|lia].
    + cbn [index0_val data]. apply block_all.
      unfold wf in Hw. rewrite Hw.
      destruct (shape x) as [|a s]; cbn in Hh; [discriminate|].
      subst a. cbn [tl]. rewrite numel_cons. lia.
  - split; [apply wf_squeeze, Hw|reflexivity].
Qed.

(** One timestep with an all-zero residual hands the root position on. *)
Lemma root_step dec q_dim (l : locals A) :
  decoder_well_formed dec -> zero_residual dec ->
  decoded_by dec l -> residual_applied q_dim l ->
  wf (root_p_t l) -> zero_neutral_on (root_p_t l) ->
  wf (root_pred l) /\ data (root_pred l) = data (root_p_t l).
Proof.
  intros Hwf H0 (h & Hh) (dq & rp & _ & _ & Hrv & Hrp & Hset) Hp Hk.
  destruct (Hwf h) as [Hw Hl]. specialize (H0 h).
  rewrite <- Hh in Hw, Hl, H0.
  assert (Hv : wf (root_v_pred l) /\ hd 0 (shape (root_v_pred l)) = 1)
    by (eapply slice2_lead; [exact Hrv|exact Hw|exact Hl]).
  destruct Hv as [Hwv Hlv].
  assert (H0v : Forall (eq szero) (data (root_v_pred l)))
    by (eapply slice2_zero; [exact Hrv|exact H0]).
  assert (Hr : wf rp /\ hd 0 (shape rp) = 1 /\ data rp = data (root_p_t l))
    by (eapply tadd_zero_l;
        [exact Hrp|exact Hwv|exact Hp|exact Hlv|exact H0v|exact Hk]).
  destruct Hr as (Hwr & Hlr & Hdr).
  assert (Hs : wf (root_pred l) /\ data (root_pred l) = data rp)
    by (eapply settled_data; [exact Hset|exact Hwr|exact Hlr]).
  destruct Hs as [Hwp Hdp].
  split; [exact Hwp|]. rewrite Hdp. exact Hdr.
Qed.

(** Along a rollout whose timesteps all hand the root position on, it
    stays the one of the teacher frame. *)
Lemma root_stays_along offset contact_is (b : batch A) snaps r0 :
  dataflow offset contact_is b snaps ->
  (forall l, In l snaps -> wf (root_p_t l) -> zero_neutral_on (root_p_t l) ->
             wf (root_pred l) /\ data (root_pred l) = data (root_p_t l)) ->
  wf (root_p b) -> select1 offset (root_p b) = Ok r0 -> zero_neutral_on r0 ->
  forall t l, nth_error snaps t = Some l ->
    wf (root_pred l) /\ data (root_pred l) = data r0.
Proof.
  intros Hflow Hstep Hwb Hr0 Hk. induction t as [|t IH]; intros l Hl.
  - destruct (Hflow 0 l Hl) as [_ (Hp & _)].
    rewrite Hr0 in Hp. inversion Hp as [Hp'].
    apply guarded_Ok_inv in Hr0 as [G ->].
    destruct (Hstep l (nth_error_In _ _ Hl)) as [Hw Hd].
    { rewrite <- Hp'. apply wf_select1_val; assumption. }
    { rewrite <- Hp'. exact Hk. }
    split; [exact Hw|]. rewrite Hd, <- Hp'. reflexivity.
  - destruct (Hflow (S t) l Hl) as [_ (e & He & Hp & _)].
    destruct (IH e He) as [Hwe Hde].
    destruct (Hstep l (nth_error_In _ _ Hl)) as [Hw Hd].
    { rewrite Hp. exact Hwe. }
    { unfold zero_neutral_on. rewrite Hp, Hde. exact Hk. }
    split; [exact Hw|]. rewrite Hd, Hp. exact Hde.
Qed.

End RootStays.

(** In float32 adding zero changes nothing but a negative zero. *)
Lemma float32_zero_neutral (x : float32) :
  x <> SpecFloat.S754_zero true -> sadd szero x = x.
Proof.
  intros Hx. destruct x as [[|]| | |]; try reflexivity.
  exfalso. apply Hx. reflexivity.
Qed.

Section Quaternions.
Context {A : Type} `{Scalar A}.





End Quaternions.

Section StubDecoder.
Context {A : Type} `{Scalar A}.

Lemma const_decoder_well_formed (residual : list A) :
  length residual = 4 ->
  decoder_well_formed (Fixture.const_decoder residual).
Proof.
  intros Hr h. split; [|reflexivity].
  unfold wf, Fixture.const_decoder. cbn [fst data shape].
  rewrite length_flat_map_const
    with (c := Fixture.joints * 4 + Fixture.root_dim).
  - rewrite length_seq. cbn [numel fold_right]. lia.
  - intros x _. rewrite length_app, repeat_length.
    rewrite length_flat_map_const with (c := 4).
    + rewrite length_seq. reflexivity.
    + intros y _. exact Hr.
Qed.

Lemma const_decoder_zero :
  zero_residual (Fixture.const_decoder (A:=A) Fixture.no_residual).
Proof.
  intros h. unfold Fixture.const_decoder. cbn [fst data].
  apply Forall_flat_map. intros x _. apply Forall_app. split.
  - apply Forall_flat_map. intros y _. repeat constructor.
  - apply Forall_forall. intros y Hy. apply repeat_spec in Hy. auto.
Qed.
End StubDecoder.

(** C7.  A rollout that completes, in training and in inference, has made
    [training_frames] timesteps, and in every one of them the decoder's
    output is consumed as a residual: the absolute quaternions are its
    rotation block plus the quaternions fed to the timestep, the root
    position is its root-velocity block plus the root position fed to the
    timestep, and from the second timestep on what is fed is what the
    timestep before predicted.  So with a decoder that emits zeros only,
    the predicted root position holds at every frame the values of the
    root position of the window's first frame, provided adding zero leaves
    those values as they are (in float32: none of them is a negative
    zero). *)
Theorem decoder_output_is_a_residual
    {A Hid : Type} `{Scalar A}
    (tr : Train.setup A Hid) b lo tg tn w w' s
    (te : Test.profile A Hid) ft i b2 lo2 tg2 p0 w2 w2' s2 :
  Train.rollout tr b lo tg tn w = (w', Ok s) ->
  for_range (Test.training_frames te) (Test.body te ft i b2 lo2 tg2)
            (Test.mkState None [p0] [] [] []) w2 = (w2', Ok s2) ->
  length (Train.snapshots s) = Train.training_frames tr
  /\ length (Test.snapshots s2) = Test.training_frames te
  /\ (forall t l, nth_error (Train.snapshots s) t = Some l ->
     residual_applied (Train.local_q_dim tr) l
     /\ decoded_by (decoder (Train.nets tr)) l
     /\ forall t', t = S t' ->
          exists e, nth_error (Train.snapshots s) t' = Some e
                    /\ root_p_t l = root_pred e
                    /\ index0 0 (local_q_pred e) = Ok (local_q_t l))
  /\ (forall t sh, nth_error (Test.snapshots s2) t = Some sh ->
        residual_applied (Test.local_q_dim te) (Test.vars sh)
        /\ (decoded_by (decoder (Test.pkl te)) (Test.vars sh)
            \/ decoded_by (decoder_run (Test.onnx te)) (Test.vars sh))
        /\ forall t', t = S t' ->
             exists e, nth_error (Test.snapshots s2) t' = Some e
                       /\ root_p_t (Test.vars sh) = root_pred (Test.vars e)
                       /\ index0 0 (local_q_pred (Test.vars e))
                          = Ok (local_q_t (Test.vars sh)))
  /\ (wf (root_p b) ->
      decoder_well_formed (decoder (Train.nets tr)) ->
      zero_residual (decoder (Train.nets tr)) ->
      forall r0 l, select1 10 (root_p b) = Ok r0 ->
                   zero_neutral_on r0 ->
                   In l (Train.snapshots s) ->
                   data (root_pred l) = data r0)
  /\ (wf (root_p b2) ->
      decoder_well_formed (decoder (Test.pkl te)) ->
      zero_residual (decoder (Test.pkl te)) ->
      decoder_well_formed (decoder_run (Test.onnx te)) ->
      zero_residual (decoder_run (Test.onnx te)) ->
      forall r0 sh, select1 9 (root_p b2) = Ok r0 ->
                    zero_neutral_on r0 ->
                    In sh (Test.snapshots s2) ->
                    data (root_pred (Test.vars sh)) = data r0).
Proof.
  intros E1 E2.
  apply train_rollout_history in E1 as [L1 (_ & _ & _ & _ & Hflow & Hall)].
  apply test_rollout_history in E2 as [L2 (_ & _ & _ & Hflow2 & _ & Hall2)].
  rewrite Forall_forall in Hall, Hall2.
  split; [exact L1|]. split; [exact L2|].
  split; [|split; [|split]].
  - intros t l Hl.
    destruct (Hall l (nth_error_In _ _ Hl)) as (Hd & Hr & _).
    split; [exact Hr|]. split; [exact Hd|].
    intros t' ->. destruct (Hflow (S t') l Hl) as [_ (e & He & Hp & _ & Hq & _)].
    exists e. auto.
  - intros t sh Hl.
    destruct (Hall2 sh (nth_error_In _ _ Hl)) as (Hd & Hr & _).
    split; [exact Hr|]. split; [exact Hd|].
    intros t' ->.
    destruct (Hflow2 (S t') (Test.vars sh)) as [_ (e & He & Hp & _ & Hq & _)].
    { rewrite nth_error_map, Hl. reflexivity. }
    rewrite nth_error_map in He.
    destruct (nth_error (Test.snapshots s2) t') as [sh'|] eqn:E'; [|discriminate].
    inversion He; subst e. exists sh'. auto.
  - intros Hwb Hwf H0 r0 l Hr0 Hk Hin.
    apply In_nth_error in Hin as [t Ht].
    eapply root_stays_along; [exact Hflow| |exact Hwb|exact Hr0|exact Hk|exact Ht].
    intros l' Hl' Hw Hk'. destruct (Hall l' Hl') as (Hd & Hr & _).
    eapply root_step; [exact Hwf|exact H0|exact Hd|exact Hr|exact Hw|exact Hk'].
  - intros Hwb Hwf H0 Hwf' H0' r0 sh Hr0 Hk Hin.
    apply In_nth_error in Hin as [t Ht].
    eapply root_stays_along; [exact Hflow2| |exact Hwb|exact Hr0|exact Hk|].
    + intros l' Hl' Hw Hk'. apply in_map_iff in Hl' as (sh' & <- & Hsh').
      destruct (Hall2 sh' Hsh') as ([Hd|Hd] & Hr & _).
      * eapply root_step; [exact Hwf|exact H0|exact Hd|exact Hr|exact Hw|exact Hk'].
      * eapply root_step; [exact Hwf'|exact H0'|exact Hd|exact Hr|exact Hw|exact Hk'].
    + instantiate (1 := t). rewrite nth_error_map, Ht. reflexivity.
Qed.

(** The regression fixture in float32, three timesteps in training and in
    inference with a decoder stubbed to emit zeros: the root position
    stays at the one of the first frame, all ones, throughout. *)
Lemma decoder_output_is_a_residual_witness :
  exists w' s w2' s2,
    Train.rollout (Fixture.train_setup (A:=float32) Fixture.no_residual 3)
                  (Fixture.sample_batch 2 14)
                  (mkT [2; 8] (Fixture.identity_quats 4))
                  (mkT [2; 8] (Fixture.identity_quats 4))
                  (full [2; 512] szero) Fixture.w0 = (w', Ok s)
    /\ for_range 3
         (Test.body (Fixture.test_profile (A:=float32) Fixture.no_residual 3 2 [])
                    "PKL" 0 (Fixture.sample_batch 2 12)
                    (mkT [2; 8] (Fixture.identity_quats 4))
                    (mkT [2; 8] (Fixture.identity_quats 4)))
         (Test.mkState None [full [Fixture.joints; 3] sone] [] [] [])
         Fixture.w0 = (w2', Ok s2)
    /\ length (Train.snapshots s) = 3
    /\ length (Test.snapshots s2) = 3
    /\ (forall l, In l (Train.snapshots s) ->
                  data (root_pred l) = repeat sone 6)
    /\ (forall sh, In sh (Test.snapshots s2) ->
                   data (root_pred (Test.vars sh)) = repeat sone 6).
Proof.
  eexists. eexists. eexists. eexists.
  assert (E1 : Train.rollout (Fixture.train_setup (A:=float32) Fixture.no_residual 3)
                  (Fixture.sample_batch 2 14)
                  (mkT [2; 8] (Fixture.identity_quats 4))
                  (mkT [2; 8] (Fixture.identity_quats 4))
                  (full [2; 512] szero) Fixture.w0 = (_, Ok _))
    by (vm_compute; reflexivity).
  assert (E2 : for_range
                 (Test.training_frames
                    (Fixture.test_profile (A:=float32) Fixture.no_residual 3 2 []))
                 (Test.body (Fixture.test_profile (A:=float32) Fixture.no_residual 3 2 [])
                            "PKL" 0 (Fixture.sample_batch 2 12)
                            (mkT [2; 8] (Fixture.identity_quats 4))
                            (mkT [2; 8] (Fixture.identity_quats 4)))
                 (Test.mkState None [full [Fixture.joints; 3] sone] [] [] [])
                 Fixture.w0 = (_, Ok _))
    by (vm_compute; reflexivity).
  destruct (@decoder_output_is_a_residual _ _ _
              (Fixture.train_setup (A:=float32) Fixture.no_residual 3) _ _ _ _ _ _ _
              (Fixture.test_profile (A:=float32) Fixture.no_residual 3 2 [])
              _ _ _ _ _ _ _ _ _ E1 E2) as (L1 & L2 & _ & _ & H3 & H4).
  split; [exact E1|]. split; [exact E2|].
  split; [exact L1|]. split; [exact L2|]. split.
  - intros l Hl.
    apply (H3 (eq_refl : wf (root_p (Fixture.sample_batch (A:=float32) 2 14)))
              (const_decoder_well_formed Fixture.no_residual eq_refl)
              const_decoder_zero
              (select1_val 10 (root_p (Fixture.sample_batch (A:=float32) 2 14)))
              l eq_refl).
    + vm_compute. repeat constructor.
    + exact Hl.
  - intros sh Hl.
    apply (H4 (eq_refl : wf (root_p (Fixture.sample_batch (A:=float32) 2 12)))
              (const_decoder_well_formed Fixture.no_residual eq_refl)
              const_decoder_zero
              (const_decoder_well_formed Fixture.no_residual eq_refl)
              const_decoder_zero
              (select1_val 9 (root_p (Fixture.sample_batch (A:=float32) 2 12)))
              sh eq_refl).
    + vm_compute. repeat constructor.
    + exact Hl.
Defined.




(* ===================================================================== *)
(** * Further properties of the two loops *)

Section WindowRun.
Context {A Hid : Type} `{Scalar A}.

(** A window of the inference loop that returned, taken apart. *)
Lemma test_window_run (cfg : Test.profile A Hid) ft i b w w' s :
  Test.window cfg ft i b w = (w', Ok s) ->
  exists p0 lo tg w1 w2,
    rbind (index0 (Test.inference_batch_index cfg) (global_pos b)) (index0 (0 + 9))
    = Ok p0
    /\ view2 (Train.batch_len b) (local_q_offset b) = Ok lo
    /\ view2 (Train.batch_len b) (q_target b) = Ok tg
    /\ log w1 = log w
                ++ FrameRead (0 + 9) (nth 1 (shape (global_pos b)) 0)
                :: (if (ft =? "PKL")%string
                    then [InitHidden (Train.batch_len b)] else [])
    /\ rng w1 = rng w
    /\ for_range (Test.training_frames cfg) (Test.body cfg ft i b lo tg)
                 (Test.mkState None [p0] [] [] []) w1 = (w2, Ok s)
    /\ log w' = log w2 ++ [SaveGif i]
    /\ rng w' = rng w2.
Proof.
  unfold Test.window. intros E.
  apply bind_Ok_inv in E as (p0 & wa & E0 & E).
  assert (Hra : rng wa = rng w).
  { unfold Test.frame_of, bind, tell, lift in E0.
    destruct (rbind _ _); inversion E0; reflexivity. }
  apply frame_of_Ok_inv in E0 as [E0 L0].
  apply bind_Ok_inv in E as (lo & wb & Elo & E).
  apply lift_Ok_inv in Elo as [Elo ->].
  apply bind_Ok_inv in E as (tg & wc & Etg & E).
  apply lift_Ok_inv in Etg as [Etg ->].
  apply bind_Ok_inv in E as (u & w1 & Ei & E).
  apply bind_Ok_inv in E as (s1 & w2 & Er & E).
  apply bind_Ok_inv in E as (u' & w3 & Eg & E).
  apply ret_Ok_inv in E as [-> ->].
  exists p0, lo, tg, w1, w2.
  split; [exact E0|]. split; [exact Elo|]. split; [exact Etg|].
  assert (Hi : log w1 = log wa ++ (if (ft =? "PKL")%string
                                   then [InitHidden (Train.batch_len b)] else [])
               /\ rng w1 = rng wa).
  { destruct (ft =? "PKL")%string.
    - unfold Test.init_hidden in Ei. inversion Ei. split; reflexivity.
    - apply ret_Ok_inv in Ei as [_ ->]. rewrite app_nil_r. split; reflexivity. }
  destruct Hi as [Li Ri].
  split; [rewrite Li, L0, <- app_assoc; reflexivity|].
  split; [congruence|]. split; [exact Er|].
  unfold tell in Eg. inversion Eg. split; reflexivity.
Qed.
End WindowRun.

Section FramesNeeded.
Context {A Hid : Type} `{Scalar A}.

Lemma select1_Ok_bound k (x y : tensor A) :
  select1 k x = Ok y -> k < nth 1 (shape x) 0.
Proof.
  intros E. apply guarded_Ok_inv in E as [G _].
  unfold select1_guard in G.
  destruct (shape x) as [|a [|t r]]; try discriminate.
  apply Nat.ltb_lt in G. exact G.
Qed.

Lemma index2_Ok_bound i k (x y : tensor A) :
  rbind (index0 i x) (index0 k) = Ok y ->
  i < hd 0 (shape x) /\ k < nth 1 (shape x) 0.
Proof.
  intros E. apply rbind_Ok_inv in E as (z & E1 & E2).
  apply guarded_Ok_inv in E1 as [G1 ->].
  apply guarded_Ok_inv in E2 as [G2 _].
  apply Nat.ltb_lt in G1, G2. split; [exact G1|].
  cbn [index0_val shape] in G2.
  destruct (shape x) as [|a [|t r]]; cbn in *; try lia.
Qed.

(** The frames a timestep of the training loop that returned has read. *)
Lemma train_body_reads (cfg : Train.setup A Hid) b lo tg tn t s w w' s' :
  Train.body cfg b lo tg tn t s w = (w', Ok s') ->
  (forall x, In x [global_pos b; global_rot b; local_q b; root_p b; contact b] ->
             t + 11 < nth 1 (shape x) 0)
  /\ (t = 0 -> 10 < nth 1 (shape (root_v b)) 0).
Proof.
  unfold Train.body, Train.timestep, Train.appends. intros Hb.
  tinv.
  all: repeat match goal with
       | E : select1 _ _ = Ok _ |- _ => apply select1_Ok_bound in E
       end.
  all: split; [intros gt Hgt; cbn [In] in Hgt;
               repeat (destruct Hgt as [<-|Hgt]; [lia|]); contradiction|].
  all: try (apply Nat.eqb_neq in Heqb0).
  all: intros Ht; first [congruence | lia].
Qed.

(** The frames a timestep of the inference loop that returned has read. *)
Lemma test_body_reads (cfg : Test.profile A Hid) ft i b lo tg t s w w' s' :
  Test.body cfg ft i b lo tg t s w = (w', Ok s') ->
  Test.inference_batch_index cfg < hd 0 (shape (global_pos b))
  /\ t + 9 < nth 1 (shape (global_pos b)) 0
  /\ Test.training_frames cfg - 1 + 9 < nth 1 (shape (global_pos b)) 0
  /\ (t = 0 -> forall x, In x [root_p b; root_v b; local_q b; contact b] ->
                         9 < nth 1 (shape x) 0).
Proof.
  unfold Test.body. intros Hb.
  tinv.
  all: repeat match goal with
       | E : select1 _ _ = Ok _ |- _ => apply select1_Ok_bound in E
       | E : rbind (index0 _ _) (index0 _) = Ok _ |- _ =>
           apply index2_Ok_bound in E; destruct E
       end.
  all: try (apply Nat.eqb_neq in Heqb0).
  all: split; [assumption|]; split; [lia|]; split; [lia|].
  all: intros Ht; try congruence.
  all: intros gt Hgt; cbn [In] in Hgt;
       repeat (destruct Hgt as [<-|Hgt]; [lia|]); contradiction.
Qed.
End FramesNeeded.

(** X1.  A rollout of at least one timestep completes only on a window that
    is long enough: in training every tensor read for the loss targets
    holds at least [training_frames + 11] frames and [root_v] at least 11;
    in inference [global_pos] holds at least [training_frames + 9] frames,
    the four input tensors at least 10, and [inference_batch_index] is a
    sample of the batch. *)
Theorem completed_rollout_had_the_frames
    {A Hid : Type} `{Scalar A}
    (tr : Train.setup A Hid) b lo tg tn w w' s
    (te : Test.profile A Hid) ft i b2 lo2 tg2 s0 w2 w2' s2 :
  1 <= Train.training_frames tr ->
  1 <= Test.training_frames te ->
  Train.rollout tr b lo tg tn w = (w', Ok s) ->
  for_range (Test.training_frames te) (Test.body te ft i b2 lo2 tg2) s0 w2
  = (w2', Ok s2) ->
  (forall x, In x [global_pos b; global_rot b; local_q b; root_p b; contact b] ->
             Train.training_frames tr + 11 <= nth 1 (shape x) 0)
  /\ 11 <= nth 1 (shape (root_v b)) 0
  /\ Test.training_frames te + 9 <= nth 1 (shape (global_pos b2)) 0
  /\ (forall x, In x [root_p b2; root_v b2; local_q b2; contact b2] ->
                10 <= nth 1 (shape x) 0)
  /\ Test.inference_batch_index te < hd 0 (shape (global_pos b2)).
Proof.
  intros H1 H2 E1 E2. unfold Train.rollout in E1.
  (* the last and the first timestep of each loop *)
  destruct (Train.training_frames tr) as [|n] eqn:En; [lia|].
  destruct (Test.training_frames te) as [|m] eqn:Em; [lia|].
  pose proof E1 as F1.
  apply for_range_prefix with (k := 1) in F1 as (wa & sa & F1); [|lia].
  rewrite for_range_S in E1, F1.
  apply bind_Ok_inv in E1 as (s1 & w1 & _ & L1).
  apply bind_Ok_inv in F1 as (s1' & w1' & _ & L1').
  apply train_body_reads in L1 as [R1 _].
  apply train_body_reads in L1' as [_ R1'].
  pose proof E2 as F2.
  apply for_range_prefix with (k := 1) in F2 as (wb & sb & F2); [|lia].
  rewrite for_range_S in E2, F2.
  apply bind_Ok_inv in E2 as (s3 & w3 & _ & L2).
  apply bind_Ok_inv in F2 as (s3' & w3' & _ & L2').
  apply test_body_reads in L2 as (Hi & R2 & _).
  apply test_body_reads in L2' as (_ & _ & _ & R2').
  split; [intros x Hx; specialize (R1 x Hx); lia|].
  split; [specialize (R1' eq_refl); lia|].
  split; [lia|].
  split; [intros x Hx; specialize (R2' eq_refl x Hx); lia|exact Hi].
Qed.

Lemma completed_rollout_had_the_frames_witness :
  exists w' s w2' s2,
    Train.rollout (Fixture.train_setup (A:=Z) Fixture.no_residual 3)
                  (Fixture.sample_batch 2 14)
                  (mkT [2; 8] (Fixture.identity_quats 4))
                  (mkT [2; 8] (Fixture.identity_quats 4))
                  (full [2; 512] 0%Z) Fixture.w0 = (w', Ok s)
    /\ for_range 3 (Test.body (Fixture.test_profile (A:=Z) Fixture.no_residual 3 2 [])
                              "PKL" 0 (Fixture.sample_batch 2 12)
                              (mkT [2; 8] (Fixture.identity_quats 4))
                              (mkT [2; 8] (Fixture.identity_quats 4)))
                 (Test.mkState None [full [Fixture.joints; 3] 1%Z] [] [] [])
                 Fixture.w0 = (w2', Ok s2)
    /\ 3 + 11 <= nth 1 (shape (global_pos (Fixture.sample_batch (A:=Z) 2 14))) 0
    /\ 3 + 9 <= nth 1 (shape (global_pos (Fixture.sample_batch (A:=Z) 2 12))) 0.
Proof.
  eexists. eexists. eexists. eexists.
  assert (E1 : Train.rollout (Fixture.train_setup (A:=Z) Fixture.no_residual 3)
                  (Fixture.sample_batch 2 14)
                  (mkT [2; 8] (Fixture.identity_quats 4))
                  (mkT [2; 8] (Fixture.identity_quats 4))
                  (full [2; 512] 0%Z) Fixture.w0 = (_, Ok _))
    by (vm_compute; reflexivity).
  assert (E2 : for_range 3 (Test.body (Fixture.test_profile (A:=Z) Fixture.no_residual 3 2 [])
                              "PKL" 0 (Fixture.sample_batch 2 12)
                              (mkT [2; 8] (Fixture.identity_quats 4))
                              (mkT [2; 8] (Fixture.identity_quats 4)))
                 (Test.mkState None [full [Fixture.joints; 3] 1%Z] [] [] [])
                 Fixture.w0 = (_, Ok _))
    by (vm_compute; reflexivity).
  assert (N1 : 1 <= Train.training_frames
                      (Fixture.train_setup (A:=Z) Fixture.no_residual 3))
    by (simpl; lia).
  assert (N2 : 1 <= Test.training_frames
                      (Fixture.test_profile (A:=Z) Fixture.no_residual 3 2 []))
    by (simpl; lia).
  destruct (@completed_rollout_had_the_frames _ _ _
              (Fixture.train_setup (A:=Z) Fixture.no_residual 3) _ _ _ _ _ _ _
              (Fixture.test_profile (A:=Z) Fixture.no_residual 3 2 [])
              _ _ _ _ _ _ _ _ _ N1 N2 E1 E2) as (H1 & _ & H3 & _).
  split; [exact E1|]. split; [exact E2|]. split; [|exact H3].
  apply H1. left. reflexivity.
Defined.

Section Gifs.
Context {A Hid : Type} `{Scalar A}.

Lemma test_may_emit_no_gif (cfg : Test.profile A Hid) i b t e :
  test_may_emit cfg i b t e -> is_save_gif e = false.
Proof.
  intros [->|[(q & r & -> & _)|[(f & q & p & ->)|[(pfx & st & ib & tg & ->)
         |[(_ & x & _ & ->)|[(k & _ & ->)|[(_ & ->)|(_ & ->)]]]]]]];
    reflexivity.
Qed.

(** The one animation a window saves is the last thing it does. *)
Lemma test_window_gif (cfg : Test.profile A Hid) ft i b w w' s :
  Test.window cfg ft i b w = (w', Ok s) ->
  exists evs, log w' = log w ++ evs /\ filter is_save_gif evs = [SaveGif i].
Proof.
  intros E.
  apply test_window_run in E
    as (p0 & lo & tg & w1 & w2 & _ & _ & _ & L1 & _ & Er & L2 & _).
  destruct (test_rollout_emits cfg ft i b lo tg
              (Test.mkState None [p0] [] [] []) w1) as (evs & El & Hall).
  rewrite Er in El. cbn [fst] in El.
  eexists. split; [rewrite L2, El, L1, <- !app_assoc; reflexivity|].
  cbn [app filter is_save_gif].
  rewrite !filter_app.
  rewrite (@filter_none _ is_save_gif evs).
  - destruct (ft =? "PKL")%string; reflexivity.
  - eapply Forall_impl; [|exact Hall].
    intros e (t & _ & He). eapply test_may_emit_no_gif; eauto.
Qed.
End Gifs.

(** X2.  The inference loop ends at the first batch whose size is not the
    configured one, wherever it stands in the loader: the run is the run
    over the batches before it.  When it completes, each of those has been
    rolled out and has saved its animation under its index in the loader,
    and nothing has been saved for the odd batch or for any batch after
    it, full or not. *)
Theorem inference_ends_at_first_odd_batch
    {A Hid : Type} `{Scalar A}
    (te : Test.profile A Hid) ft fulls odd rest :
  (forall b, In b fulls -> Train.batch_len b = Test.batch_size te) ->
  Train.batch_len odd <> Test.batch_size te ->
  forall i w,
    Test.batches te ft i (fulls ++ odd :: rest) w = Test.batches te ft i fulls w
    /\ (forall w' ss,
          Test.batches te ft i (fulls ++ odd :: rest) w = (w', Ok ss) ->
          length ss = length fulls
          /\ exists evs,
               log w' = log w ++ evs
               /\ filter is_save_gif evs
                  = map (fun k => SaveGif (i + k)) (seq 0 (length fulls))).
Proof.
  intros Hfull Hodd.
  assert (Heq : forall i w,
            Test.batches te ft i (fulls ++ odd :: rest) w
            = Test.batches te ft i fulls w).
  { induction fulls as [|b fulls' IH]; intros i w.
    - cbn [app Test.batches].
      destruct (Nat.eqb_spec (Test.batch_size te) (Train.batch_len odd));
        [congruence|reflexivity].
    - cbn [app Test.batches].
      rewrite (Hfull b (or_introl eq_refl)), Nat.eqb_refl. cbn [negb].
      unfold bind.
      destruct (Test.window te ft i b w) as [w1 [s|e]]; [|reflexivity].
      rewrite IH; [reflexivity|].
      intros b' Hb'. apply Hfull. right. exact Hb'. }
  intros i w. split; [apply Heq|].
  intros w' ss E. rewrite Heq in E. clear Heq Hodd.
  revert i w w' ss E.
  induction fulls as [|b fulls' IH]; intros i w w' ss E.
  - cbn in E. inversion E; subst. split; [reflexivity|].
    exists []. rewrite app_nil_r. split; reflexivity.
  - cbn [Test.batches] in E.
    rewrite (Hfull b (or_introl eq_refl)), Nat.eqb_refl in E. cbn [negb] in E.
    apply bind_Ok_inv in E as (s & w1 & Ew & E).
    apply bind_Ok_inv in E as (ss' & w2 & E & E').
    apply ret_Ok_inv in E' as [-> ->].
    apply IH in E as (Hlen & evs & El & Hg);
      [|intros b' Hb'; apply Hfull; right; exact Hb'].
    apply test_window_gif in Ew as (evs1 & El1 & Hg1).
    split; [cbn [length]; rewrite Hlen; reflexivity|].
    exists (evs1 ++ evs).
    split; [rewrite El, El1, <- !app_assoc; reflexivity|].
    rewrite filter_app, Hg, Hg1. cbn [length seq map app].
    rewrite Nat.add_0_r. f_equal.
    rewrite <- seq_shift, map_map.
    apply map_ext. intros k. f_equal. lia.
Qed.

Lemma inference_ends_at_first_odd_batch_witness :
  Train.batch_len (Fixture.sample_batch (A:=Z) 1 12) <> 2
  /\ Test.batches (Fixture.test_profile (A:=Z) Fixture.no_residual 3 2 []) "PKL" 0
       ([Fixture.sample_batch 2 12]
        ++ Fixture.sample_batch 1 12 :: [Fixture.sample_batch 2 12]) Fixture.w0
     = Test.batches (Fixture.test_profile (A:=Z) Fixture.no_residual 3 2 []) "PKL" 0
         [Fixture.sample_batch 2 12] Fixture.w0.
Proof.
  assert (Hodd : Train.batch_len (Fixture.sample_batch (A:=Z) 1 12)
                 <> Test.batch_size
                      (Fixture.test_profile (A:=Z) Fixture.no_residual 3 2 []))
    by (vm_compute; lia).
  assert (Hfull : forall b, In b [Fixture.sample_batch (A:=Z) 2 12] ->
            Train.batch_len b
            = Test.batch_size
                (Fixture.test_profile (A:=Z) Fixture.no_residual 3 2 [])).
  { intros b [<-|[]]. reflexivity. }
  split; [exact Hodd|].
  exact (proj1 (@inference_ends_at_first_odd_batch _ _ _ _ "PKL"%string _ _
                  [Fixture.sample_batch 2 12] Hfull Hodd 0 Fixture.w0)).
Defined.

Section Outputs.
Context {A Hid : Type} `{Scalar A}.

Lemma json_files_app (l1 l2 : list (event A)) :
  json_files (l1 ++ l2) = json_files l1 ++ json_files l2.
Proof. apply flat_map_app. Qed.

Lemma plots_app (l1 l2 : list (event A)) :
  plots (l1 ++ l2) = plots l1 ++ plots l2.
Proof. apply flat_map_app. Qed.

(** What a timestep of the inference loop that returned has written and
    drawn. *)
Lemma test_body_outputs (cfg : Test.profile A Hid) ft i b lo tg t s w w' s' :
  Test.body cfg ft i b lo tg t s w = (w', Ok s') ->
  exists evs sh q r,
    log w' = log w ++ evs
    /\ json_files evs = step_files i t
    /\ plots evs = step_plots t
    /\ Test.snapshots s' = Test.snapshots s ++ [sh]
    /\ index0 (Test.inference_batch_index cfg) (local_q_pred_ (Test.vars sh)) = Ok q
    /\ index0 (Test.inference_batch_index cfg) (root_pred (Test.vars sh)) = Ok r
    /\ In (WriteJson i (FrameJson t) q r) evs.
Proof.
  unfold Test.body. intros Hb.
  tinv.
  all: try (apply Nat.eqb_eq in Heqb0; subst t).
  all: try (apply Nat.eqb_neq in Heqb0).
  all: chain_logs.
  all: eexists; eexists; eexists; eexists.
  all: split; [reflexivity|].
  all: split; [try (destruct t; [congruence|]); reflexivity|].
  all: split; [reflexivity|].
  all: split; [proj_locals; reflexivity|].
  all: proj_locals.
  all: split; [eassumption|]; split; [eassumption|].
  all: cbn [In]; repeat (first [left; reflexivity | right]).
Qed.

Lemma test_loop_outputs (cfg : Test.profile A Hid) ft i b lo tg k s0 w w' s :
  for_range k (Test.body cfg ft i b lo tg) s0 w = (w', Ok s) ->
  exists evs,
    log w' = log w ++ evs
    /\ json_files evs = flat_map (step_files i) (seq 0 k)
    /\ plots evs = flat_map step_plots (seq 0 k)
    /\ exists shs,
         Test.snapshots s = Test.snapshots s0 ++ shs
         /\ length shs = k
         /\ forall t sh, nth_error shs t = Some sh ->
              exists q r,
                index0 (Test.inference_batch_index cfg)
                       (local_q_pred_ (Test.vars sh)) = Ok q
                /\ index0 (Test.inference_batch_index cfg)
                          (root_pred (Test.vars sh)) = Ok r
                /\ In (WriteJson i (FrameJson t) q r) evs.
Proof.
  revert w' s. induction k as [|k IH]; intros w' s E.
  - cbn in E. inversion E; subst. exists []. rewrite app_nil_r.
    repeat split. exists []. rewrite app_nil_r. repeat split.
    intros [|t] sh Hn; discriminate.
  - rewrite for_range_S in E.
    apply bind_Ok_inv in E as (s1 & w1 & E1 & E2).
    apply IH in E1 as (evs & El & Hj & Hp & shs & Hs & Hlen & Hall).
    apply test_body_outputs in E2
      as (evs2 & sh & q & r & El2 & Hj2 & Hp2 & Hs2 & Hq & Hr & Hin).
    exists (evs ++ evs2).
    split; [rewrite El2, El, <- app_assoc; reflexivity|].
    rewrite json_files_app, plots_app, Hj, Hp, Hj2, Hp2.
    rewrite seq_S, !flat_map_app. cbn [flat_map Nat.add]. rewrite !app_nil_r.
    split; [reflexivity|]. split; [reflexivity|].
    exists (shs ++ [sh]).
    split; [rewrite Hs2, Hs, <- app_assoc; reflexivity|].
    split; [rewrite length_app, Hlen; cbn; lia|].
    intros t sh' Hn.
    destruct (Nat.lt_ge_cases t (length shs)) as [Hlt|Hge].
    + rewrite nth_error_app1 in Hn by exact Hlt.
      destruct (Hall t sh' Hn) as (q' & r' & Hq' & Hr' & Hin').
      exists q', r'. repeat split; try assumption.
      apply in_or_app. left. exact Hin'.
    + rewrite nth_error_app2 in Hn by exact Hge.
      destruct (t - length shs) as [|d] eqn:Ed; cbn in Hn; [|destruct d; discriminate].
      inversion Hn; subst sh'.
      assert (t = k) by lia. subst t.
      exists q, r. repeat split; try assumption.
      apply in_or_app. right. exact Hin.
Qed.
End Outputs.

(** X3.  A window of the inference loop that completes has written, in this
    order, [start.json] and [target.json] once, at the first timestep, and
    one pose file per timestep, which holds the rotations and the root
    position predicted at that timestep for the sample
    [inference_batch_index]; it has drawn the predicted and then the
    ground-truth plot of every timestep; and it has saved one animation,
    after all of that. *)
Theorem window_writes_its_files
    {A Hid : Type} `{Scalar A}
    (te : Test.profile A Hid) ft i b w w' s :
  Test.window te ft i b w = (w', Ok s) ->
  exists evs,
    log w' = log w ++ evs ++ [SaveGif i]
    /\ json_files evs = flat_map (step_files i) (seq 0 (Test.training_frames te))
    /\ plots evs = flat_map step_plots (seq 0 (Test.training_frames te))
    /\ filter is_save_gif evs = []
    /\ length (Test.snapshots s) = Test.training_frames te
    /\ forall t sh, nth_error (Test.snapshots s) t = Some sh ->
         exists q r,
           index0 (Test.inference_batch_index te)
                  (local_q_pred_ (Test.vars sh)) = Ok q
           /\ index0 (Test.inference_batch_index te)
                     (root_pred (Test.vars sh)) = Ok r
           /\ In (WriteJson i (FrameJson t) q r) evs.
Proof.
  intros E.
  apply test_window_run in E
    as (p0 & lo & tg & w1 & w2 & _ & _ & _ & L1 & _ & Er & L2 & _).
  destruct (test_rollout_emits te ft i b lo tg
              (Test.mkState None [p0] [] [] []) w1) as (evs0 & El0 & Hall0).
  rewrite Er in El0. cbn [fst] in El0.
  apply test_loop_outputs in Er
    as (evs & El & Hj & Hp & shs & Hs & Hlen & Hall).
  assert (evs0 = evs) by (rewrite El in El0; now apply app_inv_head in El0).
  subst evs0.
  cbn [Test.snapshots app] in Hs. subst shs.
  exists ((FrameRead (0 + 9) (nth 1 (shape (global_pos b)) 0)
           :: (if (ft =? "PKL")%string
               then [InitHidden (Train.batch_len b)] else [])) ++ evs).
  split; [rewrite L2, El, L1, <- !app_assoc; reflexivity|].
  assert (Hg : filter is_save_gif evs = []).
  { apply filter_none. eapply Forall_impl; [|exact Hall0].
    intros e (t & _ & He). eapply test_may_emit_no_gif; eauto. }
  rewrite json_files_app, plots_app, filter_app, Hj, Hp, Hg.
  split; [destruct (ft =? "PKL")%string; reflexivity|].
  split; [destruct (ft =? "PKL")%string; reflexivity|].
  split; [destruct (ft =? "PKL")%string; reflexivity|].
  split; [exact Hlen|].
  intros t sh Hn. destruct (Hall t sh Hn) as (q & r & Hq & Hr & Hin).
  exists q, r. repeat split; try assumption.
  apply in_or_app. right. exact Hin.
Qed.

Lemma window_writes_its_files_witness :
  exists w' s evs,
    Test.window (Fixture.test_profile (A:=Z) Fixture.no_residual 3 2 [])
                "PKL" 0 (Fixture.sample_batch 2 12) Fixture.w0 = (w', Ok s)
    /\ log w' = log (Fixture.w0 (A:=Z)) ++ evs ++ [SaveGif 0]
    /\ json_files evs = flat_map (step_files 0) (seq 0 3)
    /\ plots evs = flat_map step_plots (seq 0 3).
Proof.
  eexists. eexists.
  assert (E : Test.window (Fixture.test_profile (A:=Z) Fixture.no_residual 3 2 [])
                "PKL" 0 (Fixture.sample_batch 2 12) Fixture.w0 = (_, Ok _))
    by (vm_compute; reflexivity).
  destruct (@window_writes_its_files _ _ _ _ _ _ _ _ _ _ E)
    as (evs & Hl & Hj & Hp & _).
  exists evs. split; [exact E|]. split; [exact Hl|]. split; [exact Hj|exact Hp].
Defined.

Section Truth.
Context {A Hid : Type} `{Scalar A}.

(** The poses a timestep of the inference loop that returned has drawn. *)
Lemma test_body_truth (cfg : Test.profile A Hid) ft i b lo tg t s w w' s' :
  Test.body cfg ft i b lo tg t s w = (w', Ok s') ->
  exists sh evs st tgt,
    Test.snapshots s' = Test.snapshots s ++ [sh]
    /\ Test.img_gt s' = Test.img_gt s ++ [Test.in_between_true sh]
    /\ Test.pose_stack s = [Test.in_between_pose sh]
    /\ log w' = log w ++ evs
    /\ rbind (index0 (Test.inference_batch_index cfg) (global_pos b))
             (index0 (t + 9)) = Ok (Test.in_between_true sh)
    /\ rbind (index0 (Test.inference_batch_index cfg) (global_pos b))
             (index0 (0 + 9)) = Ok st
    /\ rbind (index0 (Test.inference_batch_index cfg) (global_pos b))
             (index0 (Test.training_frames cfg - 1 + 9)) = Ok tgt
    /\ In (PlotPose "pred_" t st (Test.in_between_pose sh) tgt) evs
    /\ In (PlotPose "gt_" t st (Test.in_between_true sh) tgt) evs.
Proof.
  unfold Test.body. intros Hb.
  tinv.
  all: match goal with
       | P : Test.pop0 _ = Ok _, L : (length _ =? 0) = true |- _ =>
           destruct (pop0_single _ P L) as [PS ?]; subst
       end.
  all: chain_logs.
  all: do 4 eexists; proj_locals.
  all: split; [reflexivity|]; split; [reflexivity|]; split; [eassumption|].
  all: split; [reflexivity|].
  all: split; [eassumption|]; split; [eassumption|]; split; [eassumption|].
  all: split; cbn [In]; repeat (first [left; reflexivity | right]).
Qed.

Lemma test_loop_truth (cfg : Test.profile A Hid) ft i b lo tg p0 k w w' s :
  for_range k (Test.body cfg ft i b lo tg) (Test.mkState None [p0] [] [] []) w
  = (w', Ok s) ->
  Test.img_gt s = map (@Test.in_between_true A) (Test.snapshots s)
  /\ length (Test.snapshots s) = k
  /\ exists evs,
       log w' = log w ++ evs
       /\ forall t sh, nth_error (Test.snapshots s) t = Some sh ->
            exists st tgt,
              rbind (index0 (Test.inference_batch_index cfg) (global_pos b))
                    (index0 (t + 9)) = Ok (Test.in_between_true sh)
              /\ rbind (index0 (Test.inference_batch_index cfg) (global_pos b))
                       (index0 (0 + 9)) = Ok st
              /\ rbind (index0 (Test.inference_batch_index cfg) (global_pos b))
                       (index0 (Test.training_frames cfg - 1 + 9)) = Ok tgt
              /\ In (PlotPose "pred_" t st (Test.in_between_pose sh) tgt) evs
              /\ In (PlotPose "gt_" t st (Test.in_between_true sh) tgt) evs
              /\ (t = 0 -> Test.in_between_pose sh = p0).
Proof.
  revert w' s. induction k as [|k IH]; intros w' s E.
  - cbn in E. inversion E; subst. cbn. split; [reflexivity|].
    split; [reflexivity|]. exists []. rewrite app_nil_r. split; [reflexivity|].
    intros [|t] sh Hn; discriminate.
  - rewrite for_range_S in E.
    apply bind_Ok_inv in E as (s1 & w1 & E1 & E2).
    pose proof E1 as E1'.
    apply IH in E1 as (Hg & Hlen & evs & El & Hall).
    apply test_body_truth in E2
      as (sh & evs2 & st & tgt & Hs2 & Hg2 & Hps & El2 & Ht & Hst & Htg & Hin1 & Hin2).
    split; [rewrite Hg2, Hs2, Hg, map_app; reflexivity|].
    split; [rewrite Hs2, length_app, Hlen; cbn; lia|].
    exists (evs ++ evs2).
    split; [rewrite El2, El, <- app_assoc; reflexivity|].
    intros t sh' Hn. rewrite Hs2 in Hn.
    destruct (Nat.lt_ge_cases t (length (Test.snapshots s1))) as [Hlt|Hge].
    + rewrite nth_error_app1 in Hn by exact Hlt.
      destruct (Hall t sh' Hn) as (st' & tgt' & H1 & H2 & H3 & H4 & H5 & H6).
      exists st', tgt'. repeat split; try assumption.
      * apply in_or_app; left; exact H4.
      * apply in_or_app; left; exact H5.
    + rewrite nth_error_app2 in Hn by exact Hge.
      destruct (t - length (Test.snapshots s1)) as [|d] eqn:Ed; cbn in Hn;
        [|destruct d; discriminate].
      inversion Hn; subst sh'.
      assert (t = k) by lia. subst t.
      exists st, tgt. repeat split; try assumption.
      * apply in_or_app; right; exact Hin1.
      * apply in_or_app; right; exact Hin2.
      * intros ->. destruct (Test.snapshots s1); [|discriminate].
        cbn in E1'. inversion E1'; subst. cbn in Hps. congruence.
Qed.
End Truth.

(** X4.  A window of the inference loop that completes has made
    [training_frames] timesteps and has drawn two plots in every one of
    them.  The plots of timestep [t] are drawn around the same start pose,
    frame 9, and the same target pose, frame [training_frames + 8], of the
    sample [inference_batch_index]; the ground-truth plot shows frame
    [t + 9]; and at the first timestep the predicted plot shows no
    prediction but that same frame 9. *)
Theorem plots_show_the_window
    {A Hid : Type} `{Scalar A}
    (te : Test.profile A Hid) ft i b w w' s :
  Test.window te ft i b w = (w', Ok s) ->
  length (Test.snapshots s) = Test.training_frames te
  /\ Test.img_gt s = map (@Test.in_between_true A) (Test.snapshots s)
  /\ exists evs,
       log w' = log w ++ evs
       /\ forall t, t < Test.training_frames te ->
            exists sh st tgt,
              nth_error (Test.snapshots s) t = Some sh
              /\ rbind (index0 (Test.inference_batch_index te) (global_pos b))
                       (index0 (t + 9)) = Ok (Test.in_between_true sh)
              /\ rbind (index0 (Test.inference_batch_index te) (global_pos b))
                       (index0 9) = Ok st
              /\ rbind (index0 (Test.inference_batch_index te) (global_pos b))
                       (index0 (Test.training_frames te - 1 + 9)) = Ok tgt
              /\ In (PlotPose "pred_" t st (Test.in_between_pose sh) tgt) evs
              /\ In (PlotPose "gt_" t st (Test.in_between_true sh) tgt) evs
              /\ (t = 0 -> Test.in_between_pose sh = st
                           /\ Test.in_between_true sh = st).
Proof.
  intros E.
  apply test_window_run in E
    as (p0 & lo & tg & w1 & w2 & Hp0 & _ & _ & L1 & _ & Er & L2 & _).
  apply test_loop_truth in Er as (Hg & Hlen & evs & El & Hall).
  split; [exact Hlen|]. split; [exact Hg|].
  eexists. split; [rewrite L2, El, L1, <- !app_assoc; reflexivity|].
  intros t Ht.
  destruct (nth_error (Test.snapshots s) t) as [sh|] eqn:Hn.
  2:{ apply nth_error_None in Hn. lia. }
  destruct (Hall t sh Hn) as (st & tgt & H1 & H2 & H3 & H4 & H5 & H6).
  exists sh, st, tgt. cbn [Nat.add] in *.
  split; [reflexivity|].
  split; [exact H1|]. split; [exact H2|]. split; [exact H3|].
  split; [apply in_or_app; right; apply in_or_app; left; exact H4|].
  split; [apply in_or_app; right; apply in_or_app; left; exact H5|].
  intros ->. rewrite (H6 eq_refl). cbn [Nat.add] in H1.
  split; congruence.
Qed.

Lemma plots_show_the_window_witness :
  exists w' s,
    Test.window (Fixture.test_profile (A:=Z) Fixture.no_residual 3 2 [])
                "PKL" 0 (Fixture.sample_batch 2 12) Fixture.w0 = (w', Ok s)
    /\ length (Test.snapshots s) = 3
    /\ Test.img_gt s = map (@Test.in_between_true Z) (Test.snapshots s)
    /\ exists evs,
         log w' = log (Fixture.w0 (A:=Z)) ++ evs
         /\ forall t, t < 3 ->
              exists sh st tgt,
                nth_error (Test.snapshots s) t = Some sh
                /\ In (PlotPose "pred_" t st (Test.in_between_pose sh) tgt) evs
                /\ In (PlotPose "gt_" t st (Test.in_between_true sh) tgt) evs.
Proof.
  eexists. eexists.
  assert (E : Test.window (Fixture.test_profile (A:=Z) Fixture.no_residual 3 2 [])
                "PKL" 0 (Fixture.sample_batch 2 12) Fixture.w0 = (_, Ok _))
    by (vm_compute; reflexivity).
  split; [exact E|].
  destruct (@plots_show_the_window _ _ _ _ _ _ _ _ _ _ E)
    as (Hlen & Hg & evs & Hl & Hall).
  split; [exact Hlen|]. split; [exact Hg|].
  exists evs. split; [exact Hl|].
  intros t Ht. destruct (Hall t Ht) as (sh & st & tgt & Hn & _ & _ & _ & P1 & P2 & _).
  exists sh, st, tgt. split; [exact Hn|]. split; [exact P1|exact P2].
Defined.

Section Noise.
Context {A Hid : Type} `{Scalar A}.

Lemma same_rng_refl (w : world A Hid) : same_rng w w.
Proof. reflexivity. Qed.

Lemma same_rng_trans (a b c : world A Hid) :
  same_rng a b -> same_rng b c -> same_rng a c.
Proof. unfold same_rng. congruence. Qed.

Lemma same_rng_tell (e : event A) : stable (Hid:=Hid) same_rng (tell e).
Proof. intros w. reflexivity. Qed.

Lemma same_rng_train_frame k (x : tensor A) :
  stable (Hid:=Hid) same_rng (Train.frame k x).
Proof.
  unfold Train.frame.
  apply stable_bind; [exact same_rng_trans|apply same_rng_tell|].
  intros _. apply stable_lift. exact same_rng_refl.
Qed.

Lemma same_rng_train_body (cfg : Train.setup A Hid) b lo tg tn t s :
  stable same_rng (Train.body cfg b lo tg tn t s).
Proof.
  unfold Train.body, Train.timestep, Train.appends.
  stab (@same_rng_refl) (@same_rng_trans).
  all: try apply same_rng_train_frame.
  all: intros w; unfold Train.lstm_call;
       destruct (lstm_forward _ _ _); reflexivity.
Qed.

Lemma same_rng_test_body (cfg : Test.profile A Hid) ft i b lo tg t s :
  stable same_rng (Test.body cfg ft i b lo tg t s).
Proof.
  apply test_body_stable with (P := fun _ => True).
  - exact same_rng_refl.
  - exact same_rng_trans.
  - intros e _. apply same_rng_tell.
  - intros h w. unfold Test.lstm_step.
    destruct (ft =? "ONNX")%string; [reflexivity|].
    destruct (ft =? "PKL")%string; [|reflexivity].
    destruct (lstm_forward _ _ _); reflexivity.
  - auto.
Qed.

(** A training batch that returned, taken apart. *)
Lemma train_batch_run (cfg : Train.setup A Hid) b w w' u :
  Train.train_batch cfg b w = (w', Ok u) ->
  exists lo tg w2 s,
    view2 (Train.batch_len b) (local_q_offset b) = Ok lo
    /\ view2 (Train.batch_len b) (q_target b) = Ok tg
    /\ Train.rollout cfg b lo tg
         (Train.normal cfg (rng w) [Train.batch_len b; 256 * 2])
         (mkW (lstm_init_hidden (Train.nets cfg) (Train.batch_len b))
              (S (rng w)) (log w ++ [InitHidden (Train.batch_len b)]))
       = (w2, Ok s)
    /\ rng w' = rng w2.
Proof.
  unfold Train.train_batch. intros E.
  apply bind_Ok_inv in E as (lo & wa & Elo & E).
  apply lift_Ok_inv in Elo as [Elo ->].
  apply bind_Ok_inv in E as (tg & wb & Etg & E).
  apply lift_Ok_inv in Etg as [Etg ->].
  apply bind_Ok_inv in E as (u1 & w1 & Ei & E).
  unfold Train.init_hidden in Ei. inversion Ei; subst w1 u1. clear Ei.
  apply bind_Ok_inv in E as (tn & w1 & En & E).
  unfold Train.torch_normal in En. inversion En; subst w1 tn. clear En.
  cbn [hidden rng log] in E.
  apply bind_Ok_inv in E as (s & w2 & Er & E).
  exists lo, tg, w2, s.
  split; [exact Elo|]. split; [exact Etg|]. split; [exact Er|].
  assert (St : stable same_rng
    (root_pred_stack <- lift (stack1 (Train.root_pred_list s)) ;;
     local_q_pred_stack <- lift (stack1 (Train.local_q_pred_list s)) ;;
     contact_pred_stack <- lift (stack1 (Train.contact_pred_list s)) ;;
     ' (pos_preds, pos_rot) <- Train.fk_call cfg local_q_pred_stack root_pred_stack ;;
     pos_next_stack <- lift (stack1 (Train.pos_next_list s)) ;;
     root_p_next_stack <- lift (stack1 (Train.root_p_next_list s)) ;;
     local_q_next_stack <- lift (stack1 (Train.local_q_next_list s)) ;;
     contact_next_stack <- lift (stack1 (Train.contact_next_list s)) ;;
     rot_next_stack <- lift (stack1 (Train.global_q_next_list s)) ;;
     Train.updates (A:=A) (Hid:=Hid))%m).
  { unfold Train.fk_call, Train.updates.
    stab (@same_rng_refl) (@same_rng_trans).
    all: apply same_rng_tell. }
  specialize (St w2). rewrite E in St. exact St.
Qed.
End Noise.

(** X5.  A training batch draws its target noise once: a batch that
    completes has made exactly one draw, before the rollout, and every
    timestep of the rollout is handed that one tensor; whatever its
    outcome, a rollout makes no draw.  The inference loop draws none. *)
Theorem noise_is_drawn_once_per_batch
    {A Hid : Type} `{Scalar A}
    (tr : Train.setup A Hid) (te : Test.profile A Hid) b :
  (forall w w' u, Train.train_batch tr b w = (w', Ok u) ->
     rng w' = S (rng w)
     /\ exists lo tg w1 w2 s,
          rng w1 = S (rng w)
          /\ Train.rollout tr b lo tg
               (Train.normal tr (rng w) [Train.batch_len b; 256 * 2]) w1
             = (w2, Ok s))
  /\ (forall lo tg tn w, rng (fst (Train.rollout tr b lo tg tn w)) = rng w)
  /\ (forall ft i w, rng (fst (Test.window te ft i b w)) = rng w).
Proof.
  assert (Hroll : forall lo tg tn w,
            rng (fst (Train.rollout tr b lo tg tn w)) = rng w).
  { intros lo tg tn. unfold Train.rollout.
    apply (stable_for_range (R:=same_rng));
      [exact same_rng_refl|exact same_rng_trans|].
    intros t s _. apply same_rng_train_body. }
  split; [|split; [exact Hroll|]].
  - intros w w' u E.
    apply train_batch_run in E as (lo & tg & w2 & s & _ & _ & Er & Hr).
    match type of Er with
    | Train.rollout _ _ _ _ ?tn ?w1 = _ => pose proof (Hroll lo tg tn w1) as Hk
    end.
    rewrite Er in Hk. cbn [fst rng] in Hk.
    split; [congruence|].
    do 5 eexists. split; [|exact Er]. reflexivity.
  - intros ft i.
    assert (St : stable same_rng (Test.window te ft i b)); [|exact St].
    unfold Test.window.
    stab (@same_rng_refl A Hid) (@same_rng_trans A Hid).
    all: try apply same_rng_tell.
    all: try (intros w; reflexivity).
    all: try (eapply stable_frame_of with (P := fun _ => True);
              [exact same_rng_trans|intros e _; apply same_rng_tell|exact I]).
    all: apply (stable_for_range (R:=same_rng));
         [exact same_rng_refl|exact same_rng_trans|];
         intros t s' _; apply same_rng_test_body.
Qed.

Lemma noise_is_drawn_once_per_batch_witness :
  exists w',
    Train.train_batch (Fixture.train_setup (A:=Z) Fixture.no_residual 3)
                      (Fixture.sample_batch 2 14) Fixture.w0 = (w', Ok tt)
    /\ rng w' = S (rng (Fixture.w0 (A:=Z))).
Proof.
  eexists.
  assert (E : Train.train_batch (Fixture.train_setup (A:=Z) Fixture.no_residual 3)
                (Fixture.sample_batch 2 14) Fixture.w0 = (_, Ok tt))
    by (vm_compute; reflexivity).
  split; [exact E|].
  exact (proj1 (proj1 (@noise_is_drawn_once_per_batch _ _ _
                         (Fixture.train_setup (A:=Z) Fixture.no_residual 3)
                         (Fixture.test_profile (A:=Z) Fixture.no_residual 3 2 [])
                         (Fixture.sample_batch 2 14)) _ _ _ E)).
Defined.

Ltac lib_cases :=
  first [ apply tsize_error | apply index0_error | apply select1_error
        | apply view2_error | apply view_quat_error | apply cat_error
        | apply cat_last_error | apply bcast_error
        | apply unsqueeze_error | apply slice2_error
        | apply norm_last_error | apply div_last_error
        | apply index2_error | apply index_last2_error ].

Section RolloutErrors.
Context {A Hid : Type} `{Scalar A}.

Lemma drop_lead_error (x : tensor A) e :
  Train.drop_lead x = Raise e -> library_error e.
Proof.
  unfold Train.drop_lead. intros E.
  destruct (tsize 1 x) as [n|e1] eqn:E1; cbn in E.
  - destruct (n =? 1); [eapply index0_error; eauto|discriminate].
  - inversion E; subst. eapply tsize_error; eauto.
Qed.

Lemma stack1_error (xs : list (tensor A)) e :
  stack1 xs = Raise e -> library_error e.
Proof. unfold stack1. lib_error. Qed.

(** A timestep of the training loop whose loop variables are bound when
    it reads them raises nothing but [rollout_error 181]. *)
Lemma train_body_raises (cfg : Train.setup A Hid) b lo tg tn t s :
  (t <> 0 -> Train.env s <> None) ->
  raises_only (rollout_error 181) (Train.body cfg b lo tg tn t s).
Proof.
  intros Hs.
  unfold Train.body, Train.timestep, Train.appends, Train.frame.
  rais.
  all: try (right; reflexivity).
  all: try (let e := fresh "e" in let E := fresh "E" in
            intros e E; left; revert E; lib_cases).
  all: try (intros e E; left; revert E; apply drop_lead_error).
  all: try (intros w e E; unfold Train.lstm_call in E;
            destruct (lstm_forward _ _ _); discriminate).
  all: try (apply Nat.eqb_neq in Heqb0; exfalso; apply (Hs Heqb0);
            first [assumption | reflexivity]).
Qed.

Lemma train_body_binds (cfg : Train.setup A Hid) b lo tg tn t s w w' s' :
  Train.body cfg b lo tg tn t s w = (w', Ok s') -> Train.env s' <> None.
Proof.
  intros E. apply train_body_inv in E as (l & El & _). rewrite El. discriminate.
Qed.

Lemma train_loop_raises (cfg : Train.setup A Hid) b lo tg tn n w :
  match for_range n (Train.body cfg b lo tg tn) Train.init_state w with
  | (_, Ok s') => n <> 0 -> Train.env s' <> None
  | (_, Raise e) => rollout_error 181 e
  end.
Proof.
  induction n as [|n IH].
  - cbn. congruence.
  - rewrite for_range_S. unfold bind.
    destruct (for_range n _ _ w) as [w1 [s1|e]]; [|exact IH].
    pose proof (@train_body_raises cfg b lo tg tn n s1 IH w1) as Hb.
    destruct (Train.body cfg b lo tg tn n s1 w1) as [w2 [s2|e]] eqn:E.
    + intros _. eapply train_body_binds; eauto.
    + apply Hb. reflexivity.
Qed.

Lemma raises_test_lstm_step (cfg : Test.profile A Hid) ft h (P : exn -> Prop) :
  ((ft =? "ONNX")%string = false -> (ft =? "PKL")%string = false -> P TypeError) ->
  raises_only P (Test.lstm_step cfg ft h).
Proof.
  intros HP. unfold Test.lstm_step.
  destruct (ft =? "ONNX")%string.
  - apply raises_bind; [apply raises_tell|intros _; apply raises_ret].
  - destruct (ft =? "PKL")%string.
    + intros w e. destruct (lstm_forward _ _ _). discriminate.
    + apply raises_raise. auto.
Qed.

(** A timestep of the inference loop with its loop variables bound and
    one pose in the buffer raises nothing but [window_error]. *)
Lemma test_body_raises (cfg : Test.profile A Hid) ft i b lo tg t s :
  (t <> 0 -> Test.env s <> None) ->
  length (Test.pose_stack s) = 1 ->
  raises_only (window_error ft) (Test.body cfg ft i b lo tg t s).
Proof.
  intros Hs Hp.
  unfold Test.body, Test.frame, Test.frame_of, Test.last_frame_of,
    Test.apply_net, Test.fk_call.
  rais.
  all: try (apply raises_test_lstm_step; intros ? ?; right;
            split; [reflexivity|]; intros [Hf|Hf]; subst ft;
            match goal with
            | Hq : _ = false |- _ => vm_compute in Hq; discriminate Hq
            end).
  all: try (left; right; reflexivity).
  all: try (let e := fresh "e" in let E := fresh "E" in
            intros e E; left; left; revert E; lib_cases).
  all: try (right; split; [reflexivity|]; intros [Hf|Hf]; subst ft;
            match goal with
            | Hq : _ = false |- _ => vm_compute in Hq; discriminate Hq
            end).
  all: try (apply Nat.eqb_neq in Heqb0; exfalso; apply (Hs Heqb0);
            first [assumption | reflexivity]).
  all: try (intros e E; destruct (Test.pose_stack s) as [|p [|q r]];
            simpl in *; discriminate).
  all: intros L;
    match goal with
    | P : Test.pop0 _ = Ok _ |- _ =>
        destruct (Test.pose_stack s) as [|p [|q r]]; simpl in *;
        try discriminate; inversion P; subst; discriminate L
    end.
Qed.

Lemma test_loop_raises (cfg : Test.profile A Hid) ft i b lo tg p0 n w :
  match for_range n (Test.body cfg ft i b lo tg)
                  (Test.mkState None [p0] [] [] []) w with
  | (_, Ok s') => (n <> 0 -> Test.env s' <> None)
                  /\ length (Test.pose_stack s') = 1
  | (_, Raise e) => window_error ft e
  end.
Proof.
  induction n as [|n IH].
  - cbn. split; [congruence|reflexivity].
  - rewrite for_range_S. unfold bind.
    destruct (for_range n _ _ w) as [w1 [s1|e]]; [|exact IH].
    destruct IH as [IH1 IH2].
    pose proof (@test_body_raises cfg ft i b lo tg n s1 IH1 IH2 w1) as Hb.
    destruct (Test.body cfg ft i b lo tg n s1 w1) as [w2 [s2|e]] eqn:E.
    + apply test_body_inv in E as (sh & St & _).
      destruct St as (He & _ & _ & _ & _ & _ & _ & _ & _ & (p & _ & Hq) & _).
      split; [intros _; rewrite He; discriminate|rewrite Hq; reflexivity].
    + apply Hb. reflexivity.
Qed.

Lemma test_window_raises (cfg : Test.profile A Hid) ft i b :
  raises_only (window_error ft) (Test.window cfg ft i b).
Proof.
  unfold Test.window, Test.frame_of.
  rais.
  all: try (let e := fresh "e" in let E := fresh "E" in
            intros e E; left; left; revert E; lib_cases).
  all: try (intros w0 e0 E0; discriminate).
  intros w0 e0 E0.
  pose proof (@test_loop_raises cfg ft i b x0 x1 x
                (Test.training_frames cfg) w0) as Hl.
  destruct (for_range _ _ _ w0) as [w1 [s1|e1]]; [discriminate|].
  cbn in E0. inversion E0; subst. exact Hl.
Qed.
End RolloutErrors.

(** X6.  Whatever the networks return, a training batch raises nothing but
    the tensor library's [IndexError] and [RuntimeError] and the assertion
    of line 181, and so does a window of the inference loop run on ONNX or
    PKL, with the assertion of line 195: no timestep reads a loop variable
    before a timestep has bound it, and [--Filetype] as [main] passes it on
    never makes a session be called as a module, whatever [str.upper] does
    to the value. *)
Theorem rollouts_raise_library_errors_only
    {A Hid : Type} `{Scalar A}
    (tr : Train.setup A Hid) (te : Test.profile A Hid) b :
  (forall w e, snd (Train.train_batch tr b w) = Raise e -> rollout_error 181 e)
  /\ (forall ft i w e, supported_filetype ft ->
        snd (Test.window te ft i b w) = Raise e -> rollout_error 195 e)
  /\ (forall upper arg i w e,
        snd (Test.window te (fst (Test.choose_filetype upper arg)) i b w) = Raise e ->
        rollout_error 195 e).
Proof.
  assert (Hwin : forall ft i w e, supported_filetype ft ->
            snd (Test.window te ft i b w) = Raise e -> rollout_error 195 e).
  { intros ft i w e Hft E.
    destruct (test_window_raises te ft i b w E) as [He|[_ Hn]];
      [exact He|contradiction]. }
  split; [|split; [exact Hwin|]].
  - intros w e.
    assert (R : raises_only (rollout_error 181) (Train.train_batch tr b));
      [|apply R].
    unfold Train.train_batch, Train.fk_call, Train.updates.
    rais.
    all: try (let e := fresh "e" in let E := fresh "E" in
            intros e E; left; revert E; lib_cases).
    all: try (let e0 := fresh "e" in let E0 := fresh "E" in
              intros e0 E0; left; revert E0; apply stack1_error).
    all: try (intros w0 e0 E0; discriminate).
    intros w0 e0 E0. unfold Train.rollout in E0.
    pose proof (@train_loop_raises _ _ _ tr b x x0 x2
                  (Train.training_frames tr) w0) as Hl.
    destruct (for_range _ _ _ w0) as [w1 [s1|e1]]; [discriminate|].
    cbn in E0. inversion E0; subst. exact Hl.
  - intros upper arg i w e. apply Hwin.
    destruct arg as [a|]; [|left; reflexivity].
    destruct (choose_filetype_cases upper a) as [[Hs ->]|[_ ->]];
      [exact Hs|left; reflexivity].
Qed.

Lemma rollouts_raise_library_errors_only_witness :
  snd (Train.train_batch (Fixture.train_setup (A:=Z) Fixture.no_residual 3)
                         (Fixture.sample_batch 2 5) Fixture.w0) = Raise IndexError
  /\ rollout_error 181 IndexError.
Proof.
  assert (E : snd (Train.train_batch (Fixture.train_setup (A:=Z) Fixture.no_residual 3)
                     (Fixture.sample_batch 2 5) Fixture.w0) = Raise IndexError)
    by (vm_compute; reflexivity).
  split; [exact E|].
  exact (proj1 (@rollouts_raise_library_errors_only _ _ _
                  (Fixture.train_setup (A:=Z) Fixture.no_residual 3)
                  (Fixture.test_profile (A:=Z) Fixture.no_residual 3 2 [])
                  (Fixture.sample_batch 2 5)) _ _ E).
Defined.

Section Unsupported.
Context {A Hid : Type} `{Scalar A}.

Lemma apply_net_supported ft {X Y} (f g : X -> Y) x (w w' : world A Hid) y :
  Test.apply_net ft f g x w = (w', Ok y) -> supported_filetype ft.
Proof.
  unfold Test.apply_net, supported_filetype.
  destruct (String.eqb_spec ft "ONNX"); [auto|].
  destruct (String.eqb_spec ft "PKL"); [auto|].
  intros E. inversion E.
Qed.

Lemma test_body_supported (cfg : Test.profile A Hid) ft i b lo tg t s w w' s' :
  Test.body cfg ft i b lo tg t s w = (w', Ok s') -> supported_filetype ft.
Proof.
  unfold Test.body. intros Hb.
  repeat first
    [ match goal with
      | E : Test.apply_net _ _ _ _ _ = (_, Ok _) |- _ =>
          solve [eapply apply_net_supported; exact E]
      end
    | tinv1 ].
Qed.

(** On a file type that is not supported a timestep gets as far as the
    first network at most: it logs frame reads only. *)
Lemma test_body_unsupported (cfg : Test.profile A Hid) ft i b lo tg t s :
  ~ supported_filetype ft ->
  stable (grows (fun ev => exists k n, ev = FrameRead k n))
         (Test.body cfg ft i b lo tg t s).
Proof.
  intros Hft.
  set (P := fun ev : event A => exists k n : nat, ev = FrameRead k n).
  unfold Test.body, Test.frame.
  repeat match goal with
  | |- stable _ (bind (Test.apply_net _ _ _ _) _) =>
      apply stable_bind_ok;
      [apply grows_trans
      |apply stable_apply_net; apply grows_refl
      |let E := fresh "E" in
       intros ? ? ? E; exfalso; apply Hft;
       eapply apply_net_supported; exact E]
  | |- stable _ (ret _) => apply stable_ret; apply grows_refl
  | |- stable _ (raise _) => apply stable_raise; apply grows_refl
  | |- stable _ (lift _) => apply stable_lift; apply grows_refl
  | |- stable _ (assert_ _ _) => apply stable_assert; apply grows_refl
  | |- stable _ (tell (FrameRead _ _)) =>
      apply grows_tell; do 2 eexists; reflexivity
  | |- stable _ (bind (lift _) _) =>
      apply stable_bind_lift; [apply grows_refl|apply grows_trans|intros ? ?]
  | |- stable _ (bind _ _) => apply stable_bind; [apply grows_trans| |intros ?]
  | |- stable _ (if ?c then _ else _) => destruct c eqn:?
  | |- stable _ (match ?x with Some _ => _ | None => _ end) => destruct x eqn:?
  | |- stable _ (let '(_, _) := ?p in _) => destruct p eqn:?
  | x : (_ * _)%type |- _ => destruct x
  end.
Qed.

Lemma test_loop_unsupported (cfg : Test.profile A Hid) ft i b lo tg n s w w' s' :
  ~ supported_filetype ft -> 1 <= n ->
  for_range n (Test.body cfg ft i b lo tg) s w = (w', Ok s') -> False.
Proof.
  intros Hft Hn E.
  apply for_range_prefix with (k := 1) in E as (w1 & s1 & E); [|exact Hn].
  rewrite for_range_S in E.
  apply bind_Ok_inv in E as (s0 & w0 & _ & E).
  apply Hft. eapply test_body_supported; exact E.
Qed.

Lemma test_window_unsupported (cfg : Test.profile A Hid) ft i b :
  ~ supported_filetype ft -> 1 <= Test.training_frames cfg ->
  stable (grows (fun ev => exists k n, ev = FrameRead k n))
         (Test.window cfg ft i b).
Proof.
  intros Hft Hn.
  assert (Hpkl : (ft =? "PKL")%string = false).
  { apply String.eqb_neq. intros ->. apply Hft. right. reflexivity. }
  unfold Test.window, Test.frame_of. rewrite Hpkl.
  repeat match goal with
  | |- stable _ (bind (for_range _ _ _) _) =>
      apply stable_bind_ok;
      [apply grows_trans
      |apply stable_for_range; [apply grows_refl|apply grows_trans|];
       intros ? ? ?; apply test_body_unsupported; exact Hft
      |let E := fresh "E" in
       intros ? ? ? E; exfalso;
       eapply test_loop_unsupported; [exact Hft|exact Hn|exact E]]
  | |- stable _ (ret _) => apply stable_ret; apply grows_refl
  | |- stable _ (lift _) => apply stable_lift; apply grows_refl
  | |- stable _ (tell (FrameRead _ _)) =>
      apply grows_tell; do 2 eexists; reflexivity
  | |- stable _ (bind (lift _) _) =>
      apply stable_bind_lift; [apply grows_refl|apply grows_trans|intros ? ?]
  | |- stable _ (bind _ _) => apply stable_bind; [apply grows_trans| |intros ?]
  end.
Qed.
End Unsupported.

(** X8.  [test] takes its file type literally.  On a file type that is
    neither ONNX nor PKL, a lower-case one for instance, the networks are
    loaded as sessions and called as modules: a window of one timestep or
    more raises, a [TypeError] unless the tensor library or the assertion of
    line 195 stops it before the first network, and up to then it has done
    nothing but read frames: no network has run, no file is written. *)
Theorem unsupported_file_type_is_a_type_error
    {A Hid : Type} `{Scalar A}
    (te : Test.profile A Hid) ft i b w :
  ~ supported_filetype ft ->
  1 <= Test.training_frames te ->
  exists w' e evs,
    Test.window te ft i b w = (w', Raise e)
    /\ (rollout_error 195 e \/ e = TypeError)
    /\ log w' = log w ++ evs
    /\ Forall (fun ev => exists k n, ev = FrameRead k n) evs.
Proof.
  intros Hft Hn.
  destruct (test_window_unsupported te i b Hft Hn w) as (evs & El & Hall).
  pose proof (test_window_raises te ft i b w) as Hr.
  destruct (Test.window te ft i b w) as [w' [s|e]] eqn:E.
  - exfalso.
    apply test_window_run in E
      as (p0 & lo & tg & w1 & w2 & _ & _ & _ & _ & _ & Er & _).
    eapply test_loop_unsupported; [exact Hft|exact Hn|exact Er].
  - exists w', e, evs. split; [reflexivity|].
    split; [|split; [exact El|exact Hall]].
    destruct (Hr e eq_refl) as [He|[He _]]; [left; exact He|right; exact He].
Qed.

Lemma unsupported_file_type_is_a_type_error_witness :
  exists w' e,
    Test.window (Fixture.test_profile (A:=Z) Fixture.no_residual 3 2 [])
                "onnx" 0 (Fixture.sample_batch 2 12) Fixture.w0 = (w', Raise e)
    /\ (rollout_error 195 e \/ e = TypeError).
Proof.
  assert (Hft : ~ supported_filetype "onnx").
  { intros [E|E]; discriminate E. }
  assert (Hn : 1 <= Test.training_frames
                      (Fixture.test_profile (A:=Z) Fixture.no_residual 3 2 []))
    by (simpl; lia).
  destruct (@unsupported_file_type_is_a_type_error _ _ _
              (Fixture.test_profile (A:=Z) Fixture.no_residual 3 2 [])
              "onnx"%string 0 (Fixture.sample_batch 2 12) Fixture.w0 Hft Hn)
    as (w' & e & _ & E & He & _).
  exists w', e. split; [exact E|exact He].
Defined.

(** X9.  With [training_frames = 0] no training batch completes: the
    rollout makes no timestep, reads no frame and steps nothing, and
    stacking the empty list of predictions raises [RuntimeError]. *)
Theorem no_training_without_timesteps
    {A Hid : Type} `{Scalar A} (tr : Train.setup A Hid) b w :
  Train.training_frames tr = 0 ->
  snd (Train.train_batch tr b w) = Raise RuntimeError
  /\ exists evs, log (fst (Train.train_batch tr b w)) = log w ++ evs
                 /\ Forall (fun e => exists n, e = InitHidden n) evs.
Proof.
  intros H0. unfold Train.train_batch, Train.rollout. rewrite H0.
  unfold bind at 1. cbn [lift].
  destruct (view2 (Train.batch_len b) (local_q_offset b)) as [lo|e] eqn:E1.
  2:{ apply view2_error in E1 as HE. unfold view2, guarded in E1.
      destruct (view2_guard _ _); inversion E1; subst.
      split; [reflexivity|]. exists []. rewrite app_nil_r. split; constructor. }
  unfold bind at 1. cbn [lift].
  destruct (view2 (Train.batch_len b) (q_target b)) as [tg|e] eqn:E2.
  2:{ unfold view2, guarded in E2.
      destruct (view2_guard _ _); inversion E2; subst.
      split; [reflexivity|]. exists []. rewrite app_nil_r. split; constructor. }
  cbn. split; [reflexivity|].
  exists [InitHidden (Train.batch_len b)]. split; [reflexivity|].
  constructor; [eexists; reflexivity|constructor].
Qed.

Lemma no_training_without_timesteps_witness :
  Train.training_frames (Fixture.train_setup (A:=Z) Fixture.no_residual 0) = 0
  /\ snd (Train.train_batch (Fixture.train_setup (A:=Z) Fixture.no_residual 0)
                            (Fixture.sample_batch 2 14) Fixture.w0)
     = Raise RuntimeError.
Proof.
  assert (H0 : Train.training_frames
                 (Fixture.train_setup (A:=Z) Fixture.no_residual 0) = 0)
    by reflexivity.
  split; [exact H0|].
  exact (proj1 (@no_training_without_timesteps _ _ _
                  (Fixture.train_setup (A:=Z) Fixture.no_residual 0)
                  (Fixture.sample_batch 2 14) Fixture.w0 H0)).
Defined.

Section ResetOnce.
Context {A Hid : Type} `{Scalar A}.

Lemma train_may_emit_no_reset (cfg : Train.setup A Hid) b t e :
  train_may_emit cfg b t e -> is_init_hidden e = false.
Proof. intros [->|[(_ & x & _ & ->)|(x & _ & ->)]]; reflexivity. Qed.
End ResetOnce.

(** X10.  The memory of the recurrent core is reset once per batch and
    never between the timesteps of a rollout: a training batch that
    completes has called [init_hidden] exactly once, with the size of the
    batch, and so has a window of the inference loop on PKL; on ONNX it has
    not been called at all. *)
Theorem memory_is_reset_once_per_batch
    {A Hid : Type} `{Scalar A}
    (tr : Train.setup A Hid) (te : Test.profile A Hid) b :
  (forall w w' u, Train.train_batch tr b w = (w', Ok u) ->
     exists evs, log w' = log w ++ evs
                 /\ filter is_init_hidden evs = [InitHidden (Train.batch_len b)])
  /\ (forall ft i w w' s, Test.window te ft i b w = (w', Ok s) ->
        exists evs, log w' = log w ++ evs
                    /\ filter is_init_hidden evs
                       = if (ft =? "PKL")%string
                         then [InitHidden (Train.batch_len b)] else []).
Proof.
  split.
  - intros w w' u E.
    apply train_batch_log in E as (evs & s & qs & rs & El & Hall & _).
    eexists. split; [exact El|].
    cbn [filter is_init_hidden]. rewrite filter_app.
    rewrite (@filter_none _ is_init_hidden evs); [reflexivity|].
    eapply Forall_impl; [|exact Hall].
    intros e (t & _ & He). eapply train_may_emit_no_reset; eauto.
  - intros ft i w w' s E.
    apply test_window_run in E
      as (p0 & lo & tg & w1 & w2 & _ & _ & _ & L1 & _ & Er & L2 & _).
    destruct (test_rollout_emits te ft i b lo tg
                (Test.mkState None [p0] [] [] []) w1) as (evs & El & Hall).
    rewrite Er in El. cbn [fst] in El.
    eexists. split; [rewrite L2, El, L1, <- !app_assoc; reflexivity|].
    cbn [app filter is_init_hidden]. rewrite !filter_app.
    rewrite (@filter_none _ is_init_hidden evs).
    + destruct (ft =? "PKL")%string; reflexivity.
    + eapply Forall_impl; [|exact Hall].
      intros e (t & _ & He). eapply test_may_emit_no_reset; eauto.
Qed.

Lemma memory_is_reset_once_per_batch_witness :
  exists w' evs,
    Train.train_batch (Fixture.train_setup (A:=Z) Fixture.no_residual 3)
                      (Fixture.sample_batch 2 14) Fixture.w0 = (w', Ok tt)
    /\ log w' = log (Fixture.w0 (A:=Z)) ++ evs
    /\ filter is_init_hidden evs = [InitHidden 2].
Proof.
  eexists.
  assert (E : Train.train_batch (Fixture.train_setup (A:=Z) Fixture.no_residual 3)
                (Fixture.sample_batch 2 14) Fixture.w0 = (_, Ok tt))
    by (vm_compute; reflexivity).
  destruct (proj1 (@memory_is_reset_once_per_batch _ _ _
                     (Fixture.train_setup (A:=Z) Fixture.no_residual 3)
                     (Fixture.test_profile (A:=Z) Fixture.no_residual 3 2 [])
                     (Fixture.sample_batch 2 14)) _ _ _ E) as (evs & Hl & Hf).
  exists evs. split; [exact E|]. split; [exact Hl|exact Hf].
Defined.

Section Selection.

Lemma upper_ascii_idem c :
  Test.upper_ascii (Test.upper_ascii c) = Test.upper_ascii c.
Proof.
  destruct c as [[] [] [] [] [] [] [] []]; reflexivity.
Qed.

Lemma upper_ascii_small c :
  nat_of_ascii c < 128 -> nat_of_ascii (Test.upper_ascii c) < 128.
Proof.
  destruct c as [[] [] [] [] [] [] [] []]; vm_compute; intros Hc; lia.
Qed.

Lemma ascii_upper_idem s :
  Test.ascii_upper (Test.ascii_upper s) = Test.ascii_upper s.
Proof.
  induction s as [|c s IH]; [reflexivity|].
  cbn [Test.ascii_upper]. rewrite upper_ascii_idem, IH. reflexivity.
Qed.

Lemma ascii_upper_length s :
  String.length (Test.ascii_upper s) = String.length s.
Proof. induction s as [|c s IH]; cbn; congruence. Qed.

Lemma ascii_upper_is_ascii s : is_ascii s -> is_ascii (Test.ascii_upper s).
Proof.
  unfold is_ascii. induction s as [|c s IH]; intros Hs; [constructor|].
  cbn [Test.ascii_upper list_ascii_of_string] in *.
  inversion Hs as [|c' l Hc Hl]; subst.
  constructor; [apply upper_ascii_small; exact Hc|apply IH; exact Hl].
Qed.

(** A supported value is selected as it is, without a warning. *)
Lemma choose_dataset_supported upper d :
  upper_on_ascii upper -> supported_dataset d ->
  Test.choose_dataset upper (Some d) = (d, []).
Proof.
  intros Hup Hs.
  assert (U : upper d = d) by (apply upper_supported; [exact Hup|left; exact Hs]).
  destruct (choose_dataset_cases upper d) as [[_ E]|[N _]].
  - rewrite E, U. reflexivity.
  - exfalso. apply N. rewrite U. exact Hs.
Qed.

Lemma choose_filetype_supported upper f :
  upper_on_ascii upper -> supported_filetype f ->
  Test.choose_filetype upper (Some f) = (f, []).
Proof.
  intros Hup Hs.
  assert (U : upper f = f) by (apply upper_supported; [exact Hup|right; exact Hs]).
  destruct (choose_filetype_cases upper f) as [[_ E]|[N _]].
  - rewrite E, U. reflexivity.
  - exfalso. apply N. rewrite U. exact Hs.
Qed.

End Selection.

(** X11.  The selection of the inference script is stable: given back to
    the script, the dataset and the file type it has settled on are
    selected again, unchanged and without a warning; on ASCII text
    upper-casing twice is upper-casing once, and keeps the length of the
    value.  Of [str.upper] this uses only that on ASCII text it is the
    ASCII upper-casing. *)
Theorem selection_is_stable
    (upper : string -> string) (Dataset Filetype : option string) :
  upper_on_ascii upper ->
  Test.choose_dataset upper (Some (fst (Test.choose_dataset upper Dataset)))
  = (fst (Test.choose_dataset upper Dataset), [])
  /\ Test.choose_filetype upper (Some (fst (Test.choose_filetype upper Filetype)))
     = (fst (Test.choose_filetype upper Filetype), [])
  /\ (forall s, is_ascii s ->
        upper (upper s) = upper s
        /\ String.length (upper s) = String.length s).
Proof.
  intros Hup. split; [|split].
  - apply choose_dataset_supported; [exact Hup|].
    destruct Dataset as [a|]; [|left; reflexivity].
    destruct (choose_dataset_cases upper a) as [[Hs E]|[_ E]]; rewrite E;
      [exact Hs|left; reflexivity].
  - apply choose_filetype_supported; [exact Hup|].
    destruct Filetype as [a|]; [|left; reflexivity].
    destruct (choose_filetype_cases upper a) as [[Hs E]|[_ E]]; rewrite E;
      [exact Hs|left; reflexivity].
  - intros s Hs. rewrite (Hup s Hs).
    rewrite (Hup _ (ascii_upper_is_ascii Hs)).
    split; [apply ascii_upper_idem|apply ascii_upper_length].
Qed.

Lemma selection_is_stable_witness :
  upper_on_ascii Test.ascii_upper
  /\ Test.choose_dataset Test.ascii_upper
       (Some (fst (Test.choose_dataset Test.ascii_upper (Some "lafan"%string))))
     = ("LAFAN"%string, [])
  /\ Test.choose_filetype Test.ascii_upper
       (Some (fst (Test.choose_filetype Test.ascii_upper (Some "xyz"%string))))
     = ("ONNX"%string, []).
Proof.
  assert (Hup : upper_on_ascii Test.ascii_upper) by (intros s _; reflexivity).
  split; [exact Hup|].
  destruct (@selection_is_stable Test.ascii_upper
              (Some "lafan"%string) (Some "xyz"%string) Hup) as (Hd & Hf & _).
  split; [exact Hd|exact Hf].
Defined.

Section Checkpoints.
Context {A Hid : Type} `{Scalar A}.
Variable cfg : Train.setup A Hid.
Variable sched : TrainLoop.schedule.
Variable loader : nat -> list (batch A).
Variable traced : Hid -> Hid.

Lemma checkpoint_done e (j j' : TrainLoop.journal A Hid) :
  TrainLoop.checkpoint sched loader traced e j = (j', None) ->
  TrainLoop.bound_by loader e = true
  /\ TrainLoop.chores j'
     = TrainLoop.chores j
       ++ checkpoint_chores (TrainLoop.save_optimizer sched) e
  /\ log (TrainLoop.surroundings j') = log (TrainLoop.surroundings j)
  /\ rng (TrainLoop.surroundings j') = rng (TrainLoop.surroundings j)
  /\ hidden (TrainLoop.surroundings j')
     = traced (hidden (TrainLoop.surroundings j)).
Proof.
  unfold TrainLoop.checkpoint, checkpoint_chores.
  destruct (TrainLoop.bound_by loader e); [|discriminate].
  intros E. inversion E; subst j'. clear E.
  split; [reflexivity|]. split; [|repeat split].
  cbn [TrainLoop.note TrainLoop.chores TrainLoop.surroundings].
  destruct (TrainLoop.save_optimizer sched); cbn;
    rewrite <- !app_assoc; reflexivity.
Qed.

Lemma checkpoint_stopped e (j j' : TrainLoop.journal A Hid) x :
  TrainLoop.checkpoint sched loader traced e j = (j', Some x) ->
  TrainLoop.bound_by loader e = false
  /\ x = TrainLoop.Inner NameError
  /\ TrainLoop.surroundings j' = TrainLoop.surroundings j
  /\ TrainLoop.chores j'
     = TrainLoop.chores j
       ++ [TrainLoop.MkDir e]
       ++ map (fun m => TrainLoop.TorchSave e (TrainLoop.Weights m))
              TrainLoop.pickled
       ++ (if TrainLoop.save_optimizer sched
           then [TrainLoop.TorchSave e (TrainLoop.OptimizerState GeneratorOptimizer);
                 TrainLoop.TorchSave e (TrainLoop.OptimizerState DiscriminatorOptimizer)]
           else [])
       ++ [TrainLoop.SetEval StateEncoder].
Proof.
  unfold TrainLoop.checkpoint.
  destruct (TrainLoop.bound_by loader e); [discriminate|].
  intros E. inversion E; subst. repeat split.
Qed.

(** An epoch that completed, taken apart. *)
Lemma epoch_body_done e (j j' : TrainLoop.journal A Hid) :
  TrainLoop.epoch_body cfg sched loader traced e j = (j', None) ->
  exists w,
    Train.train_epoch cfg (loader e) (TrainLoop.surroundings j) = (w, Ok tt)
    /\ TrainLoop.weight_save_interval sched <> 0%Z
    /\ TrainLoop.chores j' = TrainLoop.chores j ++ epoch_chores sched e
    /\ log (TrainLoop.surroundings j') = log w
    /\ rng (TrainLoop.surroundings j') = rng w
    /\ (TrainLoop.due sched e = true -> TrainLoop.bound_by loader e = true).
Proof.
  unfold TrainLoop.epoch_body, epoch_chores.
  cbn [TrainLoop.note TrainLoop.surroundings TrainLoop.chores].
  destruct (Train.train_epoch cfg (loader e) (TrainLoop.surroundings j))
    as [w [[]|x]]; [|discriminate].
  destruct (Z.eqb_spec (TrainLoop.weight_save_interval sched) 0) as [Ek|Ek];
    [discriminate|].
  destruct (TrainLoop.due sched e) eqn:Em.
  - intros E. apply checkpoint_done in E as (Hb & Hc & Hl & Hr & _).
    cbn [TrainLoop.chores TrainLoop.surroundings] in *.
    exists w. split; [reflexivity|]. split; [exact Ek|].
    split; [rewrite Hc, <- !app_assoc; reflexivity|].
    split; [exact Hl|]. split; [exact Hr|]. intros _. exact Hb.
  - intros E. inversion E; subst j'. clear E.
    exists w. split; [reflexivity|]. split; [exact Ek|].
    cbn [TrainLoop.chores TrainLoop.surroundings].
    split; [reflexivity|].
    split; [reflexivity|]. split; [reflexivity|].
    intros E. discriminate.
Qed.

Lemma epochs_from_done first n (j j' : TrainLoop.journal A Hid) :
  TrainLoop.epochs_from cfg sched loader traced first n j = (j', None) ->
  TrainLoop.chores j'
  = TrainLoop.chores j ++ flat_map (epoch_chores sched) (seq first n)
  /\ (n <> 0 -> TrainLoop.weight_save_interval sched <> 0%Z)
  /\ (forall e, first <= e < first + n ->
        TrainLoop.due sched e = true ->
        TrainLoop.bound_by loader e = true).
Proof.
  revert first j. induction n as [|n IH]; intros first j E.
  - cbn in E. inversion E; subst. cbn. rewrite app_nil_r.
    split; [reflexivity|]. split; [congruence|]. intros e He. lia.
  - cbn [TrainLoop.epochs_from] in E.
    destruct (TrainLoop.epoch_body cfg sched loader traced first j) as [j1 [x|]] eqn:E1; [discriminate|].
    apply epoch_body_done in E1 as (w & _ & Hk & Hc & _ & _ & Hb).
    apply IH in E as (Hc' & _ & Hb').
    split; [rewrite Hc', Hc, <- app_assoc; reflexivity|].
    split; [intros _; exact Hk|].
    intros e He Hm. destruct (Nat.eq_dec e first) as [->|Hne].
    + exact (Hb Hm).
    + apply Hb'; [lia|exact Hm].
Qed.

Lemma epochs_from_prefix first n k (j j' : TrainLoop.journal A Hid) :
  k <= n -> TrainLoop.epochs_from cfg sched loader traced first n j = (j', None) ->
  exists j1, TrainLoop.epochs_from cfg sched loader traced first k j = (j1, None)
             /\ TrainLoop.epochs_from cfg sched loader traced (first + k) (n - k) j1 = (j', None).
Proof.
  revert first n j. induction k as [|k IH]; intros first n j Hk E.
  - exists j. rewrite Nat.add_0_r, Nat.sub_0_r. split; [reflexivity|exact E].
  - destruct n as [|n]; [lia|].
    cbn [TrainLoop.epochs_from] in E |- *.
    destruct (TrainLoop.epoch_body cfg sched loader traced first j) as [j1 [x|]] eqn:E1; [discriminate|].
    apply IH in E as (j2 & E2 & E3); [|lia].
    exists j2. split; [exact E2|].
    replace (first + S k) with (S first + k) by lia. exact E3.
Qed.
End Checkpoints.

Section Modes.

Lemma mode_after_app init m cs1 cs2 :
  mode_after init m (cs1 ++ cs2) = mode_after (mode_after init m cs1) m cs2.
Proof. unfold mode_after. apply fold_left_app. Qed.

Lemma made_dirs_app cs1 cs2 :
  made_dirs (cs1 ++ cs2) = made_dirs cs1 ++ made_dirs cs2.
Proof. apply flat_map_app. Qed.

Lemma made_dirs_epoch sched e :
  made_dirs (epoch_chores sched e)
  = if TrainLoop.due sched e then [e] else [].
Proof.
  unfold epoch_chores, checkpoint_chores.
  destruct (TrainLoop.due sched e); [|reflexivity].
  destruct (TrainLoop.save_optimizer sched); reflexivity.
Qed.

Lemma made_dirs_epochs sched first n :
  made_dirs (flat_map (epoch_chores sched) (seq first n))
  = filter (TrainLoop.due sched) (seq first n).
Proof.
  revert first. induction n as [|n IH]; intros first; [reflexivity|].
  cbn [seq flat_map filter]. rewrite made_dirs_app, made_dirs_epoch, IH.
  destruct (TrainLoop.due sched first); reflexivity.
Qed.

(** The test of line 329 on an interval that is not zero: the epoch's
    number, counted from one, is a multiple of the interval's absolute
    value. *)
Lemma due_abs sched e :
  TrainLoop.weight_save_interval sched <> 0%Z ->
  TrainLoop.due sched e
  = ((e + 1) mod Z.abs_nat (TrainLoop.weight_save_interval sched) =? 0).
Proof.
  intros Hk. unfold TrainLoop.due.
  set (i := TrainLoop.weight_save_interval sched) in *.
  assert (Hn : Z.abs_nat i <> 0) by lia.
  assert (Hz : Z.of_nat ((e + 1) mod Z.abs_nat i)
               = ((Z.of_nat e + 1) mod Z.abs i)%Z).
  { rewrite Nat2Z.inj_mod, Zabs2Nat.id_abs, Nat2Z.inj_add. reflexivity. }
  assert (Ha : Z.abs i <> 0%Z) by lia.
  destruct (Z.eqb_spec ((Z.of_nat e + 1) mod i) 0) as [E|E];
    destruct (Nat.eqb_spec ((e + 1) mod Z.abs_nat i) 0) as [E'|E'];
    try reflexivity; exfalso.
  - apply E'. apply Nat2Z.inj. rewrite Hz. cbn [Z.of_nat].
    apply Z.mod_divide; [exact Ha|].
    apply Z.divide_abs_l. apply Z.mod_divide; [exact Hk|exact E].
  - apply E. apply Z.mod_divide; [exact Hk|].
    apply Z.divide_abs_l. apply Z.mod_divide; [exact Ha|].
    rewrite <- Hz, E'. reflexivity.
Qed.

Lemma every_kth_count k n :
  k <> 0 ->
  length (filter (fun e => (e + 1) mod k =? 0) (seq 0 n)) = n / k.
Proof.
  intros Hk. induction n as [|n IH].
  - cbn. rewrite Nat.Div0.div_0_l. reflexivity.
  - rewrite seq_S, filter_app, length_app, IH. cbn [filter Nat.add].
    pose proof (Nat.div_mod_eq n k) as Hn.
    pose proof (Nat.mod_upper_bound n k Hk) as Hr.
    set (q := n / k) in *. set (r := n mod k) in *.
    replace (S n) with (n + 1) by lia.
    destruct (Nat.eq_dec (r + 1) k) as [E|E].
    + assert (Hd : q + 1 = (n + 1) / k)
        by (apply Nat.div_unique with (r := 0); lia).
      assert (Hm : 0 = (n + 1) mod k)
        by (apply Nat.mod_unique with (q := q + 1); lia).
      rewrite <- Hd, <- Hm. cbn. lia.
    + assert (Hd : q = (n + 1) / k)
        by (apply Nat.div_unique with (r := r + 1); lia).
      assert (Hm : r + 1 = (n + 1) mod k)
        by (apply Nat.mod_unique with (q := q); lia).
      rewrite <- Hd, <- Hm.
      destruct (Nat.eqb_spec (r + 1) 0); [lia|]. cbn. lia.
Qed.

(** Of [n] epochs, [n // abs(interval)] end with a checkpoint. *)
Lemma checkpoint_epochs_count sched n :
  TrainLoop.weight_save_interval sched <> 0%Z ->
  Z.of_nat (length (checkpoint_epochs sched n))
  = (Z.of_nat n / Z.abs (TrainLoop.weight_save_interval sched))%Z.
Proof.
  intros Hk. unfold checkpoint_epochs.
  rewrite (filter_ext (TrainLoop.due sched)
             (fun e => (e + 1) mod Z.abs_nat (TrainLoop.weight_save_interval sched) =? 0))
    by (intros e; apply due_abs; exact Hk).
  rewrite every_kth_count by lia.
  rewrite Nat2Z.inj_div, Zabs2Nat.id_abs. reflexivity.
Qed.

(** The modes an epoch that completes leaves the networks in. *)
Lemma mode_after_epoch sched e init m :
  mode_after init m (epoch_chores sched e)
  = if TrainLoop.due sched e then false
    else if existsb (net_eqb m) TrainLoop.retrained then true else init.
Proof.
  unfold epoch_chores, checkpoint_chores.
  destruct (TrainLoop.due sched e); destruct (TrainLoop.save_optimizer sched);
    destruct m, init; reflexivity.
Qed.

Lemma mode_after_epochs sched first n init m :
  mode_after init m (flat_map (epoch_chores sched) (seq first n))
  = match n with
    | 0 => init
    | S n' =>
        if TrainLoop.due sched (first + n')
        then false
        else if existsb (net_eqb m) TrainLoop.retrained then true
        else init && negb (existsb (TrainLoop.due sched) (seq first n'))
    end.
Proof.
  revert first init. induction n as [|n IH]; intros first init; [reflexivity|].
  rewrite seq_S, flat_map_app, mode_after_app, IH.
  cbn [flat_map]. rewrite app_nil_r, mode_after_epoch.
  destruct (TrainLoop.due sched (first + n)) eqn:E1; [reflexivity|].
  destruct (existsb (net_eqb m) TrainLoop.retrained) eqn:E2; [reflexivity|].
  destruct n as [|n'].
  - cbn. rewrite andb_true_r. reflexivity.
  - rewrite seq_S, existsb_app. cbn [existsb].
    destruct (TrainLoop.due sched (first + n')) eqn:E3.
    + rewrite orb_true_r, andb_false_r. reflexivity.
    + rewrite !orb_false_r. reflexivity.
Qed.
End Modes.

Section Alike.
Context {A Hid : Type} `{Scalar A}.
Variable cfg : Train.setup A Hid.

Lemma train_batch_alike b (w1 w2 : world A Hid) :
  alike w1 w2 ->
  snd (Train.train_batch cfg b w1) = snd (Train.train_batch cfg b w2)
  /\ alike (fst (Train.train_batch cfg b w1)) (fst (Train.train_batch cfg b w2)).
Proof.
  destruct w1 as [h1 r1 l1], w2 as [h2 r2 l2]. intros [Hr Hl].
  cbn in Hr, Hl. subst r2 l2.
  unfold Train.train_batch. rewrite !bind_lift_run.
  destruct (view2 _ (local_q_offset b)) as [lo|e];
    [|split; [reflexivity|split; reflexivity]].
  rewrite !bind_lift_run.
  destruct (view2 _ (q_target b)) as [tg|e];
    [|split; [reflexivity|split; reflexivity]].
  split; [reflexivity|split; reflexivity].
Qed.

Lemma train_epoch_alike bs (w1 w2 : world A Hid) :
  alike w1 w2 ->
  snd (Train.train_epoch cfg bs w1) = snd (Train.train_epoch cfg bs w2)
  /\ alike (fst (Train.train_epoch cfg bs w1)) (fst (Train.train_epoch cfg bs w2)).
Proof.
  revert w1 w2. induction bs as [|b bs IH]; intros w1 w2 Hw.
  - cbn. split; [reflexivity|exact Hw].
  - cbn [Train.train_epoch]. unfold bind.
    destruct (train_batch_alike b Hw) as [Hs Ha].
    destruct (Train.train_batch cfg b w1) as [w1' [u1|e1]],
             (Train.train_batch cfg b w2) as [w2' [u2|e2]];
      cbn [fst snd] in *; try discriminate.
    + apply IH. exact Ha.
    + inversion Hs; subst. split; [reflexivity|exact Ha].
Qed.
End Alike.

Section TracedAway.
Context {A Hid : Type} `{Scalar A}.
Variable cfg : Train.setup A Hid.
Variable sched : TrainLoop.schedule.
Variable loader : nat -> list (batch A).
Variables traced1 traced2 : Hid -> Hid.

Lemma checkpoint_alike e j1 j2 :
  jalike j1 j2 ->
  snd (TrainLoop.checkpoint sched loader traced1 e j1)
  = snd (TrainLoop.checkpoint sched loader traced2 e j2)
  /\ jalike (fst (TrainLoop.checkpoint sched loader traced1 e j1))
            (fst (TrainLoop.checkpoint sched loader traced2 e j2)).
Proof.
  intros [Hc [Hr Hl]]. unfold TrainLoop.checkpoint.
  destruct (TrainLoop.bound_by loader e); cbn [fst snd].
  - split; [reflexivity|]. unfold jalike, alike. cbn. rewrite Hc, Hr, Hl.
    repeat split.
  - split; [reflexivity|]. unfold jalike, alike. cbn. rewrite Hc, Hr, Hl.
    repeat split.
Qed.

Lemma epoch_body_alike e j1 j2 :
  jalike j1 j2 ->
  snd (TrainLoop.epoch_body cfg sched loader traced1 e j1)
  = snd (TrainLoop.epoch_body cfg sched loader traced2 e j2)
  /\ jalike (fst (TrainLoop.epoch_body cfg sched loader traced1 e j1))
            (fst (TrainLoop.epoch_body cfg sched loader traced2 e j2)).
Proof.
  intros [Hc Hw]. unfold TrainLoop.epoch_body.
  cbn [TrainLoop.note TrainLoop.surroundings TrainLoop.chores].
  destruct (train_epoch_alike cfg (loader e) Hw) as [Hs Ha].
  destruct (Train.train_epoch cfg (loader e) (TrainLoop.surroundings j1))
    as [w1 [u1|e1]],
           (Train.train_epoch cfg (loader e) (TrainLoop.surroundings j2))
    as [w2 [u2|e2]]; cbn [fst snd] in *; try discriminate.
  - destruct (TrainLoop.weight_save_interval sched =? 0)%Z.
    + cbn [fst snd]. split; [reflexivity|]. split; cbn; [rewrite Hc|]; auto.
    + destruct (TrainLoop.due sched e).
      * apply checkpoint_alike. split; cbn; [rewrite Hc|]; auto.
      * cbn [fst snd]. split; [reflexivity|]. split; cbn; [rewrite Hc|]; auto.
  - inversion Hs; subst. split; [reflexivity|].
    split; cbn; [rewrite Hc|]; auto.
Qed.

Lemma epochs_from_alike first n j1 j2 :
  jalike j1 j2 ->
  snd (TrainLoop.epochs_from cfg sched loader traced1 first n j1)
  = snd (TrainLoop.epochs_from cfg sched loader traced2 first n j2)
  /\ jalike (fst (TrainLoop.epochs_from cfg sched loader traced1 first n j1))
            (fst (TrainLoop.epochs_from cfg sched loader traced2 first n j2)).
Proof.
  revert first j1 j2. induction n as [|n IH]; intros first j1 j2 Hj.
  - cbn. split; [reflexivity|exact Hj].
  - cbn [TrainLoop.epochs_from].
    destruct (epoch_body_alike first Hj) as [Hs Ha].
    destruct (TrainLoop.epoch_body cfg sched loader traced1 first j1)
      as [j1' [x1|]],
             (TrainLoop.epoch_body cfg sched loader traced2 first j2)
      as [j2' [x2|]]; cbn [fst snd] in *; try discriminate.
    + split; [exact Hs|exact Ha].
    + apply IH. exact Ha.
Qed.
End TracedAway.

(** X12.  A run of [train()] that completes has, in every epoch, put the
    five generator networks into training mode, trained on the batches of
    the epoch, and, on every epoch whose number, counted from one, is a
    multiple of [weight_save_interval], and on no other, made its
    checkpoint: the seven weights pickled, the optimizer states with them
    when [save_optimizer] is set, and every network put into evaluation
    mode and exported.  With [epochs] not positive nothing is done.  With
    [epochs] positive the interval is not zero, and
    [epochs // abs(weight_save_interval)] epochs end with a checkpoint: a
    negative interval counts like its absolute value. *)
Theorem checkpoints_every_interval
    {A Hid : Type} `{Scalar A}
    (cfg : Train.setup A Hid) sched loader traced w j :
  TrainLoop.train cfg sched loader traced w = (j, None) ->
  TrainLoop.chores j
  = flat_map (epoch_chores sched) (seq 0 (Z.to_nat (TrainLoop.epochs sched)))
  /\ made_dirs (TrainLoop.chores j)
     = checkpoint_epochs sched (Z.to_nat (TrainLoop.epochs sched))
  /\ ((TrainLoop.epochs sched <= 0)%Z -> TrainLoop.chores j = [])
  /\ ((0 < TrainLoop.epochs sched)%Z ->
      TrainLoop.weight_save_interval sched <> 0%Z
      /\ Z.of_nat (length (made_dirs (TrainLoop.chores j)))
         = (TrainLoop.epochs sched
            / Z.abs (TrainLoop.weight_save_interval sched))%Z).
Proof.
  unfold TrainLoop.train. intros E.
  apply epochs_from_done in E as (Hc & Hk & _). cbn [TrainLoop.chores app] in Hc.
  split; [exact Hc|].
  assert (Hd : made_dirs (TrainLoop.chores j)
               = checkpoint_epochs sched (Z.to_nat (TrainLoop.epochs sched))).
  { rewrite Hc. apply made_dirs_epochs. }
  split; [exact Hd|]. split.
  - intros Hn. rewrite Hc.
    replace (Z.to_nat (TrainLoop.epochs sched)) with 0 by lia. reflexivity.
  - intros Hn.
    assert (Hi : TrainLoop.weight_save_interval sched <> 0%Z)
      by (apply Hk; lia).
    split; [exact Hi|].
    rewrite Hd, checkpoint_epochs_count by exact Hi.
    rewrite Z2Nat.id by lia. reflexivity.
Qed.

Lemma checkpoints_every_interval_witness :
  exists j,
    TrainLoop.train (Fixture.train_setup (A:=Z) Fixture.no_residual 2)
                    {| TrainLoop.epochs := 4;
                       TrainLoop.weight_save_interval := -2;
                       TrainLoop.save_optimizer := true |}
                    (fun _ => [Fixture.sample_batch 2 13])
                    S Fixture.w0 = (j, None)
    /\ made_dirs (TrainLoop.chores j) = [1; 3]
    /\ Z.of_nat (length (made_dirs (TrainLoop.chores j))) = (4 / Z.abs (-2))%Z.
Proof.
  eexists.
  assert (E : TrainLoop.train (Fixture.train_setup (A:=Z) Fixture.no_residual 2)
                    {| TrainLoop.epochs := 4;
                       TrainLoop.weight_save_interval := -2;
                       TrainLoop.save_optimizer := true |}
                    (fun _ => [Fixture.sample_batch 2 13])
                    S Fixture.w0 = (_, None))
    by (vm_compute; reflexivity).
  destruct (@checkpoints_every_interval _ _ _ _ _ _ _ _ _ E) as (_ & Hd & _ & Hn).
  split; [exact E|]. split; [exact Hd|].
  apply Hn. simpl. lia.
Defined.

(** X13.  In a run of [train()] that completes, the batches of every epoch
    are trained on with the five generator networks in training mode; the
    two discriminators are in training mode up to the first checkpoint and
    in evaluation mode in every epoch after it: the checkpoint puts them
    into evaluation mode for their export and nothing puts them back. *)
Theorem discriminators_stay_in_eval_mode
    {A Hid : Type} `{Scalar A}
    (cfg : Train.setup A Hid) sched loader traced w j e :
  TrainLoop.train cfg sched loader traced w = (j, None) ->
  (Z.of_nat e < TrainLoop.epochs sched)%Z ->
  exists pre post,
    TrainLoop.chores j = pre ++ TrainLoop.Batches e :: post
    /\ pre = flat_map (epoch_chores sched) (seq 0 e)
             ++ map TrainLoop.SetTrain TrainLoop.retrained
    /\ (forall m, In m TrainLoop.retrained -> mode_after true m pre = true)
    /\ (forall m, In m [ShortDiscriminator; LongDiscriminator] ->
          mode_after true m pre
          = negb (existsb (TrainLoop.due sched) (seq 0 e))).
Proof.
  unfold TrainLoop.train. intros E He.
  apply epochs_from_done in E as (Hc & _ & _). cbn [TrainLoop.chores app] in Hc.
  replace (Z.to_nat (TrainLoop.epochs sched))
    with (e + S (Z.to_nat (TrainLoop.epochs sched) - e - 1)) in Hc by lia.
  rewrite seq_app, flat_map_app in Hc. cbn [seq flat_map Nat.add] in Hc.
  unfold epoch_chores at 2 in Hc.
  match type of Hc with
  | _ = _ ++ (_ ++ _ ++ ?p1) ++ ?p2 =>
      exists (flat_map (epoch_chores sched) (seq 0 e)
              ++ map TrainLoop.SetTrain TrainLoop.retrained), (p1 ++ p2)
  end.
  split.
  { rewrite Hc, <- !app_assoc. reflexivity. }
  split; [reflexivity|].
  assert (Hm : forall m,
            mode_after true m (flat_map (epoch_chores sched) (seq 0 e)
                               ++ map TrainLoop.SetTrain TrainLoop.retrained)
            = if existsb (net_eqb m) TrainLoop.retrained then true
              else negb (existsb (TrainLoop.due sched) (seq 0 e))).
  { intros m. rewrite mode_after_app, mode_after_epochs.
    destruct e as [|e'].
    - destruct m; reflexivity.
    - rewrite seq_S, existsb_app. cbn [existsb Nat.add].
      destruct (TrainLoop.due sched e').
      + rewrite orb_true_r. destruct m; reflexivity.
      + rewrite !orb_false_r.
        destruct (existsb _ (seq 0 e')); destruct m; reflexivity. }
  split.
  - intros m Hin. rewrite Hm.
    cbn [In TrainLoop.retrained] in Hin.
    repeat (destruct Hin as [<-|Hin]; [reflexivity|]). contradiction.
  - intros m Hin. rewrite Hm.
    cbn [In] in Hin.
    repeat (destruct Hin as [<-|Hin]; [reflexivity|]). contradiction.
Qed.

Lemma discriminators_stay_in_eval_mode_witness :
  exists j pre post,
    TrainLoop.train (Fixture.train_setup (A:=Z) Fixture.no_residual 2)
                    {| TrainLoop.epochs := 4;
                       TrainLoop.weight_save_interval := 2;
                       TrainLoop.save_optimizer := true |}
                    (fun _ => [Fixture.sample_batch 2 13])
                    S Fixture.w0 = (j, None)
    /\ TrainLoop.chores j = pre ++ TrainLoop.Batches 2 :: post
    /\ mode_after true Lstm pre = true
    /\ mode_after true ShortDiscriminator pre = false.
Proof.
  eexists.
  assert (E : TrainLoop.train (Fixture.train_setup (A:=Z) Fixture.no_residual 2)
                    {| TrainLoop.epochs := 4;
                       TrainLoop.weight_save_interval := 2;
                       TrainLoop.save_optimizer := true |}
                    (fun _ => [Fixture.sample_batch 2 13])
                    S Fixture.w0 = (_, None))
    by (vm_compute; reflexivity).
  assert (He : (Z.of_nat 2 < TrainLoop.epochs
                     {| TrainLoop.epochs := 4;
                        TrainLoop.weight_save_interval := 2;
                        TrainLoop.save_optimizer := true |})%Z)
    by (simpl; lia).
  destruct (@discriminators_stay_in_eval_mode _ _ _ _ _ _ _ _ _ _ E He)
    as (pre & post & Hc & _ & Hg & Hd).
  exists pre, post. split; [exact E|]. split; [exact Hc|]. split.
  - apply Hg. simpl. tauto.
  - rewrite Hd by (simpl; tauto). reflexivity.
Defined.

(** X14.  What tracing the recurrent core for its export leaves in its
    memory has no bearing on the run: every batch resets the memory before
    it steps the core, so the chores, the log, the random draws and the
    outcome of [train()] are the same whatever the export leaves behind. *)
Theorem export_leaves_no_trace
    {A Hid : Type} `{Scalar A}
    (cfg : Train.setup A Hid) sched loader (traced1 traced2 : Hid -> Hid) w :
  snd (TrainLoop.train cfg sched loader traced1 w)
  = snd (TrainLoop.train cfg sched loader traced2 w)
  /\ TrainLoop.chores (fst (TrainLoop.train cfg sched loader traced1 w))
     = TrainLoop.chores (fst (TrainLoop.train cfg sched loader traced2 w))
  /\ log (TrainLoop.surroundings (fst (TrainLoop.train cfg sched loader traced1 w)))
     = log (TrainLoop.surroundings (fst (TrainLoop.train cfg sched loader traced2 w)))
  /\ rng (TrainLoop.surroundings (fst (TrainLoop.train cfg sched loader traced1 w)))
     = rng (TrainLoop.surroundings (fst (TrainLoop.train cfg sched loader traced2 w))).
Proof.
  unfold TrainLoop.train.
  destruct (@epochs_from_alike A Hid H cfg sched loader traced1 traced2 0
              (Z.to_nat (TrainLoop.epochs sched))
              (TrainLoop.mkJ w []) (TrainLoop.mkJ w []))
    as (Hs & Hc & Hr & Hl).
  { split; [reflexivity|split; reflexivity]. }
  auto.
Qed.

(** X15.  With [weight_save_interval = 0] the mistake shows only once the
    first epoch has been trained: [train()] puts the five generator
    networks into training mode, runs the batches of the first epoch, and,
    unless one of them raises, stops at the test for the checkpoint with
    [ZeroDivisionError]; no directory is made and nothing is saved. *)
Theorem zero_interval_stops_after_first_epoch
    {A Hid : Type} `{Scalar A}
    (cfg : Train.setup A Hid) sched loader traced w :
  TrainLoop.weight_save_interval sched = 0%Z ->
  (0 < TrainLoop.epochs sched)%Z ->
  exists j r,
    TrainLoop.train cfg sched loader traced w = (j, Some r)
    /\ TrainLoop.chores j
       = map TrainLoop.SetTrain TrainLoop.retrained ++ [TrainLoop.Batches 0]
    /\ TrainLoop.surroundings j = fst (Train.train_epoch cfg (loader 0) w)
    /\ match snd (Train.train_epoch cfg (loader 0) w) with
       | Ok _ => r = TrainLoop.ZeroDivisionError
       | Raise e => r = TrainLoop.Inner e
       end.
Proof.
  intros Hi Hn. unfold TrainLoop.train.
  destruct (Z.to_nat (TrainLoop.epochs sched)) as [|n] eqn:En; [lia|].
  cbn [TrainLoop.epochs_from]. unfold TrainLoop.epoch_body.
  cbn [TrainLoop.note TrainLoop.surroundings TrainLoop.chores app].
  rewrite Hi. cbn [Z.eqb].
  destruct (Train.train_epoch cfg (loader 0) w) as [w1 [u|e]];
    eexists; eexists; (split; [reflexivity|]); cbn; auto.
Qed.

Lemma zero_interval_stops_after_first_epoch_witness :
  exists j,
    TrainLoop.train (Fixture.train_setup (A:=Z) Fixture.no_residual 2)
                    {| TrainLoop.epochs := 4;
                       TrainLoop.weight_save_interval := 0;
                       TrainLoop.save_optimizer := true |}
                    (fun _ => [Fixture.sample_batch 2 13])
                    S Fixture.w0 = (j, Some TrainLoop.ZeroDivisionError)
    /\ made_dirs (TrainLoop.chores j) = [].
Proof.
  assert (Hi : TrainLoop.weight_save_interval
                 {| TrainLoop.epochs := 4;
                    TrainLoop.weight_save_interval := 0;
                    TrainLoop.save_optimizer := true |} = 0%Z) by reflexivity.
  assert (Hn : (0 < TrainLoop.epochs
                 {| TrainLoop.epochs := 4;
                    TrainLoop.weight_save_interval := 0;
                    TrainLoop.save_optimizer := true |})%Z)
    by (simpl; lia).
  destruct (@zero_interval_stops_after_first_epoch _ _ _
              (Fixture.train_setup (A:=Z) Fixture.no_residual 2) _
              (fun _ => [Fixture.sample_batch 2 13]) S Fixture.w0 Hi Hn)
    as (j & r & E & Hc & _ & Hr).
  exists j. vm_compute in Hr. subst r. split; [exact E|].
  rewrite Hc. reflexivity.
Defined.
